(** * CardCounter: a Blackjack round engine

    A shallow embedding of the JavaScript sources

      - [src/models/Card.js]      (module [Card])
      - [src/models/Deck.js]      (module [Deck])
      - [src/models/Hand.js]      (module [Hand])
      - [src/services/Dealer.js]  (module [Dealer])
      - [src/services/Evaluator.js] (module [Evaluator])
      - [src/engine/GameState.js] (module [GameState])
      - [src/main.js]             (module [Main])
      - [archive/legacy/cardDeck.js], [archive/legacy/cardDealer.js]
                                  (module [Legacy])

    followed by the properties of the round engine, of the demo round
    and of the legacy dealer.

    Conventions of the embedding.
      - JavaScript numbers that hold card values and totals are integers
        far below 2^53; they are modelled by [Z].  Wagers, payouts and
        the penetration are modelled by exact rationals [Q], a double
        by the rational it stands for.  The threshold
        [floor(totalCards * (1 - penetration))] is taken of the exact
        product, where the engine floors the rounded product of two
        doubles: the two agree for the default 0.75 and wherever the
        product is exact, and can differ by one elsewhere (5 decks at
        the double nearest 0.65: 90 here, 91 in the engine).  The properties below depend
        on the threshold through its sign only (it is not negative when
        the penetration is at most 1, and negative above 1), which the
        rounding keeps, or name it in a hypothesis with a margin of one
        card ([reshuffleAt]).
      - Objects that the code mutates in place (the shoe, a hand, the
        engine's variables) are records threaded through the functions;
        a function that mutates a hand it was given returns the new hand.
      - [Math.random] is an external sequence of naturals consumed one per
        call; the index [j = floor(random * (i + 1))] of the shuffle is the
        drawn natural modulo [i + 1], so every [j] in [0, i] can be drawn.
      - The only unbounded loop of the engine is the dealer's
        [while (shouldDealerHit(hand)) hit(hand)]; it is run on fuel, and
        so is the [while] loop of [main.js].  What the console view
        prints is left out. *)

From Stdlib Require Import ZArith QArith Qround Lia.
From stdpp Require Import base list strings.

Local Close Scope Q_scope.
Local Open Scope Z_scope.
Local Open Scope nat_scope.

(* ================================================================== *)
(** ** Card.js *)

Module Card.

Inductive Suit := Hearts | Diamonds | Clubs | Spades.

Definition SUITS : list Suit := [Hearts; Diamonds; Clubs; Spades].

Definition suit_name (s : Suit) : string :=
  match s with
  | Hearts => "Hearts" | Diamonds => "Diamonds"
  | Clubs => "Clubs" | Spades => "Spades"
  end.

(** One entry of the [RANKS] table. *)
Record RankInfo := mkRank { name : string; symbol : string; rvalue : Z }.

Definition ace := mkRank "ace" "A" 11.
Definition two := mkRank "two" "2" 2.
Definition three := mkRank "three" "3" 3.
Definition four := mkRank "four" "4" 4.
Definition five := mkRank "five" "5" 5.
Definition six := mkRank "six" "6" 6.
Definition seven := mkRank "seven" "7" 7.
Definition eight := mkRank "eight" "8" 8.
Definition nine := mkRank "nine" "9" 9.
Definition ten := mkRank "ten" "10" 10.
Definition jack := mkRank "jack" "J" 10.
Definition queen := mkRank "queen" "Q" 10.
Definition king := mkRank "king" "K" 10.

Definition RANKS : list RankInfo :=
  [ace; two; three; four; five; six; seven; eight; nine; ten; jack; queen;
   king].

(** The frozen object built by [createCard]. *)
Record t := mk { id : string; rank : string; suit : Suit; value : Z }.

Definition createCard (rankInfo : RankInfo) (s : Suit) : t :=
  {| id := name rankInfo +:+ suit_name s;
     rank := symbol rankInfo;
     suit := s;
     value := rvalue rankInfo |}.

Definition isAce (card : t) : bool := String.eqb (rank card) "A".

End Card.

(* ================================================================== *)
(** ** Hand.js *)

Module Hand.

(** The object returned by [evaluate]. *)
Record Value := mkValue { total : Z; soft : bool }.

(** The [for (const card of cards)] loop: running total and ace count. *)
Definition tally (cards : list Card.t) : Z * nat :=
  fold_left
    (fun acc card =>
       ((fst acc + Card.value card)%Z,
        if Card.isAce card then S (snd acc) else snd acc))
    cards (0%Z, 0).

(** [while (total > 21 && aces > 0) { total -= 10; aces--; }]; the loop
    counts [aces] down, which is what the recursion follows. *)
Fixpoint reduce (total : Z) (aces : nat) : Z * nat :=
  match aces with
  | 0 => (total, 0)
  | S aces' =>
      if (21 <? total)%Z then reduce (total - 10)%Z aces' else (total, aces)
  end.

Definition evaluate (cards : list Card.t) : Value :=
  let '(total, aces) := tally cards in
  let '(total, aces) := reduce total aces in
  {| total := total; soft := 0 <? aces |}.

(** The closure state of [createHand]: its [cards] array, the [bet] and
    [isDealerHand] parameters and the [settled] flag. *)
Record t := mk {
  cards : list Card.t;
  bet : Q;
  isDealerHand : bool;
  settled : bool
}.

Definition createHand (isDealerHand : bool) (bet : Q) : t :=
  {| cards := []; bet := bet; isDealerHand := isDealerHand; settled := false |}.

Definition addCards (newCards : list Card.t) (h : t) : t :=
  {| cards := cards h ++ newCards; bet := bet h;
     isDealerHand := isDealerHand h; settled := settled h |}.

Definition value (h : t) : Value := evaluate (cards h).
Definition htotal (h : t) : Z := total (evaluate (cards h)).
Definition isSoft (h : t) : bool := soft (evaluate (cards h)).
Definition isBusted (h : t) : bool := (21 <? htotal h)%Z.

Definition isBlackjack (h : t) : bool :=
  (length (cards h) =? 2) && (htotal h =? 21)%Z.

Definition canSplit (h : t) : bool :=
  match cards h with
  | [c0; c1] => String.eqb (Card.rank c0) (Card.rank c1)
  | _ => false
  end.

Definition canDoubleDown (h : t) : bool := length (cards h) =? 2.

(** [split] throws when [canSplit] is false: [None] stands for the
    thrown [Error('Hand cannot be split')]. *)
Definition split (h : t) : option (t * t) :=
  match cards h with
  | [c0; c1] =>
      if String.eqb (Card.rank c0) (Card.rank c1)
      then Some (addCards [c0] (createHand false (bet h)),
                 addCards [c1] (createHand false (bet h)))
      else None
  | _ => None
  end.

Definition settle (h : t) : t :=
  {| cards := cards h; bet := bet h;
     isDealerHand := isDealerHand h; settled := true |}.

Definition isSettled (h : t) : bool :=
  settled h || isBusted h || isBlackjack h.

Definition getCards (h : t) : list Card.t := cards h.
Definition size (h : t) : nat := length (cards h).
Definition getBet (h : t) : Q := bet h.

Definition doubleBet (h : t) : t :=
  {| cards := cards h; bet := (bet h * 2)%Q;
     isDealerHand := isDealerHand h; settled := settled h |}.

End Hand.

(* ================================================================== *)
(** ** Deck.js *)

Module Deck.

(** 0.75 *)
Definition DEFAULT_PENETRATION : Q := 3 # 4.

Definition buildSingleDeck : list Card.t :=
  flat_map (fun rank => map (fun suit => Card.createCard rank suit) Card.SUITS)
           Card.RANKS.

(** The random source: [source k] is what the [k]-th call of
    [Math.random] yields, [calls] counts the calls made so far. *)
Record Random := mkRandom { source : nat -> nat; calls : nat }.

(** [Math.floor(Math.random() * bound)] *)
Definition floorRandom (bound : nat) (r : Random) : nat * Random :=
  (source r (calls r) mod bound,
   {| source := source r; calls := S (calls r) |}).

(** [[arr[i], arr[j]] = [arr[j], arr[i]]] *)
Definition swap {A} (i j : nat) (arr : list A) : list A :=
  match arr !! i, arr !! j with
  | Some x, Some y => <[j := x]> (<[i := y]> arr)
  | _, _ => arr
  end.

(** [for (let i = arr.length - 1; i > 0; i--)] *)
Fixpoint shuffleLoop {A} (i : nat) (arr : list A) (r : Random)
  : list A * Random :=
  match i with
  | 0 => (arr, r)
  | S i' =>
      let '(j, r') := floorRandom (i + 1) r in
      shuffleLoop i' (swap i j arr) r'
  end.

Definition fisherYatesShuffle {A} (arr : list A) (r : Random)
  : list A * Random :=
  shuffleLoop (length arr - 1) arr r.

(** The closure state of [createDeck]: the parameters [numDecks] and
    [penetration], and the variables [cards], [totalCards] and
    [discardPile]; [random] is the state of [Math.random]. *)
Record t := mk {
  numDecks : nat;
  penetration : Q;
  cards : list Card.t;
  totalCards : nat;
  discardPile : list Card.t;
  random : Random
}.

(** [for (let d = 0; d < numDecks; d++) cards.push(...buildSingleDeck())] *)
Fixpoint buildShoe (d : nat) : list Card.t :=
  match d with
  | 0 => []
  | S d' => buildShoe d' ++ buildSingleDeck
  end.

Definition reset (s : t) : t :=
  let built := buildShoe (numDecks s) in
  let '(shuffled, r) := fisherYatesShuffle built (random s) in
  {| numDecks := numDecks s; penetration := penetration s;
     cards := shuffled; totalCards := length built;
     discardPile := []; random := r |}.

Definition createDeck (numDecks : nat) (penetration : Q) (r : Random) : t :=
  reset {| numDecks := numDecks; penetration := penetration;
           cards := []; totalCards := 0; discardPile := []; random := r |}.

(** [cards.splice(0, count)] followed by [discardPile.push(...burned)]. *)
Definition burn (count : nat) (s : t) : list Card.t * t :=
  let burned := take count (cards s) in
  (burned,
   {| numDecks := numDecks s; penetration := penetration s;
      cards := drop count (cards s); totalCards := totalCards s;
      discardPile := discardPile s ++ burned; random := random s |}).

(** [cards.length <= Math.floor(totalCards * (1 - penetration))], with
    the product taken exactly (see the conventions above). *)
Definition needsReshuffle (s : t) : bool :=
  (Z.of_nat (length (cards s))
   <=? Qfloor (inject_Z (Z.of_nat (totalCards s)) * (1 - penetration s))%Q)%Z.

Definition reshuffle (s : t) : t :=
  let merged := cards s ++ discardPile s in
  let '(shuffled, r) := fisherYatesShuffle merged (random s) in
  {| numDecks := numDecks s; penetration := penetration s;
     cards := shuffled; totalCards := length merged;
     discardPile := []; random := r |}.

Definition draw (count : nat) (s : t) : list Card.t * t :=
  let s := if needsReshuffle s then reshuffle s else s in
  let count := if length (cards s) <? count then length (cards s) else count in
  (take count (cards s),
   {| numDecks := numDecks s; penetration := penetration s;
      cards := drop count (cards s); totalCards := totalCards s;
      discardPile := discardPile s; random := random s |}).

Definition discard (discardedCards : list Card.t) (s : t) : t :=
  {| numDecks := numDecks s; penetration := penetration s;
     cards := cards s; totalCards := totalCards s;
     discardPile := discardPile s ++ discardedCards; random := random s |}.

Definition remaining (s : t) : nat := length (cards s).

End Deck.

(* ================================================================== *)
(** ** Dealer.js *)

Module Dealer.

(** The options object of [createDealer] and [createGame]. *)
Record Opts := mkOpts {
  numDecks : nat;
  penetration : Q;
  dealerHitsSoft17 : bool
}.

(** The defaults of the destructuring in [createDealer]. *)
Definition defaults : Opts :=
  {| numDecks := 1; penetration := 3 # 4; dealerHitsSoft17 := false |}.

(** The closure state of [createDealer]: the shoe and the house rule. *)
Record t := mk { shoe : Deck.t; hitsSoft17 : bool }.

Definition createDealer (opts : Opts) (r : Deck.Random) : t :=
  {| shoe := Deck.createDeck (numDecks opts) (penetration opts) r;
     hitsSoft17 := dealerHitsSoft17 opts |}.

Definition withShoe (s : Deck.t) (d : t) : t :=
  {| shoe := s; hitsSoft17 := hitsSoft17 d |}.

Definition burnCard (d : t) : list Card.t * t :=
  let '(burned, s) := Deck.burn 1 (shoe d) in (burned, withShoe s d).

Definition remaining (d : t) : nat := Deck.remaining (shoe d).

Definition reshuffle (d : t) : t := withShoe (Deck.reset (shoe d)) d.

Definition discardCards (cards : list Card.t) (d : t) : t :=
  withShoe (Deck.discard cards (shoe d)) d.

(** What a slot of the [bets] array can hold where a number is expected:
    a number, [NaN], or nothing ([undefined], also a hole). *)
Inductive Wager := undefined | NaN | number (q : Q).

Definition truthy (w : Wager) : bool :=
  match w with
  | number q => negb (Qeq_bool q 0)
  | _ => false
  end.

(** [bets[i] || 0]; an index past the end of the array reads [undefined]. *)
Definition wagerAt (bets : list Wager) (i : nat) : Q :=
  match bets !! i with
  | Some (number q) => if truthy (number q) then q else 0%Q
  | _ => 0%Q
  end.

(** One [for (const hand of playerHands) hand.addCards(...shoe.draw(1))]. *)
Fixpoint dealPass (hands : list Hand.t) (s : Deck.t)
  : list Hand.t * Deck.t :=
  match hands with
  | [] => ([], s)
  | hand :: rest =>
      let '(drawn, s) := Deck.draw 1 s in
      let '(rest, s) := dealPass rest s in
      (Hand.addCards drawn hand :: rest, s)
  end.

(** One pass of the round-robin: the player hands, then the dealer. *)
Definition dealRound (hands : list Hand.t * Hand.t) (s : Deck.t)
  : (list Hand.t * Hand.t) * Deck.t :=
  let '(playerHands, s) := dealPass (fst hands) s in
  let '(drawn, s) := Deck.draw 1 s in
  ((playerHands, Hand.addCards drawn (snd hands)), s).

Definition dealInitial (numPlayers : nat) (bets : list Wager) (d : t)
  : (list Hand.t * Hand.t) * t :=
  let '(_, d) := burnCard d in
  let playerHands :=
    map (fun i => Hand.createHand false (wagerAt bets i)) (seq 0 numPlayers) in
  let dealerHand := Hand.createHand true 0%Q in
  let '(hands, s) := dealRound (playerHands, dealerHand) (shoe d) in
  let '(hands, s) := dealRound hands s in
  (hands, withShoe s d).

(** [const [card] = shoe.draw(1); if (card) hand.addCards(card);
    return card;]  A card is an object, hence truthy. *)
Definition hit (hand : Hand.t) (d : t) : (option Card.t * Hand.t) * t :=
  let '(drawn, s) := Deck.draw 1 (shoe d) in
  match drawn with
  | card :: _ => ((Some card, Hand.addCards [card] hand), withShoe s d)
  | [] => ((None, hand), withShoe s d)
  end.

Definition shouldDealerHit (d : t) (hand : Hand.t) : bool :=
  let v := Hand.value hand in
  if (Hand.total v <? 17)%Z then true
  else if (Hand.total v =? 17)%Z && Hand.soft v && hitsSoft17 d then true
  else false.

(** [while (shouldDealerHit(dealerHand)) hit(dealerHand);] on fuel:
    [None] when the fuel runs out before the policy says stand. *)
Fixpoint dealerLoop (fuel : nat) (hand : Hand.t) (d : t)
  : option (Hand.t * t) :=
  match fuel with
  | 0 => None
  | S fuel' =>
      if shouldDealerHit d hand
      then let '((_, hand), d) := hit hand d in dealerLoop fuel' hand d
      else Some (hand, d)
  end.

Definition playDealerHand (fuel : nat) (dealerHand : Hand.t) (d : t)
  : option ((Z * Hand.t) * t) :=
  match dealerLoop fuel dealerHand d with
  | None => None
  | Some (hand, d) =>
      let hand := Hand.settle hand in
      Some ((Hand.htotal hand, hand), d)
  end.

End Dealer.

(* ================================================================== *)
(** ** Evaluator.js *)

Module Evaluator.

Inductive Outcome := WIN | BLACKJACK | LOSE | PUSH | DEALER_BUST.

(** The object returned by [compareHands]. *)
Record Verdict := mkVerdict { outcome : Outcome; payout : Q }.

Definition compareHands (playerHand dealerHand : Hand.t) : Verdict :=
  let pTotal := Hand.htotal playerHand in
  let dTotal := Hand.htotal dealerHand in
  if Hand.isBusted playerHand then mkVerdict LOSE (-1)
  else if Hand.isBlackjack playerHand then
    if Hand.isBlackjack dealerHand then mkVerdict PUSH 0
    else mkVerdict BLACKJACK (3 # 2)
  else if Hand.isBusted dealerHand then mkVerdict DEALER_BUST 1
  else if (dTotal <? pTotal)%Z then mkVerdict WIN 1
  else if (pTotal <? dTotal)%Z then mkVerdict LOSE (-1)
  else mkVerdict PUSH 0.

(** One entry of the array returned by [settleRound]. *)
Record RoundResult := mkResult {
  hand : Hand.t;
  r_outcome : Outcome;
  r_payout : Q;
  net : Q
}.

Definition settleRound (playerHands : list Hand.t) (dealerHand : Hand.t)
  : list RoundResult :=
  map (fun hand =>
         let v := compareHands hand dealerHand in
         {| hand := hand; r_outcome := outcome v; r_payout := payout v;
            net := (Hand.getBet hand * payout v)%Q |})
      playerHands.

End Evaluator.

(* ================================================================== *)
(** ** GameState.js *)

Module GameState.

Inductive State :=
  BETTING | DEALING | PLAYER_TURN | DEALER_TURN | SETTLEMENT | GAME_OVER.

Definition state_name (s : State) : string :=
  match s with
  | BETTING => "BETTING" | DEALING => "DEALING"
  | PLAYER_TURN => "PLAYER_TURN" | DEALER_TURN => "DEALER_TURN"
  | SETTLEMENT => "SETTLEMENT" | GAME_OVER => "GAME_OVER"
  end.

Definition state_eqb (a b : State) : bool :=
  match a, b with
  | BETTING, BETTING | DEALING, DEALING | PLAYER_TURN, PLAYER_TURN
  | DEALER_TURN, DEALER_TURN | SETTLEMENT, SETTLEMENT
  | GAME_OVER, GAME_OVER => true
  | _, _ => false
  end.

(** What [emit] hands to the listeners: the event and, of its data, the
    state, the hand index and the card (hands are read from the engine). *)
Module Event.
Inductive t :=
  | stateChange (s : State)
  | dealt
  | playerHit (handIndex : nat) (card : option Card.t)
  | playerStand (handIndex : nat)
  | playerDouble (handIndex : nat) (card : option Card.t)
  | playerSplit (handIndex : nat)
  | playerBust (handIndex : nat)
  | activeHandChange (handIndex : nat)
  | dealerReveal
  | dealerDone
  | settlement.
End Event.

(** The closure state of [createGame]; [emitted] is the sequence of
    events emitted so far, oldest first. *)
Record t := mk {
  dealer : Dealer.t;
  state : State;
  playerHands : list Hand.t;
  dealerHand : option Hand.t;
  activeHandIdx : nat;
  results : list Evaluator.RoundResult;
  emitted : list Event.t
}.

(** How a call ends: it returns, it throws, or (the dealer's loop on
    fuel) it is still running when the fuel is spent. *)
Inductive Completion (A : Type) :=
  | Returned (a : A)
  | Thrown (message : string)
  | Running.
Arguments Returned {A} a.
Arguments Thrown {A} message.
Arguments Running {A}.

(** A method of the engine: the engine's state is threaded through, and
    is kept as it stands when the method throws. *)
Definition M (A : Type) : Type := t -> Completion A * t.

Definition ret {A} (a : A) : M A := fun g => (Returned a, g).

Definition bind {A B} (m : M A) (k : A -> M B) : M B :=
  fun g =>
    match m g with
    | (Returned a, g') => k a g'
    | (Thrown e, g') => (Thrown e, g')
    | (Running, g') => (Running, g')
    end.

Definition throw {A} (message : string) : M A := fun g => (Thrown message, g).
Definition running {A} : M A := fun g => (Running, g).
Definition get : M t := fun g => (Returned g, g).
Definition modify (f : t -> t) : M unit := fun g => (Returned tt, f g).

Declare Scope game_scope.
Delimit Scope game_scope with game.
Notation "x <- m ;; k" := (bind m (fun x => k))
  (at level 100, m at next level, k at level 200, right associativity)
  : game_scope.
Notation "m ;; k" := (bind m (fun _ => k))
  (at level 100, k at level 200, right associativity) : game_scope.
Local Open Scope game_scope.

(** Assignments to the engine's variables. *)
Definition withDealer (d : Dealer.t) (g : t) : t :=
  {| dealer := d; state := state g; playerHands := playerHands g;
     dealerHand := dealerHand g; activeHandIdx := activeHandIdx g;
     results := results g; emitted := emitted g |}.

Definition withState (s : State) (g : t) : t :=
  {| dealer := dealer g; state := s; playerHands := playerHands g;
     dealerHand := dealerHand g; activeHandIdx := activeHandIdx g;
     results := results g; emitted := emitted g |}.

Definition withPlayerHands (hs : list Hand.t) (g : t) : t :=
  {| dealer := dealer g; state := state g; playerHands := hs;
     dealerHand := dealerHand g; activeHandIdx := activeHandIdx g;
     results := results g; emitted := emitted g |}.

Definition withDealerHand (h : option Hand.t) (g : t) : t :=
  {| dealer := dealer g; state := state g; playerHands := playerHands g;
     dealerHand := h; activeHandIdx := activeHandIdx g;
     results := results g; emitted := emitted g |}.

Definition withActiveHandIdx (i : nat) (g : t) : t :=
  {| dealer := dealer g; state := state g; playerHands := playerHands g;
     dealerHand := dealerHand g; activeHandIdx := i;
     results := results g; emitted := emitted g |}.

Definition withResults (rs : list Evaluator.RoundResult) (g : t) : t :=
  {| dealer := dealer g; state := state g; playerHands := playerHands g;
     dealerHand := dealerHand g; activeHandIdx := activeHandIdx g;
     results := rs; emitted := emitted g |}.

(** The listeners are outside the engine: an emitted event is recorded. *)
Definition withEvent (e : Event.t) (g : t) : t :=
  {| dealer := dealer g; state := state g; playerHands := playerHands g;
     dealerHand := dealerHand g; activeHandIdx := activeHandIdx g;
     results := results g; emitted := emitted g ++ [e] |}.

Definition setDealer (d : Dealer.t) : M unit := modify (withDealer d).
Definition setState (s : State) : M unit := modify (withState s).
Definition setPlayerHands (hs : list Hand.t) : M unit :=
  modify (withPlayerHands hs).
Definition setDealerHand (h : option Hand.t) : M unit :=
  modify (withDealerHand h).
Definition setActiveHandIdx (i : nat) : M unit := modify (withActiveHandIdx i).
Definition setResults (rs : list Evaluator.RoundResult) : M unit :=
  modify (withResults rs).
Definition emit (e : Event.t) : M unit := modify (withEvent e).

(** A method called on [null] or [undefined]. *)
Definition typeError {A} : M A := throw "TypeError".

Definition createGame (opts : Dealer.Opts) (r : Deck.Random) : t :=
  {| dealer := Dealer.createDealer opts r;
     state := BETTING;
     playerHands := [];
     dealerHand := None;
     activeHandIdx := 0;
     results := [];
     emitted := [] |}.

(** [playerHands[activeHandIdx] || null] *)
Definition getActiveHand (g : t) : option Hand.t :=
  playerHands g !! activeHandIdx g.

(** [playerHands[activeHandIdx]] is the hand object the action mutates. *)
Definition setActiveHand (hand : Hand.t) : M unit :=
  g <- get ;;
  setPlayerHands (<[activeHandIdx g := hand]> (playerHands g)).

(** [dealer.hit(hand)] on the engine's dealer. *)
Definition dealerHit (hand : Hand.t) : M (option Card.t * Hand.t) :=
  g <- get ;;
  let '(r, d) := Dealer.hit hand (dealer g) in
  setDealer d ;; ret r.

(** Compare all hands and produce results. *)
Definition settle : M unit :=
  g <- get ;;
  match dealerHand g with
  | None =>
      (* [compareHands] calls [dealerHand.total()] for the first player
         hand; with no player hand, [dealerHand.getCards()] fails. *)
      match playerHands g with
      | [] => setResults [] ;; emit Event.settlement ;; typeError
      | _ :: _ => typeError
      end
  | Some dHand =>
      setResults (Evaluator.settleRound (playerHands g) dHand) ;;
      emit Event.settlement ;;
      let allCards :=
        flat_map Hand.getCards (playerHands g) ++ Hand.getCards dHand in
      setDealer (Dealer.discardCards allCards (dealer g)) ;;
      setState GAME_OVER ;;
      emit (Event.stateChange GAME_OVER)
  end.

(** Transition to DEALER_TURN, play out, then settle. *)
Definition beginDealerTurn (fuel : nat) : M unit :=
  g <- get ;;
  let allBusted := forallb Hand.isBusted (playerHands g) in
  setState DEALER_TURN ;;
  emit (Event.stateChange DEALER_TURN) ;;
  (if negb allBusted then
     emit Event.dealerReveal ;;
     match dealerHand g with
     | None => typeError
     | Some dHand =>
         match Dealer.playDealerHand fuel dHand (dealer g) with
         | None => running
         | Some ((_, dHand), d) =>
             setDealer d ;; setDealerHand (Some dHand) ;;
             emit Event.dealerDone
         end
     end
   else
     match dealerHand g with
     | None => typeError
     | Some dHand => setDealerHand (Some (Hand.settle dHand))
     end) ;;
  setState SETTLEMENT ;;
  emit (Event.stateChange SETTLEMENT) ;;
  settle.

(** [while (activeHandIdx < playerHands.length &&
           playerHands[activeHandIdx].isSettled()) activeHandIdx++;]
    The index only grows, so [n] iterations are enough once [n] is the
    number of hands. *)
Fixpoint skipLoop (n : nat) (hands : list Hand.t) (idx : nat) : nat :=
  match n with
  | 0 => idx
  | S n' =>
      match hands !! idx with
      | Some hand => if Hand.isSettled hand then skipLoop n' hands (S idx) else idx
      | None => idx
      end
  end.

(** Skip any already-settled hands (blackjacks, busts). *)
Definition skipSettledHands (fuel : nat) : M unit :=
  g <- get ;;
  setActiveHandIdx
    (skipLoop (length (playerHands g)) (playerHands g) (activeHandIdx g)) ;;
  g <- get ;;
  if length (playerHands g) <=? activeHandIdx g
  then beginDealerTurn fuel
  else emit (Event.activeHandChange (activeHandIdx g)).

(** Move to next unsettled player hand, or transition to dealer turn. *)
Definition advanceHand (fuel : nat) : M unit :=
  g <- get ;;
  setActiveHandIdx (S (activeHandIdx g)) ;;
  skipSettledHands fuel.

(** BETTING -> DEALING *)
Definition placeBets (fuel : nat) (bets : list Dealer.Wager) : M unit :=
  g <- get ;;
  if negb (state_eqb (state g) BETTING)
  then throw ("Cannot bet in state " +:+ state_name (state g))
  else if length bets =? 0 then throw "At least one bet required"
  else
    setState DEALING ;;
    emit (Event.stateChange DEALING) ;;
    let '((pHands, dHand), d) :=
      Dealer.dealInitial (length bets) bets (dealer g) in
    setDealer d ;;
    setPlayerHands pHands ;;
    setDealerHand (Some dHand) ;;
    setActiveHandIdx 0 ;;
    setResults [] ;;
    emit Event.dealt ;;
    if Hand.isBlackjack dHand then
      setState SETTLEMENT ;; emit (Event.stateChange SETTLEMENT) ;; settle
    else if forallb Hand.isBlackjack pHands then
      setState SETTLEMENT ;; emit (Event.stateChange SETTLEMENT) ;; settle
    else
      setState PLAYER_TURN ;;
      emit (Event.stateChange PLAYER_TURN) ;;
      skipSettledHands fuel.

Definition playerHit (fuel : nat) : M unit :=
  g <- get ;;
  if negb (state_eqb (state g) PLAYER_TURN)
  then throw ("Cannot hit in state " +:+ state_name (state g))
  else
    match getActiveHand g with
    | None =>
        (* [dealer.hit(null)] draws, then fails on [hand.addCards]; with
           no card drawn it returns and [hand.isBusted()] fails. *)
        let '(drawn, s) := Deck.draw 1 (Dealer.shoe (dealer g)) in
        setDealer (Dealer.withShoe s (dealer g)) ;;
        match drawn with
        | _ :: _ => typeError
        | [] => emit (Event.playerHit (activeHandIdx g) None) ;; typeError
        end
    | Some hand =>
        r <- dealerHit hand ;;
        let '(card, hand) := r in
        setActiveHand hand ;;
        emit (Event.playerHit (activeHandIdx g) card) ;;
        if Hand.isBusted hand then
          setActiveHand (Hand.settle hand) ;;
          emit (Event.playerBust (activeHandIdx g)) ;;
          advanceHand fuel
        else ret tt
    end.

Definition playerStand (fuel : nat) : M unit :=
  g <- get ;;
  if negb (state_eqb (state g) PLAYER_TURN)
  then throw ("Cannot stand in state " +:+ state_name (state g))
  else
    match getActiveHand g with
    | None => typeError
    | Some hand =>
        setActiveHand (Hand.settle hand) ;;
        emit (Event.playerStand (activeHandIdx g)) ;;
        advanceHand fuel
    end.

Definition playerDoubleDown (fuel : nat) : M unit :=
  g <- get ;;
  if negb (state_eqb (state g) PLAYER_TURN)
  then throw ("Cannot double in state " +:+ state_name (state g))
  else
    match getActiveHand g with
    | None => typeError
    | Some hand =>
        if negb (Hand.canDoubleDown hand) then throw "Double down not allowed"
        else
          r <- dealerHit (Hand.doubleBet hand) ;;
          let '(card, hand) := r in
          let hand := Hand.settle hand in
          setActiveHand hand ;;
          emit (Event.playerDouble (activeHandIdx g) card) ;;
          (if Hand.isBusted hand
           then emit (Event.playerBust (activeHandIdx g))
           else ret tt) ;;
          advanceHand fuel
    end.

Definition playerSplit (fuel : nat) : M unit :=
  g <- get ;;
  if negb (state_eqb (state g) PLAYER_TURN)
  then throw ("Cannot split in state " +:+ state_name (state g))
  else
    match getActiveHand g with
    | None => typeError
    | Some hand =>
        if negb (Hand.canSplit hand) then throw "Split not allowed"
        else
          match Hand.split hand with
          | None => throw "Hand cannot be split"
          | Some (handA, handB) =>
              rA <- dealerHit handA ;;
              rB <- dealerHit handB ;;
              let handA := snd rA in
              let handB := snd rB in
              (* playerHands.splice(activeHandIdx, 1, handA, handB) *)
              setPlayerHands
                (take (activeHandIdx g) (playerHands g)
                 ++ [handA; handB]
                 ++ drop (S (activeHandIdx g)) (playerHands g)) ;;
              emit (Event.playerSplit (activeHandIdx g)) ;;
              skipSettledHands fuel
          end
    end.

(** Reset for the next round (goes back to BETTING). *)
Definition newRound : M unit :=
  setPlayerHands [] ;;
  setDealerHand None ;;
  setActiveHandIdx 0 ;;
  setResults [] ;;
  setState BETTING ;;
  emit (Event.stateChange BETTING).

End GameState.

(* ================================================================== *)
(** ** Vocabulary of the properties *)

Import GameState.
Local Open Scope game_scope.

(** The sum of the base values of the cards, every Ace at 11. *)
Definition baseSum (cards : list Card.t) : Z :=
  foldr (fun card acc => (Card.value card + acc)%Z) 0%Z cards.

(** The number of Aces among the cards. *)
Definition aceCount (cards : list Card.t) : nat :=
  length (filter (fun card => Card.isAce card = true) cards).

(** A hand holding the given cards, for the worked examples. *)
Definition handOf (cards : list Card.t) : Hand.t :=
  Hand.addCards cards (Hand.createHand false 0%Q).

(** The hand and the dealer after [n] calls of [hit(hand)]. *)
Fixpoint hits (n : nat) (hand : Hand.t) (d : Dealer.t) : Hand.t * Dealer.t :=
  match n with
  | 0 => (hand, d)
  | S n' => let '((_, hand), d) := Dealer.hit hand d in hits n' hand d
  end.

(** The cards of the shoe: the live cards and the discard pile. *)
Definition shoeCount (s : Deck.t) : nat :=
  length (Deck.cards s) + length (Deck.discardPile s).

(** The cards held by a list of hands. *)
Definition heldBy (hands : list Hand.t) : nat :=
  sum_list_with Hand.size hands.

(** The cards held by the dealer hand, when there is one. *)
Definition heldByDealer (h : option Hand.t) : nat :=
  match h with Some hand => Hand.size hand | None => 0 end.

(** The actions of the engine's API. *)
Inductive Action :=
  | PlaceBets (bets : list Dealer.Wager)
  | PlayerHit
  | PlayerStand
  | PlayerDoubleDown
  | PlayerSplit
  | NewRound.

Definition perform (fuel : nat) (a : Action) : M unit :=
  match a with
  | PlaceBets bets => placeBets fuel bets
  | PlayerHit => playerHit fuel
  | PlayerStand => playerStand fuel
  | PlayerDoubleDown => playerDoubleDown fuel
  | PlayerSplit => playerSplit fuel
  | NewRound => newRound
  end.

(** The guard of each action, as its first statements test it: the state
    it is valid in and, for [placeBets], [playerDoubleDown] and
    [playerSplit], its precondition.  [newRound] has no guard. *)
Definition permitted (a : Action) (g : t) : bool :=
  match a with
  | PlaceBets bets =>
      state_eqb (state g) BETTING && negb (length bets =? 0)
  | PlayerHit | PlayerStand => state_eqb (state g) PLAYER_TURN
  | PlayerDoubleDown =>
      state_eqb (state g) PLAYER_TURN &&
      match getActiveHand g with
      | Some hand => length (Hand.cards hand) =? 2
      | None => false
      end
  | PlayerSplit =>
      state_eqb (state g) PLAYER_TURN &&
      match getActiveHand g with
      | Some hand =>
          match Hand.cards hand with
          | [c0; c1] => bool_decide (Card.rank c0 = Card.rank c1)
          | _ => false
          end
      | None => false
      end
  | NewRound => true
  end.

(** Rounds are played to their end: [newRound] is called between rounds,
    that is once the round is over or before one has begun. *)
Definition betweenRounds (g : t) : bool :=
  state_eqb (state g) GAME_OVER || state_eqb (state g) BETTING.

Definition inOrder (a : Action) (g : t) : bool :=
  match a with
  | NewRound => betweenRounds g
  | _ => true
  end.

(** A caller driving the engine through a sequence of actions; an action
    that throws leaves the engine to the caller as it stands.  [None]
    when the fuel does not let an action return, or when [newRound]
    would abandon a round in progress. *)
Fixpoint run (fuel : nat) (actions : list Action) (g : t) : option t :=
  match actions with
  | [] => Some g
  | a :: rest =>
      if inOrder a g then
        match perform fuel a g with
        | (Running, _) => None
        | (_, g') => run fuel rest g'
        end
      else None
  end.

(** The states that the [stateChange] events of a log announce. *)
Definition stateChanges (events : list Event.t) : list State :=
  omap (fun e => match e with Event.stateChange s => Some s | _ => None end)
       events.

(** A card of the standard deck. *)
Definition standard (card : Card.t) : Prop := card ∈ Deck.buildSingleDeck.

(** A shoe that holds cards of the standard deck only. *)
Definition standardShoe (s : Deck.t) : Prop :=
  Forall standard (Deck.cards s) /\ Forall standard (Deck.discardPile s).

(** The policy's answer after [n] hits. *)
Definition hitsAgain (n : nat) (hand : Hand.t) (d : Dealer.t) : bool :=
  Dealer.shouldDealerHit (snd (hits n hand d)) (fst (hits n hand d)).

(** The engine once [settle] has run with [dHand] on the dealer's side. *)
Definition settled (dHand : Hand.t) (g : t) : t :=
  withEvent (Event.stateChange GAME_OVER)
    (withState GAME_OVER
       (withDealer
          (Dealer.discardCards
             (flat_map Hand.getCards (playerHands g) ++ Hand.getCards dHand)
             (dealer g))
          (withEvent Event.settlement
             (withResults (Evaluator.settleRound (playerHands g) dHand) g)))).

(** The engine as [beginDealerTurn] has it when it calls [settle]. *)
Definition atSettlement (g : t) : t :=
  withEvent (Event.stateChange SETTLEMENT) (withState SETTLEMENT g).

(** The engine as [beginDealerTurn] has it when it looks at the dealer. *)
Definition atDealerTurn (g : t) : t :=
  withEvent (Event.stateChange DEALER_TURN) (withState DEALER_TURN g).

(** The engine once the loop of [skipSettledHands] has run. *)
Definition skipped (g : t) : t :=
  withActiveHandIdx
    (skipLoop (length (playerHands g)) (playerHands g) (activeHandIdx g)) g.

(** What a caller can count between two actions: with no round in
    progress every card is in the shoe, live or discarded; during the
    player's turn the hands hold the rest. *)
Definition conserved (total : nat) (g : t) : Prop :=
  match state g with
  | BETTING | GAME_OVER => shoeCount (Dealer.shoe (dealer g)) = total
  | PLAYER_TURN =>
      shoeCount (Dealer.shoe (dealer g)) + heldBy (playerHands g)
      + heldByDealer (dealerHand g) = total
  | DEALING | DEALER_TURN | SETTLEMENT => False
  end.

(** During the player's turn there is a dealer hand and an active hand. *)
Definition seated (g : t) : Prop :=
  state g = PLAYER_TURN ->
  is_Some (dealerHand g) /\ activeHandIdx g < length (playerHands g).

(** The engine as [placeBets] has it once the hands are dealt. *)
Definition dealtGame (pHands : list Hand.t) (dHand : Hand.t) (d : Dealer.t)
           (g : t) : t :=
  withEvent Event.dealt
    (withResults []
       (withActiveHandIdx 0
          (withDealerHand (Some dHand)
             (withPlayerHands pHands
                (withDealer d
                   (withEvent (Event.stateChange DEALING)
                      (withState DEALING g))))))).

(** The engine as [placeBets] has it when it offers the player's turn. *)
Definition atPlayerTurn (g : t) : t :=
  withEvent (Event.stateChange PLAYER_TURN) (withState PLAYER_TURN g).

(** The engine as [playerSplit] has it when it looks for the active hand:
    [handA] and [handB] stand where the active hand stood. *)
Definition splitGame (handA handB : Hand.t) (d : Dealer.t) (g : t) : t :=
  withEvent (Event.playerSplit (activeHandIdx g))
    (withPlayerHands
       (take (activeHandIdx g) (playerHands g)
        ++ [handA; handB]
        ++ drop (S (activeHandIdx g)) (playerHands g))
       (withDealer d g)).

(** How a search for the next hand, or a move to it, can end: still
    running, the round over with every card in the shoe, or the player's
    turn going on with the cards where they were. *)
Definition turnGoesOn (dHand : Hand.t) (g : t) (r : Completion unit * t)
  : Prop :=
  fst r = Running \/
  (fst r = Returned tt /\
   ((state (snd r) = GAME_OVER /\
     shoeCount (Dealer.shoe (dealer (snd r)))
     = shoeCount (Dealer.shoe (dealer g)) + heldBy (playerHands g)
       + Hand.size dHand)
    \/
    (state (snd r) = PLAYER_TURN /\
     dealer (snd r) = dealer g /\
     playerHands (snd r) = playerHands g /\
     dealerHand (snd r) = Some dHand /\
     activeHandIdx (snd r) < length (playerHands g)))).

(** The invariant of the engine between two actions. *)
Definition roundInv (total : nat) (g : t) : Prop :=
  conserved total g /\ seated g.

(** An action keeps the invariant, unless it is still running. *)
Definition keeps (total : nat) (r : Completion unit * t) : Prop :=
  fst r = Running \/ roundInv total (snd r).

(** The verdict on a player hand when the round is settled straight
    after the deal: a natural pushes against a dealer natural and is paid
    as a blackjack otherwise; any other hand loses. *)
Definition verdictAfterDeal (dealerNatural : bool) (hand : Hand.t)
  : Evaluator.Verdict :=
  if Hand.isBlackjack hand then
    if dealerNatural then Evaluator.mkVerdict Evaluator.PUSH 0
    else Evaluator.mkVerdict Evaluator.BLACKJACK (3 # 2)
  else Evaluator.mkVerdict Evaluator.LOSE (-1).

(** The entry of [results] that carries a verdict on a hand. *)
Definition resultOf (hand : Hand.t) (v : Evaluator.Verdict)
  : Evaluator.RoundResult :=
  {| Evaluator.hand := hand;
     Evaluator.r_outcome := Evaluator.outcome v;
     Evaluator.r_payout := Evaluator.payout v;
     Evaluator.net := (Hand.getBet hand * Evaluator.payout v)%Q |}.

(** A hand as the deal leaves it: unsettled, standard cards, [n] at most. *)
Definition dealtUpTo (n : nat) (hand : Hand.t) : Prop :=
  Hand.settled hand = false /\
  Forall standard (Hand.cards hand) /\
  Hand.size hand <= n.

(** A hand that holds standard cards only. *)
Definition standardHand (hand : Hand.t) : Prop :=
  Forall standard (Hand.cards hand).

(** An engine whose shoe and hands hold standard cards only. *)
Definition standardGame (g : t) : Prop :=
  standardShoe (Dealer.shoe (dealer g)) /\
  Forall standardHand (playerHands g) /\
  (forall dHand : Hand.t, dealerHand g = Some dHand -> standardHand dHand).

(** The sum of the cards with every Ace at 1. *)
Definition hardSum (cards : list Card.t) : Z :=
  foldr (fun card acc =>
           ((if Card.isAce card then 1 else Card.value card) + acc)%Z)
        0%Z cards.

(** A caller driving the engine through any sequence of actions, in
    whatever state; [None] when the fuel does not let an action return. *)
Fixpoint play (fuel : nat) (actions : list Action) (g : t) : option t :=
  match actions with
  | [] => Some g
  | a :: rest =>
      match perform fuel a g with
      | (Running, _) => None
      | (_, g') => play fuel rest g'
      end
  end.

(** The engine as [playerStand] has it when it moves on. *)
Definition stoodGame (hand : Hand.t) (g : t) : t :=
  withEvent (Event.playerStand (activeHandIdx g))
    (withPlayerHands
       (<[activeHandIdx g := Hand.settle hand]> (playerHands g)) g).

(** The engine as [playerHit] has it once the hit is announced. *)
Definition hitGame (card : option Card.t) (hand : Hand.t) (d : Dealer.t)
           (g : t) : t :=
  withEvent (Event.playerHit (activeHandIdx g) card)
    (withPlayerHands (<[activeHandIdx g := hand]> (playerHands g))
       (withDealer d g)).

(** The engine as [playerHit] has it when a busted hand moves on. *)
Definition bustGame (hand : Hand.t) (g : t) : t :=
  withEvent (Event.playerBust (activeHandIdx g))
    (withPlayerHands
       (<[activeHandIdx g := Hand.settle hand]> (playerHands g)) g).

(** The engine as [playerDoubleDown] has it when it moves on; [hand] is
    the hand after the hit. *)
Definition doubledGame (card : option Card.t) (hand : Hand.t) (d : Dealer.t)
           (g : t) : t :=
  let g1 :=
    withEvent (Event.playerDouble (activeHandIdx g) card)
      (withPlayerHands
         (<[activeHandIdx g := Hand.settle hand]> (playerHands g))
         (withDealer d g)) in
  if Hand.isBusted (Hand.settle hand)
  then withEvent (Event.playerBust (activeHandIdx g)) g1
  else g1.

(** The round is over: [results] is the settlement of the player hands
    against the dealer hand; unless the dealer hand is a natural, every
    player hand is closed (stood, doubled, busted or a natural); and the
    dealer has 17 or more unless every player hand is busted, or every
    player hand is a natural. *)
Definition roundOver (g : t) : Prop :=
  exists dHand : Hand.t,
    dealerHand g = Some dHand /\
    results g = Evaluator.settleRound (playerHands g) dHand /\
    playerHands g <> [] /\
    (Hand.isBlackjack dHand = true \/
     forallb Hand.isSettled (playerHands g) = true) /\
    ((17 <= Hand.htotal dHand)%Z \/
     forallb Hand.isBusted (playerHands g) = true \/
     forallb Hand.isBlackjack (playerHands g) = true).

(** The hands before index [idx] are closed. *)
Definition closedBefore (idx : nat) (hands : list Hand.t) : Prop :=
  forall (i : nat) (hand : Hand.t),
    i < idx -> hands !! i = Some hand -> Hand.isSettled hand = true.

(** A player is to act: nothing is settled yet, the dealer hand is there,
    untouched and not a natural, the active hand exists, is neither
    marked settled nor busted, and the hands before it are closed. *)
Definition playerToAct (g : t) : Prop :=
  results g = [] /\
  (exists dHand : Hand.t,
     dealerHand g = Some dHand /\
     Hand.isBlackjack dHand = false /\ Hand.settled dHand = false) /\
  (exists hand : Hand.t,
     getActiveHand g = Some hand /\
     Hand.settled hand = false /\ Hand.isBusted hand = false) /\
  closedBefore (activeHandIdx g) (playerHands g).

(** What holds of the engine between two calls of its API. *)
Definition tableInv (g : t) : Prop :=
  match state g with
  | BETTING =>
      playerHands g = [] /\ dealerHand g = None /\ results g = [] /\
      activeHandIdx g = 0
  | PLAYER_TURN => playerToAct g
  | GAME_OVER => roundOver g
  | DEALING | DEALER_TURN | SETTLEMENT => False
  end.

(** How a call that passed its guard ends: it returns with the table in
    order, unless it is still running. *)
Definition goesWell (r : Completion unit * t) : Prop :=
  fst r = Running \/ (fst r = Returned tt /\ tableInv (snd r)).

(** The transitions that the code makes: the round from BETTING through
    DEALING, the player's and the dealer's turn and SETTLEMENT to
    GAME_OVER, the deal that goes straight to SETTLEMENT, and [newRound],
    which goes back to BETTING from any state a call can find. *)
Definition transition (a b : State) : bool :=
  match a, b with
  | BETTING, DEALING
  | DEALING, PLAYER_TURN
  | DEALING, SETTLEMENT
  | PLAYER_TURN, DEALER_TURN
  | DEALER_TURN, SETTLEMENT
  | SETTLEMENT, GAME_OVER
  | GAME_OVER, BETTING
  | PLAYER_TURN, BETTING
  | BETTING, BETTING => true
  | _, _ => false
  end.

(** A sequence of states that follows the transitions from [s]. *)
Fixpoint walk (s : State) (l : list State) : bool :=
  match l with
  | [] => true
  | s' :: l' => transition s s' && walk s' l'
  end.

(** The events of [g'] announce the states [l] after those of [g]. *)
Definition announced (g g' : t) (l : list State) : Prop :=
  stateChanges (emitted g') = stateChanges (emitted g) ++ l.

(** The [stateChange] events so far announce a walk from BETTING to the
    state the engine is in. *)
Definition logInv (g : t) : Prop :=
  walk BETTING (stateChanges (emitted g)) = true /\
  last (BETTING :: stateChanges (emitted g)) = Some (state g).

(** The number of live cards at or below which a draw reshuffles first:
    [Math.floor(totalCards * (1 - penetration))], of the exact product
    as in [Deck.needsReshuffle].  The engine floors the product of two
    doubles, which is the exact product up to a relative error of
    [2^-52]: for a shoe of fewer than [2^52] cards its threshold is this
    one, or one above or below it. *)
Definition reshuffleAt (s : Deck.t) : Z :=
  Qfloor (inject_Z (Z.of_nat (Deck.totalCards s)) * (1 - Deck.penetration s))%Q.

(** A shoe with other live cards. *)
Definition withCards (cards : list Card.t) (s : Deck.t) : Deck.t :=
  {| Deck.numDecks := Deck.numDecks s;
     Deck.penetration := Deck.penetration s;
     Deck.cards := cards;
     Deck.totalCards := Deck.totalCards s;
     Deck.discardPile := Deck.discardPile s;
     Deck.random := Deck.random s |}.

(** The weight of a list of cards, for a weight [w] given to each card;
    with [w] the indicator of a card, the number of its copies. *)
Definition weigh (w : Card.t -> nat) (cards : list Card.t) : nat :=
  sum_list_with w cards.

(** The weight of the shoe: live cards and discard pile. *)
Definition shoeWeight (w : Card.t -> nat) (s : Deck.t) : nat :=
  weigh w (Deck.cards s) + weigh w (Deck.discardPile s).

(** The weight held by a list of hands, and by the dealer hand. *)
Definition heldWeight (w : Card.t -> nat) (hands : list Hand.t) : nat :=
  sum_list_with (fun hand => weigh w (Hand.cards hand)) hands.

Definition dealerWeight (w : Card.t -> nat) (h : option Hand.t) : nat :=
  match h with Some hand => weigh w (Hand.cards hand) | None => 0 end.

(** The weight that a caller finds between two actions: in the shoe when
    no round is in progress, in the shoe and the hands during the
    player's turn. *)
Definition balanced (w : Card.t -> nat) (total : nat) (g : t) : Prop :=
  match state g with
  | BETTING | GAME_OVER => shoeWeight w (Dealer.shoe (dealer g)) = total
  | PLAYER_TURN =>
      shoeWeight w (Dealer.shoe (dealer g)) + heldWeight w (playerHands g)
      + dealerWeight w (dealerHand g) = total
  | DEALING | DEALER_TURN | SETTLEMENT => False
  end.

(** The cards of the shoe, live then discarded. *)
Definition shoeCards (s : Deck.t) : list Card.t :=
  Deck.cards s ++ Deck.discardPile s.

(** The cards on the table: those of the player hands, then those of the
    dealer hand. *)
Definition tableCards (g : t) : list Card.t :=
  flat_map Hand.cards (playerHands g)
  ++ match dealerHand g with Some hand => Hand.cards hand | None => [] end.

#[local] Instance suit_eq_dec : EqDecision Card.Suit.
Proof. solve_decision. Defined.

#[local] Instance card_eq_dec : EqDecision Card.t.
Proof. solve_decision. Defined.

(** The indicator of a card. *)
Definition copyOf (card : Card.t) (c : Card.t) : nat :=
  if decide (c = card) then 1 else 0.

(** The cards that an action draws, at most, before it may begin the
    dealer's turn; [placeBets] never begins it. *)
Definition drawsOf (a : Action) : nat :=
  match a with
  | PlayerHit | PlayerDoubleDown => 1
  | PlayerSplit => 2
  | PlaceBets _ | PlayerStand | NewRound => 0
  end.

(* ================================================================== *)
(** ** main.js *)

(** The demo round of [main.js]; what the attached console view prints
    is left out. *)
Module Main.

Definition GAME_OPTS : Dealer.Opts :=
  {| Dealer.numDecks := 1;
     Dealer.penetration := 3 # 4;
     Dealer.dealerHitsSoft17 := false |}.

Definition NUM_PLAYERS : nat := 2.
Definition DEFAULT_BET : Q := 100.

(** [Array(NUM_PLAYERS).fill(DEFAULT_BET)] *)
Definition bets : list Dealer.Wager :=
  replicate NUM_PLAYERS (Dealer.number DEFAULT_BET).

(** [while (game.getState() === game.State.PLAYER_TURN) { ... }]: each
    hand hits until it has 17 or more, then stands.  The loop is run on
    [loops] iterations at most. *)
Fixpoint autoPlay (loops fuel : nat) : M unit :=
  match loops with
  | 0 => running
  | S loops' =>
      g <- get ;;
      if state_eqb (state g) PLAYER_TURN then
        match getActiveHand g with
        | None => ret tt
        | Some hand =>
            (if (Hand.htotal hand <? 17)%Z
             then playerHit fuel
             else playerStand fuel) ;;
            autoPlay loops' fuel
        end
      else ret tt
  end.

Definition main (loops fuel : nat) (r : Deck.Random) : Completion unit * t :=
  (placeBets fuel bets ;; autoPlay loops fuel) (createGame GAME_OPTS r).

End Main.

(** The events that the console view prints: a hit or a double-down is
    printed with its card, [formatCard(card)]. *)
Definition printable (e : Event.t) : bool :=
  match e with
  | Event.playerHit _ None | Event.playerDouble _ None => false
  | _ => true
  end.

(** A bound on the calls that the hands from the active one on can still
    ask for: 18 less its cards, for each. *)
Definition toPlay (g : t) : nat :=
  sum_list_with (fun hand => 18 - Hand.size hand)
                (drop (activeHandIdx g) (playerHands g)).

(** The engine in the loop of the demo. *)
Definition demoInv (g : t) : Prop :=
  tableInv g /\
  length (playerHands g) = 2 /\
  forallb printable (emitted g) = true /\
  (state g = PLAYER_TURN \/ state g = GAME_OVER) /\
  (state g = PLAYER_TURN ->
   standardGame g /\
   roundInv 52 g /\
   Deck.penetration (Dealer.shoe (dealer g)) = (3 # 4)%Q /\
   Forall (fun hand => Hand.size hand <= 17) (playerHands g) /\
   (forall dHand : Hand.t,
      dealerHand g = Some dHand -> Hand.size dHand <= 2)).

(* ================================================================== *)
(** ** archive/legacy: cardDeck.js and cardDealer.js *)

Module Legacy.

(** A value passed where a count is expected: an integer number, or
    anything else (a fraction, NaN, an infinity, not a number), which
    [Number.isInteger] rejects. *)
Inductive Num := Int (z : Z) | NotInteger.

(** How a call ends: it returns, it throws a [TypeError], or it throws
    the [RangeError] of an array length above [2^32 - 1]. *)
Inductive Result (A : Type) :=
  | Ok (a : A)
  | TypeError (message : string)
  | RangeError.
Arguments Ok {A} a.
Arguments TypeError {A} message.
Arguments RangeError {A}.

(** The tables [suits] and [ranks] of cardDeck.js are those of Card.js. *)
Definition suits : list Card.Suit := Card.SUITS.
Definition ranks : list Card.RankInfo := Card.RANKS.

(** [Object.values(namedCards)]: the templates in insertion order. *)
Definition namedCards : list Card.t :=
  flat_map
    (fun r =>
       map (fun s =>
              {| Card.id := Card.name r +:+ Card.suit_name s;
                 Card.rank := Card.symbol r;
                 Card.suit := s;
                 Card.value := Card.rvalue r |})
           suits)
    ranks.

(** A fresh array of copies of the templates. *)
Definition createDeck : list Card.t :=
  map (fun c =>
         {| Card.id := Card.id c; Card.rank := Card.rank c;
            Card.suit := Card.suit c; Card.value := Card.value c |})
      namedCards.

(** The same Fisher-Yates loop as in Deck.js. *)
Definition shuffle (deck : list Card.t) (r : Deck.Random)
  : list Card.t * Deck.Random :=
  Deck.shuffleLoop (length deck - 1) deck r.

(** [if (count <= 0) return []; return deck.splice(0, count);] for an
    integer [count]: the cards drawn and the deck left. *)
Definition draw (deck : list Card.t) (count : Z)
  : list Card.t * list Card.t :=
  if (count <=? 0)%Z then ([], deck)
  else (take (Z.to_nat count) deck, drop (Z.to_nat count) deck).

(** The state of cardDealer.js: [shuffledDeck], and [Math.random]. *)
Record t := mk { shuffledDeck : list Card.t; random : Deck.Random }.

Definition initShuffledDeck (r : Deck.Random) : t :=
  let '(deck, r) := shuffle createDeck r in
  {| shuffledDeck := deck; random := r |}.

Definition getDeck (s : t) : list Card.t := shuffledDeck s.
Definition remaining (s : t) : nat := length (shuffledDeck s).

(** [dealToPlayer(playerHand, count)] on an array [playerHand]: the cards
    drawn, the hand with them pushed, and the state. *)
Definition dealToPlayer (playerHand : list Card.t) (count : Z) (s : t)
  : (list Card.t * list Card.t) * t :=
  if (count <=? 0)%Z then (([], playerHand), s)
  else
    let '(drawn, deck) := draw (shuffledDeck s) count in
    ((drawn, playerHand ++ drawn),
     {| shuffledDeck := deck; random := random s |}).

(** One round of [for (let p = 0; p < numPlayers; p++)] from seat [p] on:
    the hands, the deck, and whether [drawn.length === 0] ended the
    deal. *)
Fixpoint dealRow (hands : list (list Card.t)) (deck : list Card.t)
  : (list (list Card.t) * list Card.t) * bool :=
  match hands with
  | [] => (([], deck), false)
  | hand :: rest =>
      match draw deck 1 with
      | ([], deck) => ((hand :: rest, deck), true)
      | (card :: _, deck) =>
          let '((rest, deck), stop) := dealRow rest deck in
          (((hand ++ [card]) :: rest, deck), stop)
      end
  end.

(** [for (let round = 0; round < cardsEach; round++)] *)
Fixpoint dealRounds (rounds : nat) (hands : list (list Card.t))
         (deck : list Card.t) : list (list Card.t) * list Card.t :=
  match rounds with
  | 0 => (hands, deck)
  | S rounds' =>
      let '((hands, deck), stop) := dealRow hands deck in
      if stop then (hands, deck) else dealRounds rounds' hands deck
  end.

Definition dealHands (numPlayers cardsEach : Num) (s : t)
  : Result (list (list Card.t)) * t :=
  match numPlayers with
  | NotInteger => (TypeError "numPlayers must be a positive integer", s)
  | Int n =>
      if (n <? 1)%Z
      then (TypeError "numPlayers must be a positive integer", s)
      else
        match cardsEach with
        | NotInteger =>
            (TypeError "cardsEach must be a non-negative integer", s)
        | Int k =>
            if (k <? 0)%Z
            then (TypeError "cardsEach must be a non-negative integer", s)
            else if (4294967295 <? n)%Z
            then (* Array.from({ length: numPlayers }, ...) *)
              (RangeError, s)
            else
              let '(hands, deck) :=
                dealRounds (Z.to_nat k) (replicate (Z.to_nat n) [])
                           (shuffledDeck s) in
              (Ok hands, {| shuffledDeck := deck; random := random s |})
        end
  end.

End Legacy.

(** What a card lacks to count 6, every Ace at 1. *)
Definition shortOf6 (card : Card.t) : nat :=
  Z.to_nat (6 - (if Card.isAce card then 1 else Card.value card)).

(** During the player's turn no player hand counts more than 31, every
    Ace at 1: a hand is hit at 21 or less, with a card of 10 at most. *)
Definition modest (g : t) : Prop :=
  state g = PLAYER_TURN ->
  Forall (fun hand => (hardSum (Hand.cards hand) <= 31)%Z) (playerHands g).

(* ================================================================== *)
(** * Properties *)

Arguments Deck.draw : simpl never.
Arguments Deck.burn : simpl never.
Arguments Deck.reshuffle : simpl never.
Arguments Deck.reset : simpl never.
Arguments Deck.needsReshuffle : simpl never.
Arguments Deck.fisherYatesShuffle : simpl never.
Arguments Dealer.hit : simpl never.
Arguments Dealer.dealInitial : simpl never.
Arguments Dealer.dealRound : simpl never.
Arguments Hand.evaluate : simpl never.
Arguments heldBy : simpl never.
Arguments shoeCount : simpl never.
(** ** Hand value *)

Lemma tally_from (cards : list Card.t) (total : Z) (aces : nat) :
  fold_left
    (fun acc card =>
       ((fst acc + Card.value card)%Z,
        if Card.isAce card then S (snd acc) else snd acc))
    cards (total, aces)
  = ((total + baseSum cards)%Z, aces + aceCount cards).
Proof.
  revert total aces.
  induction cards as [|card cards IH]; intros total aces; simpl.
  - unfold aceCount. rewrite filter_nil. simpl. f_equal; lia.
  - rewrite IH. unfold aceCount.
    destruct (Card.isAce card) eqn:E.
    + rewrite filter_cons_True by done. simpl. f_equal; lia.
    + rewrite filter_cons_False by (rewrite E; done). f_equal; lia.
Qed.

Lemma tally_spec (cards : list Card.t) :
  Hand.tally cards = (baseSum cards, aceCount cards).
Proof. unfold Hand.tally. rewrite tally_from. f_equal. Qed.

(** The reduction loop stops at the first count [k] of reduced Aces at
    which the total is 21 or less, or when every Ace is reduced. *)
Lemma reduce_spec (aces : nat) (total : Z) :
  exists k : nat,
    k <= aces /\
    Hand.reduce total aces = ((total - 10 * Z.of_nat k)%Z, aces - k) /\
    (forall j : nat, j < k -> (21 < total - 10 * Z.of_nat j)%Z) /\
    (k < aces -> (total - 10 * Z.of_nat k <= 21)%Z).
Proof.
  revert total.
  induction aces as [|aces IH]; intros total; simpl.
  - exists 0. repeat split; try lia. f_equal; lia.
  - destruct (21 <? total)%Z eqn:E.
    + apply Z.ltb_lt in E.
      destruct (IH (total - 10)%Z) as (k & Hk & Hr & Hlt & Hstop).
      exists (S k). repeat split; try lia.
      * rewrite Hr. f_equal; lia.
      * intros [|j] Hj; [lia|]. specialize (Hlt j). lia.
    + apply Z.ltb_ge in E.
      exists 0. repeat split; try lia. f_equal; lia.
Qed.

(** C1. [evaluate] sums the base values (every Ace at 11) and takes 10
    off once per Ace while the running total exceeds 21 and an Ace is
    still counted at 11: with [k] the number of Aces reduced, the total
    is the base sum less [10 * k], every earlier running total exceeded
    21, the loop stopped at 21 or less unless all Aces are reduced, and
    [soft] says that an Ace is still counted at 11.  The three worked
    hands evaluate to soft 21, soft 13 and hard 17. *)
Theorem evaluate_ace_reduction :
  (forall cards : list Card.t,
     exists k : nat,
       k <= aceCount cards /\
       Hand.total (Hand.evaluate cards) = (baseSum cards - 10 * Z.of_nat k)%Z /\
       (forall j : nat, j < k -> (21 < baseSum cards - 10 * Z.of_nat j)%Z) /\
       (k < aceCount cards -> (baseSum cards - 10 * Z.of_nat k <= 21)%Z) /\
       (Hand.soft (Hand.evaluate cards) = true <-> k < aceCount cards)) /\
  Hand.evaluate [Card.createCard Card.ace Card.Spades;
                 Card.createCard Card.ace Card.Hearts;
                 Card.createCard Card.nine Card.Clubs]
    = Hand.mkValue 21 true /\
  Hand.evaluate [Card.createCard Card.ace Card.Spades;
                 Card.createCard Card.ace Card.Hearts;
                 Card.createCard Card.ace Card.Clubs]
    = Hand.mkValue 13 true /\
  Hand.evaluate [Card.createCard Card.ten Card.Spades;
                 Card.createCard Card.six Card.Hearts;
                 Card.createCard Card.ace Card.Clubs]
    = Hand.mkValue 17 false.
Proof.
  split; [|repeat split; reflexivity].
  intros cards. unfold Hand.evaluate. rewrite tally_spec.
  destruct (reduce_spec (aceCount cards) (baseSum cards))
    as (k & Hk & Hr & Hlt & Hstop).
  exists k. rewrite Hr. simpl. repeat split; try assumption.
  - intros H. apply Nat.ltb_lt in H. lia.
  - intros H. apply Nat.ltb_lt. lia.
Qed.
(** ** Outcomes *)

(** C2. [compareHands] decides by the first rule that matches: a busted
    player loses; otherwise a player blackjack pushes against a dealer
    blackjack and is paid 1.5 against anything else; otherwise a busted
    dealer pays 1; otherwise the totals decide: greater wins 1, smaller
    loses 1, equal pushes.  A player [A, K] against a dealer [10, 9, 2]
    is paid the blackjack. *)
Theorem compareHands_first_match :
  (forall player dealer : Hand.t,
     let verdict := Evaluator.compareHands player dealer in
     (Hand.isBusted player = true ->
      verdict = Evaluator.mkVerdict Evaluator.LOSE (-1)) /\
     (Hand.isBusted player = false ->
      Hand.isBlackjack player = true ->
      (Hand.isBlackjack dealer = true ->
       verdict = Evaluator.mkVerdict Evaluator.PUSH 0) /\
      (Hand.isBlackjack dealer = false ->
       verdict = Evaluator.mkVerdict Evaluator.BLACKJACK (3 # 2))) /\
     (Hand.isBusted player = false ->
      Hand.isBlackjack player = false ->
      Hand.isBusted dealer = true ->
      verdict = Evaluator.mkVerdict Evaluator.DEALER_BUST 1) /\
     (Hand.isBusted player = false ->
      Hand.isBlackjack player = false ->
      Hand.isBusted dealer = false ->
      ((Hand.htotal dealer < Hand.htotal player)%Z ->
       verdict = Evaluator.mkVerdict Evaluator.WIN 1) /\
      ((Hand.htotal player < Hand.htotal dealer)%Z ->
       verdict = Evaluator.mkVerdict Evaluator.LOSE (-1)) /\
      (Hand.htotal player = Hand.htotal dealer ->
       verdict = Evaluator.mkVerdict Evaluator.PUSH 0))) /\
  Evaluator.compareHands
    (handOf [Card.createCard Card.ace Card.Spades;
             Card.createCard Card.king Card.Hearts])
    (handOf [Card.createCard Card.ten Card.Clubs;
             Card.createCard Card.nine Card.Diamonds;
             Card.createCard Card.two Card.Spades])
  = Evaluator.mkVerdict Evaluator.BLACKJACK (3 # 2).
Proof.
  split; [|reflexivity].
  intros player dealer verdict. subst verdict. unfold Evaluator.compareHands.
  split; [|split; [|split]].
  - intros ->. reflexivity.
  - intros -> ->. split; intros ->; reflexivity.
  - intros -> -> ->. reflexivity.
  - intros -> -> ->. split; [|split]; intros H.
    + apply Z.ltb_lt in H. rewrite H. reflexivity.
    + assert ((Hand.htotal dealer <? Hand.htotal player)%Z = false) as ->
        by (apply Z.ltb_ge; lia).
      apply Z.ltb_lt in H. rewrite H. reflexivity.
    + rewrite H, Z.ltb_irrefl. reflexivity.
Qed.
(** ** Dealer policy *)

Lemma hits_S (n : nat) (hand : Hand.t) (d : Dealer.t) :
  hits (S n) hand d
  = hits n (snd (fst (Dealer.hit hand d))) (snd (Dealer.hit hand d)).
Proof. simpl. destruct (Dealer.hit hand d) as [[card hand'] d']. reflexivity. Qed.

Lemma dealerLoop_complete (n : nat) :
  forall (hand : Hand.t) (d : Dealer.t) (fuel : nat),
    (forall k, k < n -> hitsAgain k hand d = true) ->
    hitsAgain n hand d = false ->
    n < fuel ->
    Dealer.dealerLoop fuel hand d = Some (hits n hand d).
Proof.
  induction n as [|n IH]; intros hand d fuel Hbefore Hstop Hfuel;
    (destruct fuel as [|fuel]; [lia|]); simpl.
  - unfold hitsAgain in Hstop. simpl in Hstop. rewrite Hstop. reflexivity.
  - assert (Dealer.shouldDealerHit d hand = true) as ->
      by (apply (Hbefore 0); lia).
    destruct (Dealer.hit hand d) as [[card hand'] d'] eqn:Ehit.
    apply IH; [|  |lia].
    + intros k Hk. specialize (Hbefore (S k) ltac:(lia)).
      unfold hitsAgain in *. rewrite hits_S, Ehit in Hbefore. exact Hbefore.
    + unfold hitsAgain in *. rewrite hits_S, Ehit in Hstop. exact Hstop.
Qed.

Lemma dealerLoop_sound (fuel : nat) :
  forall (hand : Hand.t) (d : Dealer.t) (r : Hand.t * Dealer.t),
    Dealer.dealerLoop fuel hand d = Some r ->
    exists n, n < fuel /\
      (forall k, k < n -> hitsAgain k hand d = true) /\
      hitsAgain n hand d = false /\
      r = hits n hand d.
Proof.
  induction fuel as [|fuel IH]; intros hand d r Hloop; simpl in Hloop;
    [discriminate|].
  destruct (Dealer.shouldDealerHit d hand) eqn:Epol.
  - destruct (Dealer.hit hand d) as [[card hand'] d'] eqn:Ehit.
    destruct (IH _ _ _ Hloop) as (n & Hn & Hbefore & Hstop & Hr).
    exists (S n). unfold hitsAgain in *.
    split; [lia|]. split; [|split].
    + intros [|k] Hk; [exact Epol|].
      rewrite hits_S, Ehit. apply Hbefore. lia.
    + rewrite hits_S, Ehit. exact Hstop.
    + rewrite hits_S, Ehit. exact Hr.
  - exists 0. unfold hitsAgain. simpl.
    split; [lia|]. split; [intros; lia|]. split; [exact Epol|congruence].
Qed.

(** C5. The dealer hits exactly when the total is below 17, or is 17 and
    soft while [dealerHitsSoft17] is set; the dealer hand [A, 6] stands
    when the option is false and hits when it is true.  [playDealerHand]
    returns exactly when the policy says stand after some number [n] of
    hits, having said hit before each of them; the hand it leaves is the
    hand after these [n] hits marked settled, and the value returned is
    its total. *)
Theorem dealer_policy :
  (forall (d : Dealer.t) (hand : Hand.t),
     Dealer.shouldDealerHit d hand = true <->
     (Hand.total (Hand.value hand) < 17)%Z \/
     (Hand.total (Hand.value hand) = 17%Z /\
      Hand.soft (Hand.value hand) = true /\
      Dealer.hitsSoft17 d = true)) /\
  (forall d : Dealer.t,
     Dealer.shouldDealerHit d
       (Hand.addCards [Card.createCard Card.ace Card.Spades;
                       Card.createCard Card.six Card.Hearts]
                      (Hand.createHand true 0%Q))
     = Dealer.hitsSoft17 d) /\
  (forall (fuel : nat) (hand : Hand.t) (d : Dealer.t)
          (total : Z) (hand' : Hand.t) (d' : Dealer.t),
     Dealer.playDealerHand fuel hand d = Some ((total, hand'), d') <->
     exists n : nat,
       n < fuel /\
       (forall k, k < n ->
          Dealer.shouldDealerHit (snd (hits k hand d)) (fst (hits k hand d))
          = true) /\
       Dealer.shouldDealerHit (snd (hits n hand d)) (fst (hits n hand d))
       = false /\
       hand' = Hand.settle (fst (hits n hand d)) /\
       Hand.settled hand' = true /\
       d' = snd (hits n hand d) /\
       total = Hand.htotal (fst (hits n hand d))).
Proof.
  split; [|split].
  - intros d hand. unfold Dealer.shouldDealerHit.
    destruct (Hand.total (Hand.value hand) <? 17)%Z eqn:Elt.
    + apply Z.ltb_lt in Elt. split; [intros _; left; exact Elt|reflexivity].
    + apply Z.ltb_ge in Elt.
      destruct (Hand.total (Hand.value hand) =? 17)%Z eqn:Eeq;
        [apply Z.eqb_eq in Eeq|apply Z.eqb_neq in Eeq];
        destruct (Hand.soft (Hand.value hand)), (Dealer.hitsSoft17 d); simpl;
        split; try discriminate; try reflexivity;
        try (intros _; right; repeat split; assumption);
        intros [H|(H1 & H2 & H3)]; try lia; try discriminate.
  - intros d. unfold Dealer.shouldDealerHit. simpl.
    destruct (Dealer.hitsSoft17 d); reflexivity.
  - intros fuel hand d total hand' d'. unfold Dealer.playDealerHand. split.
    + destruct (Dealer.dealerLoop fuel hand d) as [[h1 d1]|] eqn:Eloop;
        [|discriminate].
      intros H. injection H as <- <- <-.
      destruct (dealerLoop_sound _ _ _ _ Eloop) as (n & Hn & Hb & Hs & Hr).
      unfold hitsAgain in Hb, Hs.
      exists n. rewrite <- Hr in *. simpl in *.
      split; [exact Hn|]. split; [exact Hb|]. split; [exact Hs|].
      repeat split.
    + intros (n & Hn & Hb & Hs & -> & _ & -> & ->).
      rewrite (dealerLoop_complete n hand d fuel Hb Hs Hn).
      destruct (hits n hand d) as [h1 d1]. reflexivity.
Qed.
(** ** Shoe exhaustion *)

(** C8. [draw(n)] reshuffles first when the threshold is reached and then
    takes the first [min n remaining] cards of the shoe, whatever [n] is:
    it has no failing outcome.  [hit(hand)] leaves the hand as it is when
    the shoe yields no card, and appends the card drawn otherwise. *)
Theorem draw_soft_degrade :
  (forall (n : nat) (s : Deck.t),
     let s1 := if Deck.needsReshuffle s then Deck.reshuffle s else s in
     let available := Deck.remaining s1 in
     fst (Deck.draw n s) = take (n `min` available) (Deck.cards s1) /\
     length (fst (Deck.draw n s)) = n `min` available /\
     Deck.cards (snd (Deck.draw n s))
     = drop (n `min` available) (Deck.cards s1) /\
     Deck.discardPile (snd (Deck.draw n s)) = Deck.discardPile s1) /\
  (forall (hand : Hand.t) (d : Dealer.t),
     let shoe' := snd (Deck.draw 1 (Dealer.shoe d)) in
     match fst (Deck.draw 1 (Dealer.shoe d)) with
     | [] => Dealer.hit hand d = ((None, hand), Dealer.withShoe shoe' d)
     | card :: _ =>
         Dealer.hit hand d
         = ((Some card, Hand.addCards [card] hand), Dealer.withShoe shoe' d)
     end).
Proof.
  split.
  - intros n s s1 available. subst available. unfold Deck.draw, Deck.remaining.
    fold s1. simpl.
    assert ((if length (Deck.cards s1) <? n then length (Deck.cards s1) else n)
            = n `min` length (Deck.cards s1)) as ->.
    { destruct (length (Deck.cards s1) <? n) eqn:E;
        [apply Nat.ltb_lt in E|apply Nat.ltb_ge in E]; lia. }
    repeat split. rewrite length_take. lia.
  - intros hand d shoe'. subst shoe'. unfold Dealer.hit.
    destruct (Deck.draw 1 (Dealer.shoe d)) as [[|card rest] s']; reflexivity.
Qed.
(** ** Initial deal *)

Lemma dealPass_bets (hands : list Hand.t) (s : Deck.t) :
  map Hand.bet (fst (Dealer.dealPass hands s)) = map Hand.bet hands.
Proof.
  revert s. induction hands as [|hand hands IH]; intros s; cbn; [reflexivity|].
  destruct (Deck.draw 1 s) as [drawn s1].
  specialize (IH s1). destruct (Dealer.dealPass hands s1) as [rest s2].
  cbn in *. rewrite IH. reflexivity.
Qed.

Lemma dealRound_bets (hands : list Hand.t * Hand.t) (s : Deck.t) :
  map Hand.bet (fst (fst (Dealer.dealRound hands s))) = map Hand.bet (fst hands)
  /\ Hand.bet (snd (fst (Dealer.dealRound hands s))) = Hand.bet (snd hands)
  /\ Hand.isDealerHand (snd (fst (Dealer.dealRound hands s)))
     = Hand.isDealerHand (snd hands).
Proof.
  unfold Dealer.dealRound.
  pose proof (dealPass_bets (fst hands) s) as H.
  destruct (Dealer.dealPass (fst hands) s) as [playerHands s1].
  destruct (Deck.draw 1 s1) as [drawn s2]. simpl in *. auto.
Qed.

Lemma dealInitial_bets (numPlayers : nat) (bets : list Dealer.Wager)
      (d : Dealer.t) :
  map Hand.bet (fst (fst (Dealer.dealInitial numPlayers bets d)))
  = map (Dealer.wagerAt bets) (seq 0 numPlayers)
  /\ Hand.bet (snd (fst (Dealer.dealInitial numPlayers bets d))) = 0%Q
  /\ Hand.isDealerHand (snd (fst (Dealer.dealInitial numPlayers bets d))) = true.
Proof.
  unfold Dealer.dealInitial.
  destruct (Dealer.burnCard d) as [burned d1].
  set (start := (map (fun i => Hand.createHand false (Dealer.wagerAt bets i))
                     (seq 0 numPlayers), Hand.createHand true 0%Q)).
  destruct (dealRound_bets start (Dealer.shoe d1)) as (H1 & H2 & H3).
  destruct (Dealer.dealRound start (Dealer.shoe d1)) as [hands1 s1].
  destruct (dealRound_bets hands1 s1) as (H4 & H5 & H6).
  destruct (Dealer.dealRound hands1 s1) as [hands2 s2].
  simpl in *. rewrite H4, H5, H6, H1, H2, H3. subst start. simpl.
  rewrite map_map. auto.
Qed.

(** C10. [dealInitial] has no failing outcome, whatever the length of
    [bets]: it creates [numPlayers] player hands; hand [i] carries
    [bets[i]] when that slot holds a number other than zero, and 0 when
    the slot is past the end of the list, empty, NaN or zero; the dealer
    hand is a dealer hand with wager 0. *)
Theorem dealInitial_wagers :
  forall (numPlayers : nat) (bets : list Dealer.Wager) (d : Dealer.t),
    let dealt := fst (Dealer.dealInitial numPlayers bets d) in
    length (fst dealt) = numPlayers /\
    (forall i : nat, i < numPlayers ->
       exists hand : Hand.t,
         fst dealt !! i = Some hand /\
         (forall q : Q, bets !! i = Some (Dealer.number q) ->
            ~ (q == 0)%Q -> Hand.bet hand = q) /\
         (forall q : Q, bets !! i = Some (Dealer.number q) ->
            (q == 0)%Q -> Hand.bet hand = 0%Q) /\
         (bets !! i = Some Dealer.NaN -> Hand.bet hand = 0%Q) /\
         (bets !! i = Some Dealer.undefined -> Hand.bet hand = 0%Q) /\
         (bets !! i = None -> Hand.bet hand = 0%Q)) /\
    Hand.bet (snd dealt) = 0%Q /\
    Hand.isDealerHand (snd dealt) = true.
Proof.
  intros numPlayers bets d dealt. subst dealt.
  destruct (dealInitial_bets numPlayers bets d) as (Hbets & Hdealer & Hflag).
  assert (length (fst (fst (Dealer.dealInitial numPlayers bets d))) = numPlayers)
    as Hlen.
  { rewrite <- (length_map Hand.bet), Hbets, length_map, length_seq.
    reflexivity. }
  split; [exact Hlen|]. split; [|split; assumption].
  intros i Hi.
  destruct (fst (fst (Dealer.dealInitial numPlayers bets d)) !! i)
    as [hand|] eqn:Ehand;
    [|apply lookup_ge_None in Ehand; lia].
  exists hand. split; [reflexivity|].
  assert (Hand.bet hand = Dealer.wagerAt bets i) as ->.
  { assert (map Hand.bet (fst (fst (Dealer.dealInitial numPlayers bets d))) !! i
            = Some (Hand.bet hand)) as H
      by (rewrite list_lookup_fmap, Ehand; reflexivity).
    rewrite Hbets, list_lookup_fmap, lookup_seq_lt in H by lia.
    simpl in H. congruence. }
  unfold Dealer.wagerAt, Dealer.truthy.
  split; [|split; [|split; [|split]]].
  - intros q -> Hq. destruct (Qeq_bool q 0) eqn:E; [|reflexivity].
    apply Qeq_bool_iff in E. contradiction.
  - intros q -> Hq. apply Qeq_bool_iff in Hq. rewrite Hq. reflexivity.
  - intros ->. reflexivity.
  - intros ->. reflexivity.
  - intros ->. reflexivity.
Qed.
(** ** The shoe keeps its cards *)

Section Shuffle.
Context {A : Type} (P : A -> Prop).

Lemma swap_length (i j : nat) (arr : list A) :
  length (Deck.swap i j arr) = length arr.
Proof.
  unfold Deck.swap.
  destruct (arr !! i), (arr !! j); try reflexivity.
  rewrite !length_insert. reflexivity.
Qed.

Lemma swap_Forall (i j : nat) (arr : list A) :
  Forall P arr -> Forall P (Deck.swap i j arr).
Proof.
  intros H. unfold Deck.swap.
  destruct (arr !! i) as [x|] eqn:Ei; [|exact H].
  destruct (arr !! j) as [y|] eqn:Ej; [|exact H].
  apply Forall_insert; [apply Forall_insert|].
  - exact H.
  - exact (Forall_lookup_1 _ _ _ _ H Ej).
  - exact (Forall_lookup_1 _ _ _ _ H Ei).
Qed.

Lemma shuffleLoop_length (i : nat) :
  forall (arr : list A) (r : Deck.Random),
    length (fst (Deck.shuffleLoop i arr r)) = length arr.
Proof.
  induction i as [|i IH]; intros arr r; simpl; [reflexivity|].
  rewrite IH. apply swap_length.
Qed.

Lemma shuffleLoop_Forall (i : nat) :
  forall (arr : list A) (r : Deck.Random),
    Forall P arr -> Forall P (fst (Deck.shuffleLoop i arr r)).
Proof.
  induction i as [|i IH]; intros arr r H; simpl; [exact H|].
  apply IH, swap_Forall, H.
Qed.

Lemma shuffle_length (arr : list A) (r : Deck.Random) :
  length (fst (Deck.fisherYatesShuffle arr r)) = length arr.
Proof. apply shuffleLoop_length. Qed.

Lemma shuffle_Forall (arr : list A) (r : Deck.Random) :
  Forall P arr -> Forall P (fst (Deck.fisherYatesShuffle arr r)).
Proof. apply shuffleLoop_Forall. Qed.

End Shuffle.

(** The shuffle only moves the elements around. *)
Lemma insert_perm {A} (l : list A) (j : nat) (x y : A) :
  l !! j = Some y -> y :: <[j := x]> l ≡ₚ x :: l.
Proof.
  revert j. induction l as [|a l IH]; intros [|j] H; try discriminate;
    cbn in *.
  - injection H as ->. apply perm_swap.
  - rewrite perm_swap, (IH j H). apply perm_swap.
Qed.

Lemma swap_perm {A} (i j : nat) (arr : list A) : Deck.swap i j arr ≡ₚ arr.
Proof.
  unfold Deck.swap.
  destruct (arr !! i) as [x|] eqn:Ei; [|reflexivity].
  destruct (arr !! j) as [y|] eqn:Ej; [|reflexivity].
  revert i j Ei Ej.
  induction arr as [|a arr IH]; intros [|i] [|j] Ei Ej; try discriminate;
    cbn in *.
  - injection Ei as ->. reflexivity.
  - injection Ei as ->. apply insert_perm, Ej.
  - injection Ej as ->. apply insert_perm, Ei.
  - rewrite (IH i j Ei Ej). reflexivity.
Qed.

Lemma shuffleLoop_perm {A} (i : nat) :
  forall (arr : list A) (r : Deck.Random),
    fst (Deck.shuffleLoop i arr r) ≡ₚ arr
    /\ Deck.calls (snd (Deck.shuffleLoop i arr r)) = Deck.calls r + i.
Proof.
  induction i as [|i IH]; intros arr r; cbn [Deck.shuffleLoop].
  - split; [reflexivity|cbn; lia].
  - unfold Deck.floorRandom.
    destruct (IH (Deck.swap (S i) (Deck.source r (Deck.calls r) mod (S i + 1)) arr)
                 {| Deck.source := Deck.source r; Deck.calls := S (Deck.calls r) |})
      as [Hperm Hcalls].
    split; [rewrite Hperm; apply swap_perm|rewrite Hcalls; cbn; lia].
Qed.

Lemma buildShoe_length (n : nat) : length (Deck.buildShoe n) = n * 52.
Proof.
  induction n as [|n IH]; simpl; [reflexivity|].
  rewrite length_app, IH. change (length Deck.buildSingleDeck) with 52. lia.
Qed.

Lemma buildShoe_standard (n : nat) : Forall standard (Deck.buildShoe n).
Proof.
  induction n as [|n IH]; simpl; [constructor|].
  apply Forall_app. split; [exact IH|].
  apply Forall_forall. intros card H. exact H.
Qed.

Lemma reset_count (s : Deck.t) :
  shoeCount (Deck.reset s) = Deck.numDecks s * 52.
Proof.
  unfold Deck.reset, shoeCount.
  pose proof (shuffle_length (Deck.buildShoe (Deck.numDecks s)) (Deck.random s)).
  destruct (Deck.fisherYatesShuffle _ _) as [shuffled r]. simpl in *.
  rewrite buildShoe_length in *. lia.
Qed.

Lemma reset_standard (s : Deck.t) : standardShoe (Deck.reset s).
Proof.
  unfold Deck.reset, standardShoe.
  pose proof (shuffle_Forall standard _ (Deck.random s)
                (buildShoe_standard (Deck.numDecks s))).
  destruct (Deck.fisherYatesShuffle _ _) as [shuffled r]. simpl in *.
  split; [assumption|constructor].
Qed.

Lemma reshuffle_count (s : Deck.t) :
  shoeCount (Deck.reshuffle s) = shoeCount s.
Proof.
  unfold Deck.reshuffle, shoeCount.
  pose proof (shuffle_length (Deck.cards s ++ Deck.discardPile s)
                (Deck.random s)).
  destruct (Deck.fisherYatesShuffle _ _) as [shuffled r]. simpl in *.
  rewrite length_app in *. lia.
Qed.

Lemma reshuffle_standard (s : Deck.t) :
  standardShoe s -> standardShoe (Deck.reshuffle s).
Proof.
  intros [Hlive Hdiscard]. unfold Deck.reshuffle, standardShoe.
  pose proof (shuffle_Forall standard (Deck.cards s ++ Deck.discardPile s)
                (Deck.random s)) as H.
  destruct (Deck.fisherYatesShuffle _ _) as [shuffled r]. simpl in *.
  split; [|constructor]. apply H, Forall_app. auto.
Qed.

(** [burn] moves cards from the live shoe to the discard pile. *)
Lemma burn_count (n : nat) (s : Deck.t) :
  shoeCount (snd (Deck.burn n s)) = shoeCount s.
Proof.
  unfold Deck.burn, shoeCount. simpl.
  rewrite length_app.
  rewrite <- (take_drop n (Deck.cards s)) at 3. rewrite length_app. lia.
Qed.

Lemma burn_standard (n : nat) (s : Deck.t) :
  standardShoe s -> standardShoe (snd (Deck.burn n s)).
Proof.
  intros [Hlive Hdiscard]. unfold Deck.burn, standardShoe. simpl.
  split; [apply Forall_drop, Hlive|].
  apply Forall_app. split; [exact Hdiscard|apply Forall_take, Hlive].
Qed.

(** [draw] moves cards from the shoe to the caller. *)
Lemma draw_count (n : nat) (s : Deck.t) :
  shoeCount (snd (Deck.draw n s)) + length (fst (Deck.draw n s)) = shoeCount s.
Proof.
  unfold Deck.draw.
  set (s1 := if Deck.needsReshuffle s then Deck.reshuffle s else s).
  assert (shoeCount s1 = shoeCount s) as <-
    by (subst s1; destruct (Deck.needsReshuffle s);
        [apply reshuffle_count|reflexivity]).
  set (count := if length (Deck.cards s1) <? n then length (Deck.cards s1) else n).
  unfold shoeCount. simpl.
  rewrite <- (take_drop count (Deck.cards s1)) at 3. rewrite length_app. lia.
Qed.

Lemma draw_one (s : Deck.t) : length (fst (Deck.draw 1 s)) <= 1.
Proof.
  unfold Deck.draw. simpl. rewrite length_take.
  destruct (length (Deck.cards _) <? 1) eqn:E;
    [apply Nat.ltb_lt in E|]; lia.
Qed.

Lemma draw_standard (n : nat) (s : Deck.t) :
  standardShoe s ->
  Forall standard (fst (Deck.draw n s)) /\ standardShoe (snd (Deck.draw n s)).
Proof.
  intros Hs. unfold Deck.draw.
  set (s1 := if Deck.needsReshuffle s then Deck.reshuffle s else s).
  assert (standardShoe s1) as [Hlive Hdiscard]
    by (subst s1; destruct (Deck.needsReshuffle s);
        [apply reshuffle_standard, Hs|exact Hs]).
  unfold standardShoe. simpl.
  split; [apply Forall_take, Hlive|].
  split; [apply Forall_drop, Hlive|exact Hdiscard].
Qed.

(** [discard] appends to the discard pile. *)
Lemma discard_count (cards : list Card.t) (s : Deck.t) :
  shoeCount (Deck.discard cards s) = shoeCount s + length cards.
Proof. unfold Deck.discard, shoeCount. simpl. rewrite length_app. lia. Qed.

Lemma reshuffle_perm (s : Deck.t) :
  Deck.cards (Deck.reshuffle s) ≡ₚ Deck.cards s ++ Deck.discardPile s
  /\ Deck.discardPile (Deck.reshuffle s) = [].
Proof.
  unfold Deck.reshuffle.
  pose proof (proj1 (shuffleLoop_perm
                       (length (Deck.cards s ++ Deck.discardPile s) - 1)
                       (Deck.cards s ++ Deck.discardPile s) (Deck.random s)))
    as H.
  fold (Deck.fisherYatesShuffle (Deck.cards s ++ Deck.discardPile s)
                                (Deck.random s)) in H.
  destruct (Deck.fisherYatesShuffle _ _) as [shuffled r].
  split; [exact H|reflexivity].
Qed.
(** ** The dealer service keeps the cards *)

Lemma addCards_size (cards : list Card.t) (hand : Hand.t) :
  Hand.size (Hand.addCards cards hand) = Hand.size hand + length cards.
Proof. unfold Hand.size, Hand.addCards. simpl. apply length_app. Qed.

Lemma heldBy_cons (hand : Hand.t) (hands : list Hand.t) :
  heldBy (hand :: hands) = Hand.size hand + heldBy hands.
Proof. reflexivity. Qed.

Lemma heldBy_app (hands1 hands2 : list Hand.t) :
  heldBy (hands1 ++ hands2) = heldBy hands1 + heldBy hands2.
Proof. apply sum_list_with_app. Qed.

Lemma heldBy_cards (hands : list Hand.t) :
  length (flat_map Hand.getCards hands) = heldBy hands.
Proof.
  induction hands as [|hand hands IH]; simpl; [reflexivity|].
  rewrite length_app, IH. reflexivity.
Qed.

Lemma heldBy_insert (hands : list Hand.t) (i : nat) (old new : Hand.t) :
  hands !! i = Some old ->
  heldBy (<[i := new]> hands) + Hand.size old = heldBy hands + Hand.size new.
Proof.
  revert i. induction hands as [|hand hands IH]; intros [|i] H;
    try discriminate; unfold heldBy in *; simpl in *.
  - injection H as ->. lia.
  - specialize (IH i H). lia.
Qed.

Lemma heldBy_splice (hands : list Hand.t) (i : nat) (old a b : Hand.t) :
  hands !! i = Some old ->
  heldBy (take i hands ++ [a; b] ++ drop (S i) hands) + Hand.size old
  = heldBy hands + Hand.size a + Hand.size b.
Proof.
  intros H.
  rewrite <- (take_drop_middle hands i old H) at 3.
  rewrite !heldBy_app, !heldBy_cons. change (heldBy []) with 0. lia.
Qed.

Lemma hit_count (hand : Hand.t) (d : Dealer.t) :
  shoeCount (Dealer.shoe (snd (Dealer.hit hand d)))
  + Hand.size (snd (fst (Dealer.hit hand d)))
  = shoeCount (Dealer.shoe d) + Hand.size hand.
Proof.
  unfold Dealer.hit.
  pose proof (draw_count 1 (Dealer.shoe d)) as Hc.
  pose proof (draw_one (Dealer.shoe d)) as H1.
  destruct (Deck.draw 1 (Dealer.shoe d)) as [[|card [|card' rest]] s];
    cbn [fst snd length Dealer.withShoe Dealer.shoe] in *; try lia.
  rewrite addCards_size. cbn [length]. lia.
Qed.

Lemma dealPass_count (hands : list Hand.t) :
  forall s : Deck.t,
    shoeCount (snd (Dealer.dealPass hands s))
    + heldBy (fst (Dealer.dealPass hands s))
    = shoeCount s + heldBy hands.
Proof.
  induction hands as [|hand hands IH]; intros s; cbn [Dealer.dealPass]; [reflexivity|].
  pose proof (draw_count 1 s) as Hc.
  destruct (Deck.draw 1 s) as [drawn s1].
  specialize (IH s1). destruct (Dealer.dealPass hands s1) as [rest s2].
  cbn [fst snd] in *. rewrite !heldBy_cons, addCards_size. lia.
Qed.

Lemma dealRound_count (hands : list Hand.t * Hand.t) (s : Deck.t) :
  shoeCount (snd (Dealer.dealRound hands s))
  + heldBy (fst (fst (Dealer.dealRound hands s)))
  + Hand.size (snd (fst (Dealer.dealRound hands s)))
  = shoeCount s + heldBy (fst hands) + Hand.size (snd hands).
Proof.
  unfold Dealer.dealRound.
  pose proof (dealPass_count (fst hands) s) as Hp.
  destruct (Dealer.dealPass (fst hands) s) as [playerHands s1].
  pose proof (draw_count 1 s1) as Hc.
  destruct (Deck.draw 1 s1) as [drawn s2].
  cbn [fst snd] in *. rewrite addCards_size. lia.
Qed.

Lemma heldBy_fresh (f : nat -> Q) (l : list nat) :
  heldBy (map (fun i => Hand.createHand false (f i)) l) = 0.
Proof. induction l as [|i l IH]; [reflexivity|]. simpl. rewrite heldBy_cons, IH. reflexivity. Qed.

Lemma dealInitial_count (numPlayers : nat) (bets : list Dealer.Wager)
      (d : Dealer.t) :
  shoeCount (Dealer.shoe (snd (Dealer.dealInitial numPlayers bets d)))
  + heldBy (fst (fst (Dealer.dealInitial numPlayers bets d)))
  + Hand.size (snd (fst (Dealer.dealInitial numPlayers bets d)))
  = shoeCount (Dealer.shoe d).
Proof.
  unfold Dealer.dealInitial, Dealer.burnCard.
  pose proof (burn_count 1 (Dealer.shoe d)) as Hb.
  destruct (Deck.burn 1 (Dealer.shoe d)) as [burned s0].
  cbn [fst snd Dealer.withShoe Dealer.shoe] in *.
  match goal with
  | |- context [Dealer.dealRound ?start s0] =>
      pose proof (dealRound_count start s0) as H1;
      destruct (Dealer.dealRound start s0) as [hands1 s1]
  end.
  pose proof (dealRound_count hands1 s1) as H2.
  destruct (Dealer.dealRound hands1 s1) as [hands2 s2].
  cbn [fst snd Dealer.withShoe Dealer.shoe] in *.
  rewrite heldBy_fresh in H1.
  change (Hand.size (Hand.createHand true 0%Q)) with 0 in H1. lia.
Qed.

Lemma dealerLoop_count (fuel : nat) :
  forall (hand hand' : Hand.t) (d d' : Dealer.t),
    Dealer.dealerLoop fuel hand d = Some (hand', d') ->
    shoeCount (Dealer.shoe d') + Hand.size hand'
    = shoeCount (Dealer.shoe d) + Hand.size hand.
Proof.
  induction fuel as [|fuel IH]; intros hand hand' d d' H; cbn in H;
    [discriminate|].
  destruct (Dealer.shouldDealerHit d hand).
  - pose proof (hit_count hand d) as Hc.
    destruct (Dealer.hit hand d) as [[card hand1] d1].
    apply IH in H. cbn [fst snd] in Hc. lia.
  - injection H as <- <-. reflexivity.
Qed.

Lemma playDealerHand_count (fuel : nat) (hand hand' : Hand.t)
      (d d' : Dealer.t) (total : Z) :
  Dealer.playDealerHand fuel hand d = Some ((total, hand'), d') ->
  shoeCount (Dealer.shoe d') + Hand.size hand'
  = shoeCount (Dealer.shoe d) + Hand.size hand.
Proof.
  unfold Dealer.playDealerHand.
  destruct (Dealer.dealerLoop fuel hand d) as [[hand1 d1]|] eqn:E;
    [|discriminate].
  intros H. injection H as <- <- <-.
  apply dealerLoop_count in E. exact E.
Qed.
(** ** The engine's helpers, step by step *)

Ltac unfold_engine :=
  unfold settle, beginDealerTurn, skipSettledHands, advanceHand, dealerHit,
    setActiveHand, typeError, bind, get, modify, ret, throw, running,
    setDealer, setState, setPlayerHands, setDealerHand, setActiveHandIdx,
    setResults, emit in *.

Lemma settle_eq (g : t) (dHand : Hand.t) :
  dealerHand g = Some dHand ->
  settle g = (Returned tt, settled dHand g).
Proof. intros Hd. unfold_engine. rewrite Hd. reflexivity. Qed.

Lemma beginDealerTurn_eq (fuel : nat) (g : t) (dHand : Hand.t) :
  dealerHand g = Some dHand ->
  beginDealerTurn fuel g
  = if forallb Hand.isBusted (playerHands g) then
      (Returned tt,
       settled (Hand.settle dHand)
         (atSettlement
            (withDealerHand (Some (Hand.settle dHand)) (atDealerTurn g))))
    else
      match Dealer.playDealerHand fuel dHand (dealer g) with
      | None => (Running, withEvent Event.dealerReveal (atDealerTurn g))
      | Some ((_, dHand'), d') =>
          (Returned tt,
           settled dHand'
             (atSettlement
                (withEvent Event.dealerDone
                   (withDealerHand (Some dHand')
                      (withDealer d'
                         (withEvent Event.dealerReveal (atDealerTurn g)))))))
      end.
Proof.
  intros Hd. unfold_engine. rewrite Hd.
  destruct (forallb Hand.isBusted (playerHands g)); cbn; [reflexivity|].
  destruct (Dealer.playDealerHand fuel dHand (dealer g))
    as [[[total dHand'] d']|]; reflexivity.
Qed.

Lemma skipSettledHands_eq (fuel : nat) (g : t) :
  skipSettledHands fuel g
  = if length (playerHands g) <=? activeHandIdx (skipped g)
    then beginDealerTurn fuel (skipped g)
    else (Returned tt,
          withEvent (Event.activeHandChange (activeHandIdx (skipped g)))
                    (skipped g)).
Proof.
  unfold skipSettledHands, bind, get, setActiveHandIdx, modify, emit. cbn.
  destruct (length (playerHands g) <=? _); reflexivity.
Qed.

Lemma advanceHand_eq (fuel : nat) (g : t) :
  advanceHand fuel g
  = skipSettledHands fuel (withActiveHandIdx (S (activeHandIdx g)) g).
Proof. reflexivity. Qed.

Lemma discard_all_count (hands : list Hand.t) (dHand : Hand.t) (s : Deck.t) :
  shoeCount
    (Deck.discard (flat_map Hand.getCards hands ++ Hand.getCards dHand) s)
  = shoeCount s + heldBy hands + Hand.size dHand.
Proof.
  rewrite discard_count, length_app, heldBy_cards.
  unfold Hand.size, Hand.getCards. lia.
Qed.

Lemma settled_count (g : t) (dHand : Hand.t) :
  state (settled dHand g) = GAME_OVER /\
  shoeCount (Dealer.shoe (dealer (settled dHand g)))
  = shoeCount (Dealer.shoe (dealer g)) + heldBy (playerHands g)
    + Hand.size dHand.
Proof. split; [reflexivity|]. cbn. apply discard_all_count. Qed.

(** The dealer's turn either is still running when the fuel is spent, or
    ends the round with every card back in the shoe. *)
Lemma beginDealerTurn_count (fuel : nat) (g : t) (dHand : Hand.t) :
  dealerHand g = Some dHand ->
  fst (beginDealerTurn fuel g) = Running \/
  (fst (beginDealerTurn fuel g) = Returned tt /\
   state (snd (beginDealerTurn fuel g)) = GAME_OVER /\
   shoeCount (Dealer.shoe (dealer (snd (beginDealerTurn fuel g))))
   = shoeCount (Dealer.shoe (dealer g)) + heldBy (playerHands g)
     + Hand.size dHand).
Proof.
  intros Hd. rewrite (beginDealerTurn_eq fuel g dHand Hd).
  destruct (forallb Hand.isBusted (playerHands g)).
  - right. split; [reflexivity|]. cbn [snd].
    destruct (settled_count
                (atSettlement
                   (withDealerHand (Some (Hand.settle dHand)) (atDealerTurn g)))
                (Hand.settle dHand)) as [-> ->].
    split; [reflexivity|]. reflexivity.
  - destruct (Dealer.playDealerHand fuel dHand (dealer g))
      as [[[total dHand'] d']|] eqn:Eplay; [|left; reflexivity].
    apply playDealerHand_count in Eplay.
    right. split; [reflexivity|]. cbn [snd].
    match goal with
    | |- context [settled dHand' ?g1] =>
        destruct (settled_count g1 dHand') as [-> ->]
    end.
    split; [reflexivity|]. cbn [dealer playerHands withDealer withEvent
      withDealerHand atSettlement atDealerTurn withState]. lia.
Qed.

Lemma skipSettledHands_count (fuel : nat) (g : t) (dHand : Hand.t) :
  dealerHand g = Some dHand ->
  state g = PLAYER_TURN ->
  turnGoesOn dHand g (skipSettledHands fuel g).
Proof.
  intros Hd Hst. rewrite skipSettledHands_eq. unfold turnGoesOn.
  destruct (length (playerHands g) <=? activeHandIdx (skipped g)) eqn:E.
  - destruct (beginDealerTurn_count fuel (skipped g) dHand Hd)
      as [H|(H1 & H2 & H3)]; [left; exact H|].
    right. split; [exact H1|]. left. split; [exact H2|exact H3].
  - apply Nat.leb_gt in E. right. split; [reflexivity|]. right.
    cbn [snd]. repeat split; try assumption.
Qed.

Lemma advanceHand_count (fuel : nat) (g : t) (dHand : Hand.t) :
  dealerHand g = Some dHand ->
  state g = PLAYER_TURN ->
  turnGoesOn dHand g (advanceHand fuel g).
Proof.
  intros Hd Hst. rewrite advanceHand_eq.
  exact (skipSettledHands_count fuel
           (withActiveHandIdx (S (activeHandIdx g)) g) dHand Hd Hst).
Qed.
(** ** Guards of the actions *)

Lemma state_eqb_eq (a b : State) : state_eqb a b = true <-> a = b.
Proof. destruct a, b; simpl; split; congruence. Qed.

Lemma canSplit_pair (hand : Hand.t) :
  Hand.canSplit hand
  = match Hand.cards hand with
    | [c0; c1] => bool_decide (Card.rank c0 = Card.rank c1)
    | _ => false
    end.
Proof.
  unfold Hand.canSplit.
  destruct (Hand.cards hand) as [|c0 [|c1 [|c2 rest]]]; try reflexivity.
  destruct (String.eqb_spec (Card.rank c0) (Card.rank c1)) as [E|E].
  - rewrite bool_decide_eq_true_2; auto.
  - rewrite bool_decide_eq_false_2; auto.
Qed.

(** An action whose guard fails throws before it assigns anything. *)
Lemma invalid_action_guard (fuel : nat) (a : Action) (g : t) :
  permitted a g = false ->
  exists message : string, perform fuel a g = (Thrown message, g).
Proof.
  intros Hguard.
  destruct a as [bets| | | | |]; simpl in Hguard; unfold perform.
  - unfold placeBets, bind, get, throw.
    destruct (state_eqb (state g) BETTING); simpl in *; [|eauto].
    destruct (length bets =? 0); [eauto|discriminate].
  - unfold playerHit, bind, get, throw. rewrite Hguard. simpl. eauto.
  - unfold playerStand, bind, get, throw. rewrite Hguard. simpl. eauto.
  - unfold playerDoubleDown, bind, get, throw, typeError, throw.
    destruct (state_eqb (state g) PLAYER_TURN); simpl in *; [|eauto].
    destruct (getActiveHand g) as [hand|]; [|eauto].
    unfold Hand.canDoubleDown. rewrite Hguard. simpl. eauto.
  - unfold playerSplit, bind, get, throw, typeError, throw.
    destruct (state_eqb (state g) PLAYER_TURN); simpl in *; [|eauto].
    destruct (getActiveHand g) as [hand|]; [|eauto].
    rewrite canSplit_pair, Hguard. simpl. eauto.
  - discriminate.
Qed.

(** The five guarded actions.  An action whose guard does not hold (the
    state is not the one the action is valid in, [placeBets] is given no
    wager, the active hand does not have exactly two cards for a
    double-down, or is not a pair of equal rank for a split) throws, and
    the engine is left exactly as it was: state, hands with their bets,
    active index, shoe, results and emitted events.  The errors are
    those of the source: a hit outside PLAYER_TURN, a bet outside
    BETTING, a bet with no wager, a double-down on a hand that has not
    two cards, a split of a hand that is not a pair.  [newRound] is not
    among them: it has no guard to fail. *)
Theorem invalid_action_throws :
  (forall (fuel : nat) (a : Action) (g : t),
     permitted a g = false ->
     exists message : string, perform fuel a g = (Thrown message, g)) /\
  (forall (fuel : nat) (g : t),
     state g <> PLAYER_TURN ->
     playerHit fuel g
     = (Thrown ("Cannot hit in state " +:+ state_name (state g)), g)) /\
  (forall (fuel : nat) (bets : list Dealer.Wager) (g : t),
     state g <> BETTING ->
     placeBets fuel bets g
     = (Thrown ("Cannot bet in state " +:+ state_name (state g)), g)) /\
  (forall (fuel : nat) (g : t),
     state g = BETTING ->
     placeBets fuel [] g = (Thrown "At least one bet required", g)) /\
  (forall (fuel : nat) (g : t) (hand : Hand.t),
     state g = PLAYER_TURN ->
     getActiveHand g = Some hand ->
     length (Hand.cards hand) <> 2 ->
     playerDoubleDown fuel g = (Thrown "Double down not allowed", g)) /\
  (forall (fuel : nat) (g : t) (hand : Hand.t),
     state g = PLAYER_TURN ->
     getActiveHand g = Some hand ->
     Hand.canSplit hand = false ->
     playerSplit fuel g = (Thrown "Split not allowed", g)).
Proof.
  split; [exact invalid_action_guard|].
  assert (forall s1 s2 : State, s1 <> s2 -> state_eqb s1 s2 = false) as Hneq.
  { intros s1 s2 H. destruct (state_eqb s1 s2) eqn:E; [|reflexivity].
    apply state_eqb_eq in E. contradiction. }
  split; [|split; [|split; [|split]]].
  - intros fuel g Hst. unfold playerHit, bind, get, throw.
    rewrite (Hneq _ _ Hst). reflexivity.
  - intros fuel bets g Hst. unfold placeBets, bind, get, throw.
    rewrite (Hneq _ _ Hst). reflexivity.
  - intros fuel g Hst. unfold placeBets, bind, get, throw.
    rewrite Hst. reflexivity.
  - intros fuel g hand Hst Hact Hsize.
    unfold playerDoubleDown, bind, get, throw.
    rewrite Hst, Hact. unfold Hand.canDoubleDown.
    apply Nat.eqb_neq in Hsize. rewrite Hsize. reflexivity.
  - intros fuel g hand Hst Hact Hsplit.
    unfold playerSplit, bind, get, throw.
    rewrite Hst, Hact, Hsplit. reflexivity.
Qed.

Lemma invalid_action_throws_witness :
  exists message : string,
    perform 0 PlayerHit (createGame Dealer.defaults (Deck.mkRandom id 0))
    = (Thrown message, createGame Dealer.defaults (Deck.mkRandom id 0)).
Proof.
  apply (proj1 invalid_action_throws 0 PlayerHit
           (createGame Dealer.defaults (Deck.mkRandom id 0))).
  reflexivity.
Defined.

(** C7. [newRound] is the one action that does not test the state.  One
    bet on a fresh single deck leaves the engine in PLAYER_TURN, with
    two cards in the player hand and two in the dealer hand; [newRound]
    called there does not throw: it returns, the state is BETTING, both
    hands are gone, and the shoe counts 48 cards, live and discarded, of
    its 52.  The five other actions throw in a state that is not theirs,
    as [playerHit] does on the engine that [newRound] leaves. *)
Theorem newRound_mid_round_returns :
  let g0 := createGame Dealer.defaults (Deck.mkRandom id 0) in
  let g1 := snd (placeBets 0 [Dealer.number 10] g0) in
  let r := perform 0 NewRound g1 in
  state g1 = PLAYER_TURN /\
  map Hand.size (playerHands g1) = [2] /\
  heldByDealer (dealerHand g1) = 2 /\
  shoeCount (Dealer.shoe (dealer g1)) = 48 /\
  fst r = Returned tt /\
  state (snd r) = BETTING /\
  playerHands (snd r) = [] /\
  dealerHand (snd r) = None /\
  shoeCount (Dealer.shoe (dealer (snd r))) = 48 /\
  snd r <> g1 /\
  perform 0 PlayerHit (snd r)
  = (Thrown "Cannot hit in state BETTING", snd r).
Proof.
  cbv zeta.
  repeat (split; [vm_compute; reflexivity|]).
  split; [|vm_compute; reflexivity].
  intros H. apply (f_equal state) in H. vm_compute in H. discriminate H.
Qed.

(** ** Every action keeps the count *)

Lemma turnGoesOn_keeps (total : nat) (dHand : Hand.t) (g : t)
      (r : Completion unit * t) :
  shoeCount (Dealer.shoe (dealer g)) + heldBy (playerHands g)
  + Hand.size dHand = total ->
  turnGoesOn dHand g r ->
  keeps total r.
Proof.
  intros Hc [H|(H1 & [(H2 & H3)|(H2 & H3 & H4 & H5 & H6)])]; [left; exact H| |];
    right; unfold roundInv, conserved, seated; rewrite H2.
  - split; [lia|discriminate].
  - rewrite H3, H4, H5. simpl. split; [lia|]. intros _. split; [eauto|exact H6].
Qed.

Lemma thrown_keeps (total : nat) (g : t) (message : string) :
  roundInv total g -> keeps total (Thrown message, g).
Proof. intros H. right. exact H. Qed.

Lemma returned_keeps (total : nat) (g : t) :
  roundInv total g -> keeps total (Returned tt, g).
Proof. intros H. right. exact H. Qed.

Lemma playerStand_keeps (total fuel : nat) (g : t) :
  roundInv total g -> keeps total (playerStand fuel g).
Proof.
  intros [Hc Hs]. unfold playerStand. unfold bind at 1, get at 1.
  destruct (state_eqb (state g) PLAYER_TURN) eqn:Est; cbn [negb];
    [|apply thrown_keeps; split; assumption].
  apply state_eqb_eq in Est.
  destruct (Hs Est) as [[dHand Hd] Hidx].
  unfold getActiveHand.
  destruct (playerHands g !! activeHandIdx g) as [hand|] eqn:Ehand;
    [|apply lookup_ge_None in Ehand; lia].
  unfold setActiveHand, setPlayerHands, emit, bind, get, modify.
  match goal with
  | |- keeps _ (advanceHand fuel ?g1) =>
      apply (turnGoesOn_keeps total dHand g1);
        [|apply advanceHand_count; [exact Hd|exact Est]]
  end.
  cbn [dealer playerHands withEvent withPlayerHands].
  unfold conserved in Hc. rewrite Est, Hd in Hc. cbn [heldByDealer] in Hc.
  pose proof (heldBy_insert _ _ _ (Hand.settle hand) Ehand) as Hi.
  change (Hand.size (Hand.settle hand)) with (Hand.size hand) in Hi. lia.
Qed.

Lemma settle_size (hand : Hand.t) : Hand.size (Hand.settle hand) = Hand.size hand.
Proof. reflexivity. Qed.

Lemma doubleBet_size (hand : Hand.t) :
  Hand.size (Hand.doubleBet hand) = Hand.size hand.
Proof. reflexivity. Qed.

Lemma playerHit_keeps (total fuel : nat) (g : t) :
  roundInv total g -> keeps total (playerHit fuel g).
Proof.
  intros [Hc Hs]. unfold playerHit. unfold bind at 1, get at 1.
  destruct (state_eqb (state g) PLAYER_TURN) eqn:Est; cbn [negb];
    [|apply thrown_keeps; split; assumption].
  apply state_eqb_eq in Est.
  destruct (Hs Est) as [[dHand Hd] Hidx].
  unfold getActiveHand.
  destruct (playerHands g !! activeHandIdx g) as [hand|] eqn:Ehand;
    [|apply lookup_ge_None in Ehand; lia].
  unfold conserved in Hc. rewrite Est, Hd in Hc. cbn [heldByDealer] in Hc.
  pose proof (hit_count hand (dealer g)) as Hh.
  unfold dealerHit, setDealer, setActiveHand, setPlayerHands, emit, bind, get,
    modify, ret.
  destruct (Dealer.hit hand (dealer g)) as [[card hand'] d'].
  cbn [fst snd] in Hh.
  cbn [dealer playerHands activeHandIdx withEvent withPlayerHands withDealer].
  pose proof (heldBy_insert _ _ _ hand' Ehand) as Hi.
  destruct (Hand.isBusted hand').
  - match goal with
    | |- keeps _ (advanceHand fuel ?g1) =>
        apply (turnGoesOn_keeps total dHand g1);
          [|apply advanceHand_count; [exact Hd|exact Est]]
    end.
    cbn [dealer playerHands withEvent withPlayerHands withDealer].
    rewrite list_insert_insert_eq.
    pose proof (heldBy_insert _ _ _ (Hand.settle hand') Ehand) as Hi'.
    rewrite settle_size in Hi'. lia.
  - apply returned_keeps. split.
    + unfold conserved. cbn. rewrite Est, Hd. cbn [heldByDealer]. lia.
    + intros _. cbn. rewrite length_insert. split; [eauto|exact Hidx].
Qed.

Lemma playerDoubleDown_keeps (total fuel : nat) (g : t) :
  roundInv total g -> keeps total (playerDoubleDown fuel g).
Proof.
  intros [Hc Hs]. unfold playerDoubleDown. unfold bind at 1, get at 1.
  destruct (state_eqb (state g) PLAYER_TURN) eqn:Est; cbn [negb];
    [|apply thrown_keeps; split; assumption].
  apply state_eqb_eq in Est.
  destruct (Hs Est) as [[dHand Hd] Hidx].
  unfold getActiveHand.
  destruct (playerHands g !! activeHandIdx g) as [hand|] eqn:Ehand;
    [|apply lookup_ge_None in Ehand; lia].
  destruct (Hand.canDoubleDown hand); cbn [negb];
    [|apply thrown_keeps; split; assumption].
  unfold conserved in Hc. rewrite Est, Hd in Hc. cbn [heldByDealer] in Hc.
  pose proof (hit_count (Hand.doubleBet hand) (dealer g)) as Hh.
  rewrite doubleBet_size in Hh.
  unfold dealerHit, setDealer, setActiveHand, setPlayerHands, emit, bind, get,
    modify, ret.
  destruct (Dealer.hit (Hand.doubleBet hand) (dealer g)) as [[card hand'] d'].
  cbn [fst snd] in Hh.
  cbn [dealer playerHands activeHandIdx withEvent withPlayerHands withDealer].
  pose proof (heldBy_insert _ _ _ (Hand.settle hand') Ehand) as Hi.
  rewrite settle_size in Hi.
  destruct (Hand.isBusted (Hand.settle hand'));
    match goal with
    | |- keeps _ (advanceHand fuel ?g1) =>
        apply (turnGoesOn_keeps total dHand g1);
          [|apply advanceHand_count; [exact Hd|exact Est]]
    end;
    cbn [dealer playerHands withEvent withPlayerHands withDealer]; lia.
Qed.

(** A split, once its guards have passed. *)
Lemma playerSplit_eq (fuel : nat) (g : t) (hand : Hand.t) (c0 c1 : Card.t) :
  state g = PLAYER_TURN ->
  getActiveHand g = Some hand ->
  Hand.cards hand = [c0; c1] ->
  Card.rank c0 = Card.rank c1 ->
  playerSplit fuel g
  = let rA := Dealer.hit (Hand.addCards [c0] (Hand.createHand false (Hand.bet hand)))
                         (dealer g) in
    let rB := Dealer.hit (Hand.addCards [c1] (Hand.createHand false (Hand.bet hand)))
                         (snd rA) in
    skipSettledHands fuel
      (splitGame (snd (fst rA)) (snd (fst rB)) (snd rB) g).
Proof.
  intros Hst Hact Hcards Hrank. unfold playerSplit.
  unfold bind at 1, get at 1. rewrite Hst, Hact. cbn [state_eqb negb].
  unfold Hand.canSplit, Hand.split. rewrite Hcards, Hrank, String.eqb_refl.
  cbn [negb].
  unfold dealerHit, setDealer, setPlayerHands, emit, bind, get, modify, ret.
  cbn [dealer].
  destruct (Dealer.hit (Hand.addCards [c0] _) (dealer g)) as [[cardA handA] d1].
  cbn [dealer withDealer fst snd].
  destruct (Dealer.hit (Hand.addCards [c1] _) d1) as [[cardB handB] d2].
  reflexivity.
Qed.

Lemma playerSplit_keeps (total fuel : nat) (g : t) :
  roundInv total g -> keeps total (playerSplit fuel g).
Proof.
  intros [Hc Hs].
  destruct (permitted PlayerSplit g) eqn:Hguard.
  - cbn [permitted] in Hguard. apply andb_prop in Hguard as [Est Hpair].
    apply state_eqb_eq in Est.
    destruct (Hs Est) as [[dHand Hd] Hidx].
    destruct (getActiveHand g) as [hand|] eqn:Ehand; [|discriminate].
    destruct (Hand.cards hand) as [|c0 [|c1 [|c2 rest]]] eqn:Ecards;
      try discriminate.
    apply bool_decide_eq_true in Hpair.
    rewrite (playerSplit_eq fuel g hand c0 c1 Est Ehand Ecards Hpair).
    cbv zeta.
    pose proof (hit_count (Hand.addCards [c0] (Hand.createHand false (Hand.bet hand)))
                          (dealer g)) as HA.
    destruct (Dealer.hit (Hand.addCards [c0] _) (dealer g))
      as [[cardA handA] d1].
    cbn [fst snd] in *.
    pose proof (hit_count (Hand.addCards [c1] (Hand.createHand false (Hand.bet hand)))
                          d1) as HB.
    destruct (Dealer.hit (Hand.addCards [c1] _) d1) as [[cardB handB] d2].
    cbn [fst snd] in *.
    rewrite addCards_size in HA, HB.
    change (Hand.size (Hand.createHand false (Hand.bet hand))) with 0 in HA, HB.
    cbn [length] in HA, HB.
    apply (turnGoesOn_keeps total dHand (splitGame handA handB d2 g));
      [|apply skipSettledHands_count; [exact Hd|exact Est]].
    unfold conserved in Hc. rewrite Est, Hd in Hc. cbn [heldByDealer] in Hc.
    cbn [dealer playerHands splitGame withEvent withPlayerHands withDealer].
    pose proof (heldBy_splice _ _ _ handA handB Ehand) as Hsp.
    assert (Hand.size hand = 2) as Hsize by (unfold Hand.size; rewrite Ecards; reflexivity).
    lia.
  - destruct (invalid_action_guard fuel PlayerSplit g Hguard) as [message E].
    cbn [perform] in E. rewrite E. apply thrown_keeps. split; assumption.
Qed.

(** A bet, once its guards have passed. *)
Lemma placeBets_eq (fuel : nat) (bets : list Dealer.Wager) (g : t) :
  state g = BETTING ->
  bets <> [] ->
  placeBets fuel bets g
  = let dealt := Dealer.dealInitial (length bets) bets (dealer g) in
    let g1 := dealtGame (fst (fst dealt)) (snd (fst dealt)) (snd dealt) g in
    if Hand.isBlackjack (snd (fst dealt))
       || forallb Hand.isBlackjack (fst (fst dealt))
    then (Returned tt, settled (snd (fst dealt)) (atSettlement g1))
    else skipSettledHands fuel (atPlayerTurn g1).
Proof.
  intros Hst Hbets. unfold placeBets.
  unfold bind at 1, get at 1. rewrite Hst. cbn [state_eqb negb].
  destruct bets as [|bet bets]; [contradiction|]. cbn [length Nat.eqb].
  cbv zeta.
  destruct (Dealer.dealInitial (S (length bets)) (bet :: bets) (dealer g))
    as [[pHands dHand] d].
  cbn [fst snd].
  unfold setState, emit, setDealer, setPlayerHands, setDealerHand,
    setActiveHandIdx, setResults, bind, modify.
  fold (dealtGame pHands dHand d g).
  destruct (Hand.isBlackjack dHand); cbn [orb].
  - rewrite (settle_eq _ dHand); reflexivity.
  - destruct (forallb Hand.isBlackjack pHands).
    + rewrite (settle_eq _ dHand); reflexivity.
    + reflexivity.
Qed.

Lemma placeBets_keeps (total fuel : nat) (bets : list Dealer.Wager) (g : t) :
  roundInv total g -> keeps total (placeBets fuel bets g).
Proof.
  intros [Hc Hs].
  destruct (permitted (PlaceBets bets) g) eqn:Hguard.
  - cbn [permitted] in Hguard. apply andb_prop in Hguard as [Est Hbets].
    apply state_eqb_eq in Est.
    assert (bets <> []) as Hne by (destruct bets; [discriminate|congruence]).
    rewrite (placeBets_eq fuel bets g Est Hne). cbv zeta.
    pose proof (dealInitial_count (length bets) bets (dealer g)) as Hd.
    destruct (Dealer.dealInitial (length bets) bets (dealer g))
      as [[pHands dHand] d].
    cbn [fst snd] in *.
    unfold conserved in Hc. rewrite Est in Hc.
    destruct (Hand.isBlackjack dHand || forallb Hand.isBlackjack pHands).
    + right. cbn [snd].
      destruct (settled_count (atSettlement (dealtGame pHands dHand d g)) dHand)
        as [Hst Hcount].
      split.
      * unfold conserved. rewrite Hst, Hcount. cbn. lia.
      * intros H. rewrite Hst in H. discriminate.
    + apply (turnGoesOn_keeps total dHand (atPlayerTurn (dealtGame pHands dHand d g)));
        [|apply skipSettledHands_count; reflexivity].
      cbn. lia.
  - destruct (invalid_action_guard fuel (PlaceBets bets) g Hguard)
      as [message E].
    cbn [perform] in E. rewrite E. apply thrown_keeps. split; assumption.
Qed.

Lemma newRound_keeps (total : nat) (g : t) :
  roundInv total g -> betweenRounds g = true -> keeps total (newRound g).
Proof.
  intros [Hc Hs] Hb. right. split.
  - unfold conserved in *. cbn.
    unfold betweenRounds in Hb. apply orb_prop in Hb as [H|H];
      apply state_eqb_eq in H; rewrite H in Hc; exact Hc.
  - intros H. discriminate H.
Qed.

Lemma perform_keeps (total fuel : nat) (a : Action) (g : t) :
  roundInv total g -> inOrder a g = true -> keeps total (perform fuel a g).
Proof.
  intros Hinv Horder. destruct a; cbn [perform].
  - apply placeBets_keeps, Hinv.
  - apply playerHit_keeps, Hinv.
  - apply playerStand_keeps, Hinv.
  - apply playerDoubleDown_keeps, Hinv.
  - apply playerSplit_keeps, Hinv.
  - apply newRound_keeps; assumption.
Qed.

Lemma createGame_inv (opts : Dealer.Opts) (r : Deck.Random) :
  roundInv (Dealer.numDecks opts * 52) (createGame opts r).
Proof.
  split.
  - unfold conserved. cbn. apply reset_count.
  - intros H. discriminate H.
Qed.

Lemma run_inv (total fuel : nat) (actions : list Action) :
  forall g g' : t,
    roundInv total g -> run fuel actions g = Some g' -> roundInv total g'.
Proof.
  induction actions as [|a actions IH]; intros g g' Hinv Hrun; cbn in Hrun.
  - congruence.
  - destruct (inOrder a g) eqn:Horder; [|discriminate].
    pose proof (perform_keeps total fuel a g Hinv Horder) as [Hr|Hk];
      destruct (perform fuel a g) as [[[]|message|] g1]; cbn [fst snd] in *;
      try discriminate; eauto.
Qed.

(** ** Card conservation *)

(** C3. Whatever the options and the shuffles, after any sequence of
    actions that plays its rounds to the end ([newRound] only between
    rounds) the cards add up to [numDecks * 52]: with no round in
    progress (BETTING, GAME_OVER) the live shoe and the discard pile hold
    them all; during the player's turn the player hands and the dealer
    hand hold the rest.  The operations account for it: [burn] moves the
    first cards of the live shoe to the discard pile, [draw] hands out
    the first cards of the live shoe (reshuffled first if due), [discard]
    appends to the pile, [reshuffle] permutes the live cards and the pile
    into the live shoe and empties the pile, and [settle] appends every
    card of every player hand and of the dealer hand to the pile. *)
Theorem card_conservation :
  (forall (n : nat) (s : Deck.t),
     Deck.cards (snd (Deck.burn n s)) = drop n (Deck.cards s) /\
     Deck.discardPile (snd (Deck.burn n s))
     = Deck.discardPile s ++ take n (Deck.cards s)) /\
  (forall (n : nat) (s : Deck.t),
     let s1 := if Deck.needsReshuffle s then Deck.reshuffle s else s in
     fst (Deck.draw n s) ++ Deck.cards (snd (Deck.draw n s)) = Deck.cards s1 /\
     Deck.discardPile (snd (Deck.draw n s)) = Deck.discardPile s1) /\
  (forall (cards : list Card.t) (s : Deck.t),
     Deck.cards (Deck.discard cards s) = Deck.cards s /\
     Deck.discardPile (Deck.discard cards s) = Deck.discardPile s ++ cards) /\
  (forall s : Deck.t,
     Deck.cards (Deck.reshuffle s) ≡ₚ Deck.cards s ++ Deck.discardPile s /\
     Deck.discardPile (Deck.reshuffle s) = []) /\
  (forall (g : t) (dHand : Hand.t),
     dealerHand g = Some dHand ->
     fst (settle g) = Returned tt /\
     state (snd (settle g)) = GAME_OVER /\
     Deck.cards (Dealer.shoe (dealer (snd (settle g))))
     = Deck.cards (Dealer.shoe (dealer g)) /\
     Deck.discardPile (Dealer.shoe (dealer (snd (settle g))))
     = Deck.discardPile (Dealer.shoe (dealer g))
       ++ flat_map Hand.getCards (playerHands g) ++ Hand.getCards dHand) /\
  (forall (opts : Dealer.Opts) (r : Deck.Random) (fuel : nat)
          (actions : list Action) (g : t),
     run fuel actions (createGame opts r) = Some g ->
     conserved (Dealer.numDecks opts * 52) g).
Proof.
  split; [intros n s; split; reflexivity|].
  split; [intros n s s1; unfold Deck.draw; fold s1; cbn [fst snd Deck.cards
            Deck.discardPile]; split; [apply take_drop|reflexivity]|].
  split; [intros cards s; split; reflexivity|].
  split; [exact reshuffle_perm|].
  split.
  - intros g dHand Hd. rewrite (settle_eq g dHand Hd). repeat split.
  - intros opts r fuel actions g Hrun.
    exact (proj1 (run_inv _ fuel actions _ g (createGame_inv opts r) Hrun)).
Qed.

Lemma card_conservation_witness :
  conserved 52
    (default (createGame Dealer.defaults (Deck.mkRandom id 0))
       (run 30
          [PlaceBets [Dealer.number 10; Dealer.number 20]; PlayerHit;
           PlayerStand; PlayerStand; PlayerStand; NewRound;
           PlaceBets [Dealer.number 5]; PlayerDoubleDown]
          (createGame Dealer.defaults (Deck.mkRandom id 0)))).
Proof.
  apply (proj2 (proj2 (proj2 (proj2 (proj2 card_conservation))))
           Dealer.defaults (Deck.mkRandom id 0) 30
           [PlaceBets [Dealer.number 10; Dealer.number 20]; PlayerHit;
            PlayerStand; PlayerStand; PlayerStand; NewRound;
            PlaceBets [Dealer.number 5]; PlayerDoubleDown]).
  vm_compute. reflexivity.
Defined.

(** ** The round after the deal *)

Lemma standard_In (card : Card.t) :
  standard card -> In card Deck.buildSingleDeck.
Proof. intros H. apply list_elem_of_In. exact H. Qed.

Lemma one_card_total (c : Card.t) :
  standard c -> (Hand.total (Hand.evaluate [c]) < 21)%Z.
Proof.
  intros H. apply standard_In in H. apply Z.ltb_lt. revert c H.
  apply forallb_forall. vm_compute. reflexivity.
Qed.

Lemma two_cards_total (c0 c1 : Card.t) :
  standard c0 -> standard c1 -> (Hand.total (Hand.evaluate [c0; c1]) <= 21)%Z.
Proof.
  intros H0 H1. apply standard_In in H0, H1. apply Z.leb_le.
  revert c1 H1. apply forallb_forall. revert c0 H0. apply forallb_forall.
  vm_compute. reflexivity.
Qed.

(** A hand of the deal is not busted, and totals 21 only as a natural. *)
Lemma dealt_hand_total (hand : Hand.t) :
  dealtUpTo 2 hand ->
  Hand.isBusted hand = false /\
  (Hand.isBlackjack hand = false -> (Hand.htotal hand < 21)%Z).
Proof.
  intros (_ & Hstd & Hsize). unfold Hand.isBusted, Hand.isBlackjack, Hand.htotal.
  unfold Hand.size in Hsize.
  destruct (Hand.cards hand) as [|c0 [|c1 [|c2 rest]]]; simpl in Hsize; try lia.
  - split; [reflexivity|]. intros _. reflexivity.
  - apply Forall_cons in Hstd as [H0 _].
    pose proof (one_card_total c0 H0) as Ht.
    split; [apply Z.ltb_ge; lia|]. intros _. exact Ht.
  - apply Forall_cons in Hstd as [H0 Hstd]. apply Forall_cons in Hstd as [H1 _].
    pose proof (two_cards_total c0 c1 H0 H1) as Ht.
    split; [apply Z.ltb_ge; lia|].
    cbn [length Nat.eqb andb]. intros Hne. apply Z.eqb_neq in Hne. lia.
Qed.

Lemma verdict_after_deal (dHand hand : Hand.t) :
  dealtUpTo 2 hand ->
  dealtUpTo 2 dHand ->
  Hand.isBlackjack dHand = true \/ Hand.isBlackjack hand = true ->
  Evaluator.compareHands hand dHand
  = verdictAfterDeal (Hand.isBlackjack dHand) hand.
Proof.
  intros Hh Hd Hnat.
  destruct (dealt_hand_total hand Hh) as [Hbust Hlow].
  destruct (dealt_hand_total dHand Hd) as [Hdbust _].
  unfold Evaluator.compareHands, verdictAfterDeal. rewrite Hbust.
  destruct (Hand.isBlackjack hand) eqn:Eh; [reflexivity|].
  destruct Hnat as [Hn|Hn]; [|discriminate]. rewrite Hdbust.
  specialize (Hlow eq_refl).
  unfold Hand.isBlackjack in Hn. apply andb_prop in Hn as [_ Hn].
  apply Z.eqb_eq in Hn. rewrite Hn.
  assert ((21 <? Hand.htotal hand)%Z = false) as -> by (apply Z.ltb_ge; lia).
  assert ((Hand.htotal hand <? 21)%Z = true) as -> by (apply Z.ltb_lt; lia).
  reflexivity.
Qed.

Lemma addCards_dealt (n : nat) (drawn : list Card.t) (hand : Hand.t) :
  dealtUpTo n hand -> Forall standard drawn -> length drawn <= 1 ->
  dealtUpTo (S n) (Hand.addCards drawn hand).
Proof.
  intros (Hs & Hstd & Hsize) Hd Hl. split; [exact Hs|]. split.
  - apply Forall_app. split; assumption.
  - rewrite addCards_size. lia.
Qed.

Lemma dealPass_dealt (n : nat) (hands : list Hand.t) :
  forall s : Deck.t,
    standardShoe s -> Forall (dealtUpTo n) hands ->
    standardShoe (snd (Dealer.dealPass hands s)) /\
    Forall (dealtUpTo (S n)) (fst (Dealer.dealPass hands s)).
Proof.
  induction hands as [|hand hands IH]; intros s Hs Hh;
    cbn [Dealer.dealPass]; [split; [exact Hs|constructor]|].
  apply Forall_cons in Hh as [Hhand Hrest].
  pose proof (draw_standard 1 s Hs) as [Hdrawn Hs1].
  pose proof (draw_one s) as Hone.
  destruct (Deck.draw 1 s) as [drawn s1]. cbn [fst snd] in *.
  specialize (IH s1 Hs1 Hrest).
  destruct (Dealer.dealPass hands s1) as [rest s2]. cbn [fst snd] in *.
  destruct IH as [Hs2 Hrest']. split; [exact Hs2|].
  constructor; [|exact Hrest']. apply addCards_dealt; assumption.
Qed.

Lemma dealRound_dealt (n : nat) (hands : list Hand.t * Hand.t) (s : Deck.t) :
  standardShoe s ->
  Forall (dealtUpTo n) (fst hands) -> dealtUpTo n (snd hands) ->
  standardShoe (snd (Dealer.dealRound hands s)) /\
  Forall (dealtUpTo (S n)) (fst (fst (Dealer.dealRound hands s))) /\
  dealtUpTo (S n) (snd (fst (Dealer.dealRound hands s))).
Proof.
  intros Hs Hp Hd. unfold Dealer.dealRound.
  pose proof (dealPass_dealt n (fst hands) s Hs Hp) as [Hs1 Hp1].
  destruct (Dealer.dealPass (fst hands) s) as [playerHands s1].
  cbn [fst snd] in *.
  pose proof (draw_standard 1 s1 Hs1) as [Hdrawn Hs2].
  pose proof (draw_one s1) as Hone.
  destruct (Deck.draw 1 s1) as [drawn s2]. cbn [fst snd] in *.
  split; [exact Hs2|]. split; [exact Hp1|].
  apply addCards_dealt; assumption.
Qed.

Lemma fresh_hands_dealt (f : nat -> Q) (l : list nat) :
  Forall (dealtUpTo 0) (map (fun i => Hand.createHand false (f i)) l).
Proof.
  induction l as [|i l IH]; [constructor|]. constructor; [|exact IH].
  split; [reflexivity|]. split; [constructor|]. unfold Hand.size. simpl. lia.
Qed.

Lemma dealInitial_dealt (numPlayers : nat) (bets : list Dealer.Wager)
      (d : Dealer.t) :
  standardShoe (Dealer.shoe d) ->
  Forall (dealtUpTo 2) (fst (fst (Dealer.dealInitial numPlayers bets d))) /\
  dealtUpTo 2 (snd (fst (Dealer.dealInitial numPlayers bets d))).
Proof.
  intros Hs. unfold Dealer.dealInitial, Dealer.burnCard.
  pose proof (burn_standard 1 (Dealer.shoe d) Hs) as Hs0.
  destruct (Deck.burn 1 (Dealer.shoe d)) as [burned s0].
  cbn [fst snd Dealer.withShoe Dealer.shoe] in *.
  match goal with
  | |- context [Dealer.dealRound ?start s0] =>
      pose proof (dealRound_dealt 0 start s0 Hs0) as H1;
      destruct (Dealer.dealRound start s0) as [hands1 s1]
  end.
  cbn [fst snd] in H1.
  destruct H1 as (Hs1 & Hp1 & Hd1).
  { apply fresh_hands_dealt. }
  { split; [reflexivity|]. split; [constructor|]. unfold Hand.size. simpl. lia. }
  pose proof (dealRound_dealt 1 hands1 s1 Hs1 Hp1 Hd1) as (Hs2 & Hp2 & Hd2).
  destruct (Dealer.dealRound hands1 s1) as [hands2 s2].
  cbn [fst snd] in *. split; assumption.
Qed.

Lemma skipLoop_stops (n : nat) :
  forall (hands : list Hand.t) (idx i : nat) (hand : Hand.t),
    idx <= i -> hands !! i = Some hand -> Hand.isSettled hand = false ->
    i - idx < n ->
    skipLoop n hands idx <= i.
Proof.
  induction n as [|n IH]; intros hands idx i hand Hle Hi Hopen Hn; [lia|].
  cbn [skipLoop].
  destruct (hands !! idx) as [hand0|] eqn:E0;
    [|apply lookup_ge_None in E0; apply lookup_lt_Some in Hi; lia].
  destruct (Hand.isSettled hand0) eqn:Eset; [|exact Hle].
  assert (idx <> i) as Hne by (intros ->; congruence).
  apply (IH hands (S idx) i hand); [lia|assumption|assumption|lia].
Qed.

Lemma stateChanges_snoc (events : list Event.t) (e : Event.t) :
  stateChanges (events ++ [e])
  = stateChanges events
    ++ match e with Event.stateChange s => [s] | _ => [] end.
Proof.
  unfold stateChanges. rewrite omap_app. f_equal. destruct e; reflexivity.
Qed.

Lemma settleRound_after_deal (pHands : list Hand.t) (dHand : Hand.t) :
  Forall (dealtUpTo 2) pHands -> dealtUpTo 2 dHand ->
  Hand.isBlackjack dHand || forallb Hand.isBlackjack pHands = true ->
  Evaluator.settleRound pHands dHand
  = map (fun hand =>
           resultOf hand (verdictAfterDeal (Hand.isBlackjack dHand) hand))
        pHands.
Proof.
  intros Hp Hd Hnat. unfold Evaluator.settleRound.
  apply map_ext_in. intros hand Hin.
  assert (dealtUpTo 2 hand) as Hh.
  { apply (proj1 (Forall_forall _ _) Hp). apply list_elem_of_In. exact Hin. }
  rewrite (verdict_after_deal dHand hand Hh Hd); [reflexivity|].
  apply orb_prop in Hnat as [H|H]; [left; exact H|right].
  apply (proj1 (forallb_forall _ _) H). exact Hin.
Qed.

(** ** The engine only ever holds standard cards *)

Lemma hit_standard (hand : Hand.t) (d : Dealer.t) :
  standardShoe (Dealer.shoe d) -> standardHand hand ->
  standardShoe (Dealer.shoe (snd (Dealer.hit hand d))) /\
  standardHand (snd (fst (Dealer.hit hand d))).
Proof.
  intros Hs Hh. unfold Dealer.hit.
  pose proof (draw_standard 1 (Dealer.shoe d) Hs) as [Hdrawn Hs'].
  destruct (Deck.draw 1 (Dealer.shoe d)) as [[|card rest] s];
    cbn [fst snd Dealer.shoe Dealer.withShoe] in *; split; try assumption.
  apply Forall_cons in Hdrawn as [Hcard _].
  unfold standardHand, Hand.addCards. cbn [Hand.cards].
  apply Forall_app. split; [exact Hh|]. constructor; [exact Hcard|constructor].
Qed.

Lemma dealerLoop_standard (fuel : nat) :
  forall (hand hand' : Hand.t) (d d' : Dealer.t),
    standardShoe (Dealer.shoe d) -> standardHand hand ->
    Dealer.dealerLoop fuel hand d = Some (hand', d') ->
    standardShoe (Dealer.shoe d') /\ standardHand hand'.
Proof.
  induction fuel as [|fuel IH]; intros hand hand' d d' Hs Hh H;
    cbn [Dealer.dealerLoop] in H; [discriminate|].
  destruct (Dealer.shouldDealerHit d hand).
  - pose proof (hit_standard hand d Hs Hh) as [Hs1 Hh1].
    destruct (Dealer.hit hand d) as [[card hand1] d1]. cbn [fst snd] in *.
    exact (IH _ _ _ _ Hs1 Hh1 H).
  - injection H as <- <-. split; assumption.
Qed.

Lemma playDealerHand_standard (fuel : nat) (hand hand' : Hand.t)
      (d d' : Dealer.t) (total : Z) :
  standardShoe (Dealer.shoe d) -> standardHand hand ->
  Dealer.playDealerHand fuel hand d = Some ((total, hand'), d') ->
  standardShoe (Dealer.shoe d') /\ standardHand hand'.
Proof.
  intros Hs Hh. unfold Dealer.playDealerHand.
  destruct (Dealer.dealerLoop fuel hand d) as [[hand1 d1]|] eqn:E;
    [|discriminate].
  intros H. injection H as <- <- <-.
  exact (dealerLoop_standard fuel _ _ _ _ Hs Hh E).
Qed.

Lemma dealInitial_standard (numPlayers : nat) (bets : list Dealer.Wager)
      (d : Dealer.t) :
  standardShoe (Dealer.shoe d) ->
  standardShoe (Dealer.shoe (snd (Dealer.dealInitial numPlayers bets d))).
Proof.
  intros Hs. unfold Dealer.dealInitial, Dealer.burnCard.
  pose proof (burn_standard 1 (Dealer.shoe d) Hs) as Hs0.
  destruct (Deck.burn 1 (Dealer.shoe d)) as [burned s0].
  cbn [fst snd Dealer.withShoe Dealer.shoe] in *.
  match goal with
  | |- context [Dealer.dealRound ?start s0] =>
      pose proof (dealRound_dealt 0 start s0 Hs0) as H1;
      destruct (Dealer.dealRound start s0) as [hands1 s1]
  end.
  cbn [fst snd] in H1.
  destruct H1 as (Hs1 & Hp1 & Hd1).
  { apply fresh_hands_dealt. }
  { split; [reflexivity|]. split; [constructor|]. unfold Hand.size. simpl. lia. }
  pose proof (dealRound_dealt 1 hands1 s1 Hs1 Hp1 Hd1) as (Hs2 & Hp2 & Hd2).
  destruct (Dealer.dealRound hands1 s1) as [hands2 s2].
  cbn [fst snd Dealer.withShoe Dealer.shoe] in *. exact Hs2.
Qed.

Lemma flat_cards_standard (hands : list Hand.t) :
  Forall standardHand hands -> Forall standard (flat_map Hand.getCards hands).
Proof.
  induction 1 as [|hand hands Hh _ IH]; cbn [flat_map]; [constructor|].
  apply Forall_app. split; [exact Hh|exact IH].
Qed.

Lemma settled_standard (g : t) (dHand : Hand.t) :
  standardGame g -> standardHand dHand -> standardGame (settled dHand g).
Proof.
  intros ([Hlive Hpile] & Hp & Hd) Hh. split; [|split; assumption].
  cbn. unfold Deck.discard. split; cbn [Deck.cards Deck.discardPile].
  - exact Hlive.
  - apply Forall_app. split; [exact Hpile|].
    apply Forall_app. split; [apply flat_cards_standard, Hp|exact Hh].
Qed.

Lemma beginDealerTurn_standard (fuel : nat) (g : t) (dHand : Hand.t) :
  dealerHand g = Some dHand ->
  standardGame g -> standardGame (snd (beginDealerTurn fuel g)).
Proof.
  intros Hd Hg. rewrite (beginDealerTurn_eq fuel g dHand Hd).
  pose proof Hg as (Hs & Hp & Hdh). specialize (Hdh dHand Hd).
  destruct (forallb Hand.isBusted (playerHands g)); cbn [snd].
  - apply settled_standard; [|exact Hdh].
    split; [exact Hs|]. split; [exact Hp|].
    cbn. intros d' H. injection H as <-. exact Hdh.
  - destruct (Dealer.playDealerHand fuel dHand (dealer g))
      as [[[total dHand'] d']|] eqn:Eplay; cbn [snd].
    + destruct (playDealerHand_standard _ _ _ _ _ _ Hs Hdh Eplay) as [Hs' Hh'].
      apply settled_standard; [|exact Hh'].
      split; [exact Hs'|]. split; [exact Hp|].
      cbn. intros d0 H. injection H as <-. exact Hh'.
    + exact Hg.
Qed.

Lemma skipSettledHands_standard (fuel : nat) (g : t) (dHand : Hand.t) :
  dealerHand g = Some dHand ->
  standardGame g -> standardGame (snd (skipSettledHands fuel g)).
Proof.
  intros Hd Hg. rewrite skipSettledHands_eq.
  destruct (length (playerHands g) <=? activeHandIdx (skipped g)).
  - apply (beginDealerTurn_standard fuel (skipped g) dHand Hd). exact Hg.
  - exact Hg.
Qed.

Lemma insert_standard (hands : list Hand.t) (i : nat) (hand : Hand.t) :
  Forall standardHand hands -> standardHand hand ->
  Forall standardHand (<[i := hand]> hands).
Proof. intros Hp Hh. apply Forall_insert; assumption. Qed.

(** Every action keeps the cards standard, on a round that is in order. *)
Lemma perform_standard (total fuel : nat) (a : Action) (g : t) :
  roundInv total g -> standardGame g ->
  standardGame (snd (perform fuel a g)).
Proof.
  intros [Hc Hseat] Hg.
  destruct (permitted a g) eqn:Hguard;
    [|destruct (invalid_action_guard fuel a g Hguard) as [message ->];
      exact Hg].
  pose proof Hg as (Hs & Hp & Hdh).
  destruct a as [bets| | | | |]; cbn [perform]; cbn [permitted] in Hguard.
  - (* placeBets *)
    apply andb_prop in Hguard as [Est Hbets]. apply state_eqb_eq in Est.
    assert (bets <> []) as Hne by (destruct bets; [discriminate|congruence]).
    rewrite (placeBets_eq fuel bets g Est Hne). cbv zeta.
    pose proof (dealInitial_dealt (length bets) bets (dealer g) Hs)
      as [Hp1 Hd1].
    pose proof (dealInitial_standard (length bets) bets (dealer g) Hs) as Hs1.
    destruct (Dealer.dealInitial (length bets) bets (dealer g))
      as [[pHands dHand] d].
    cbn [fst snd] in *.
    assert (standardGame (dealtGame pHands dHand d g)) as Hg1.
    { split; [exact Hs1|]. split.
      - cbn. eapply Forall_impl; [exact Hp1|]. intros h (_ & H & _). exact H.
      - cbn. intros d0 H. injection H as <-. exact (proj1 (proj2 Hd1)). }
    destruct (Hand.isBlackjack dHand || forallb Hand.isBlackjack pHands);
      cbn [snd].
    + apply settled_standard; [exact Hg1|exact (proj1 (proj2 Hd1))].
    + apply (skipSettledHands_standard fuel _ dHand); [reflexivity|exact Hg1].
  - (* playerHit *)
    apply state_eqb_eq in Hguard.
    destruct (Hseat Hguard) as [[dHand Hd] Hidx].
    unfold playerHit. unfold bind at 1, get at 1.
    rewrite Hguard. cbn [state_eqb negb]. unfold getActiveHand.
    destruct (playerHands g !! activeHandIdx g) as [hand|] eqn:Ehand;
      [|apply lookup_ge_None in Ehand; lia].
    pose proof (hit_standard hand (dealer g) Hs
                  (Forall_lookup_1 _ _ _ _ Hp Ehand)) as [Hs1 Hh1].
    unfold dealerHit, setDealer, setActiveHand, setPlayerHands, emit, bind,
      get, modify, ret.
    destruct (Dealer.hit hand (dealer g)) as [[card hand'] d'].
    cbn [fst snd] in *.
    cbn [dealer playerHands activeHandIdx withEvent withPlayerHands withDealer].
    destruct (Hand.isBusted hand').
    + rewrite advanceHand_eq.
      apply (skipSettledHands_standard fuel _ dHand); [exact Hd|].
      split; [exact Hs1|]. split; [|exact Hdh].
      cbn. rewrite list_insert_insert_eq. apply insert_standard; assumption.
    + cbn [snd]. split; [exact Hs1|]. split; [|exact Hdh].
      cbn. apply insert_standard; assumption.
  - (* playerStand *)
    apply state_eqb_eq in Hguard.
    destruct (Hseat Hguard) as [[dHand Hd] Hidx].
    unfold playerStand. unfold bind at 1, get at 1.
    rewrite Hguard. cbn [state_eqb negb]. unfold getActiveHand.
    destruct (playerHands g !! activeHandIdx g) as [hand|] eqn:Ehand;
      [|apply lookup_ge_None in Ehand; lia].
    unfold setActiveHand, setPlayerHands, emit, bind, get, modify.
    rewrite advanceHand_eq.
    apply (skipSettledHands_standard fuel _ dHand); [exact Hd|].
    split; [exact Hs|]. split; [|exact Hdh].
    cbn. apply insert_standard; [exact Hp|].
    exact (Forall_lookup_1 _ _ _ _ Hp Ehand).
  - (* playerDoubleDown *)
    apply andb_prop in Hguard as [Est Hsize]. apply state_eqb_eq in Est.
    destruct (Hseat Est) as [[dHand Hd] Hidx].
    unfold playerDoubleDown. unfold bind at 1, get at 1.
    rewrite Est. cbn [state_eqb negb].
    destruct (getActiveHand g) as [hand|] eqn:Ehand; [|discriminate].
    unfold Hand.canDoubleDown. rewrite Hsize. cbn [negb].
    pose proof (hit_standard (Hand.doubleBet hand) (dealer g) Hs
                  (Forall_lookup_1 _ _ _ _ Hp Ehand)) as [Hs1 Hh1].
    unfold dealerHit, setDealer, setActiveHand, setPlayerHands, emit, bind,
      get, modify, ret.
    destruct (Dealer.hit (Hand.doubleBet hand) (dealer g))
      as [[card hand'] d'].
    cbn [fst snd] in *.
    cbn [dealer playerHands activeHandIdx withEvent withPlayerHands withDealer].
    destruct (Hand.isBusted (Hand.settle hand')); rewrite advanceHand_eq;
      apply (skipSettledHands_standard fuel _ dHand); try exact Hd;
      (split; [exact Hs1|]; split; [|exact Hdh]);
      cbn; apply insert_standard; assumption.
  - (* playerSplit *)
    apply andb_prop in Hguard as [Est Hpair]. apply state_eqb_eq in Est.
    destruct (Hseat Est) as [[dHand Hd] Hidx].
    destruct (getActiveHand g) as [hand|] eqn:Ehand; [|discriminate].
    destruct (Hand.cards hand) as [|c0 [|c1 [|c2 rest]]] eqn:Ecards;
      try discriminate.
    apply bool_decide_eq_true in Hpair.
    rewrite (playerSplit_eq fuel g hand c0 c1 Est Ehand Ecards Hpair).
    cbv zeta.
    pose proof (Forall_lookup_1 _ _ _ _ Hp Ehand) as Hhand.
    unfold standardHand in Hhand. rewrite Ecards in Hhand.
    apply Forall_cons in Hhand as [H0 Hhand].
    apply Forall_cons in Hhand as [H1 _].
    pose proof (hit_standard
                  (Hand.addCards [c0] (Hand.createHand false (Hand.bet hand)))
                  (dealer g) Hs) as [Hs1 HA].
    { constructor; [exact H0|constructor]. }
    destruct (Dealer.hit (Hand.addCards [c0] _) (dealer g))
      as [[cardA handA] d1].
    cbn [fst snd] in *.
    pose proof (hit_standard
                  (Hand.addCards [c1] (Hand.createHand false (Hand.bet hand)))
                  d1 Hs1) as [Hs2 HB].
    { constructor; [exact H1|constructor]. }
    destruct (Dealer.hit (Hand.addCards [c1] _) d1) as [[cardB handB] d2].
    cbn [fst snd] in *.
    apply (skipSettledHands_standard fuel _ dHand); [exact Hd|].
    split; [exact Hs2|]. split; [|exact Hdh].
    cbn. apply Forall_app. split; [apply Forall_take, Hp|].
    constructor; [exact HA|]. constructor; [exact HB|].
    apply Forall_drop, Hp.
  - (* newRound *)
    split; [exact Hs|]. split; [constructor|]. cbn. discriminate.
Qed.

Lemma createGame_standard (opts : Dealer.Opts) (r : Deck.Random) :
  standardGame (createGame opts r).
Proof.
  split; [apply reset_standard|]. split; [constructor|]. cbn. discriminate.
Qed.

Lemma run_standard (total fuel : nat) (actions : list Action) :
  forall g g' : t,
    roundInv total g -> standardGame g ->
    run fuel actions g = Some g' -> standardGame g'.
Proof.
  induction actions as [|a actions IH]; intros g g' Hinv Hg Hrun;
    cbn [run] in Hrun.
  - congruence.
  - destruct (inOrder a g) eqn:Horder; [|discriminate].
    pose proof (perform_standard total fuel a g Hinv Hg) as Hg1.
    pose proof (perform_keeps total fuel a g Hinv Horder) as [Hr|Hk];
      destruct (perform fuel a g) as [[[]|message|] g1]; cbn [fst snd] in *;
      try discriminate; eauto.
Qed.

(** Every engine reached from [createGame] holds standard cards only. *)
Lemma reached_standard (opts : Dealer.Opts) (r : Deck.Random) (fuel : nat)
      (actions : list Action) (g : t) :
  run fuel actions (createGame opts r) = Some g ->
  standardShoe (Dealer.shoe (dealer g)).
Proof.
  intros Hrun.
  exact (proj1 (run_standard _ fuel actions _ g (createGame_inv opts r)
                  (createGame_standard opts r) Hrun)).
Qed.

(** A bet placed on a shoe of standard cards: how [placeBets] ends. *)
Lemma placeBets_after_standard_deal :
  forall (fuel : nat) (bets : list Dealer.Wager) (g : t),
    state g = BETTING ->
    bets <> [] ->
    standardShoe (Dealer.shoe (dealer g)) ->
    let dealt := fst (Dealer.dealInitial (length bets) bets (dealer g)) in
    let r := placeBets fuel bets g in
    fst r = Returned tt /\
    playerHands (snd r) = fst dealt /\
    dealerHand (snd r) = Some (snd dealt) /\
    if Hand.isBlackjack (snd dealt) || forallb Hand.isBlackjack (fst dealt)
    then
      state (snd r) = GAME_OVER /\
      stateChanges (emitted (snd r))
      = stateChanges (emitted g) ++ [DEALING; SETTLEMENT; GAME_OVER] /\
      results (snd r)
      = map (fun hand =>
               resultOf hand
                 (verdictAfterDeal (Hand.isBlackjack (snd dealt)) hand))
            (fst dealt)
    else
      state (snd r) = PLAYER_TURN /\
      stateChanges (emitted (snd r))
      = stateChanges (emitted g) ++ [DEALING; PLAYER_TURN].
Proof.
  intros fuel bets g Hst Hbets Hshoe dealt r. subst r dealt.
  rewrite (placeBets_eq fuel bets g Hst Hbets). cbv zeta.
  destruct (dealInitial_dealt (length bets) bets g.(dealer) Hshoe) as [Hp Hd].
  destruct (Dealer.dealInitial (length bets) bets (dealer g))
    as [[pHands dHand] d].
  cbn [fst snd] in *.
  destruct (Hand.isBlackjack dHand || forallb Hand.isBlackjack pHands) eqn:Enat.
  - cbn [fst snd]. split; [reflexivity|]. split; [reflexivity|].
    split; [reflexivity|]. split; [reflexivity|]. split.
    + cbn. rewrite !stateChanges_snoc. cbn. rewrite <- !app_assoc. reflexivity.
    + cbn. apply settleRound_after_deal; assumption.
  - apply orb_false_elim in Enat as [_ Hall].
    assert (exists i hand, pHands !! i = Some hand /\
                           Hand.isBlackjack hand = false) as (i & hand & Hi & Hn).
    { clear -Hall. induction pHands as [|h hs IH]; [discriminate|].
      cbn in Hall. destruct (Hand.isBlackjack h) eqn:E.
      - destruct (IH Hall) as (i & hand & Hi & Hn). exists (S i), hand. auto.
      - exists 0, h. auto. }
    assert (Hand.isSettled hand = false) as Hopen.
    { assert (dealtUpTo 2 hand) as Hh
        by (exact (Forall_lookup_1 _ _ _ _ Hp Hi)).
      destruct (dealt_hand_total hand Hh) as [Hb _].
      destruct Hh as (Hs & _). unfold Hand.isSettled. rewrite Hs, Hb, Hn.
      reflexivity. }
    rewrite skipSettledHands_eq.
    pose proof (skipLoop_stops (length pHands) pHands 0 i hand
                  ltac:(lia) Hi Hopen) as Hstop.
    apply lookup_lt_Some in Hi.
    specialize (Hstop ltac:(lia)).
    cbn [playerHands activeHandIdx skipped atPlayerTurn dealtGame withEvent
         withState withResults withActiveHandIdx withDealerHand
         withPlayerHands withDealer].
    assert ((length pHands <=? skipLoop (length pHands) pHands 0) = false) as ->
      by (apply Nat.leb_gt; lia).
    cbn [fst snd]. split; [reflexivity|]. split; [reflexivity|].
    split; [reflexivity|]. split; [reflexivity|].
    cbn. rewrite !stateChanges_snoc. cbn. rewrite <- !app_assoc.
    rewrite app_nil_r. reflexivity.
Qed.


(** C4 (amended). At any point a caller can reach, a bet placed in BETTING
    with at least one wager always returns.  When the dealer hand dealt is a natural, or every player
    hand dealt is one, the round goes DEALING, SETTLEMENT, GAME_OVER and
    never PLAYER_TURN; a player hand that is not a natural loses 1, and a
    player natural pushes against a dealer natural and is paid 1.5 when
    the dealer has none.  Otherwise the bet ends in PLAYER_TURN. *)
Theorem placeBets_after_deal :
  forall (opts : Dealer.Opts) (random : Deck.Random) (fuel0 : nat)
         (actions : list Action) (g : t)
         (fuel : nat) (bets : list Dealer.Wager),
    run fuel0 actions (createGame opts random) = Some g ->
    state g = BETTING ->
    bets <> [] ->
    let dealt := fst (Dealer.dealInitial (length bets) bets (dealer g)) in
    let r := placeBets fuel bets g in
    fst r = Returned tt /\
    playerHands (snd r) = fst dealt /\
    dealerHand (snd r) = Some (snd dealt) /\
    if Hand.isBlackjack (snd dealt) || forallb Hand.isBlackjack (fst dealt)
    then
      state (snd r) = GAME_OVER /\
      stateChanges (emitted (snd r))
      = stateChanges (emitted g) ++ [DEALING; SETTLEMENT; GAME_OVER] /\
      results (snd r)
      = map (fun hand =>
               resultOf hand
                 (verdictAfterDeal (Hand.isBlackjack (snd dealt)) hand))
            (fst dealt)
    else
      state (snd r) = PLAYER_TURN /\
      stateChanges (emitted (snd r))
      = stateChanges (emitted g) ++ [DEALING; PLAYER_TURN].
Proof.
  intros opts random fuel0 actions g fuel bets Hrun Hst Hbets.
  apply placeBets_after_standard_deal; [exact Hst|exact Hbets|].
  exact (reached_standard opts random fuel0 actions g Hrun).
Qed.

Lemma placeBets_after_deal_witness :
  let g0 := createGame Dealer.defaults (Deck.mkRandom (fun k => k * 3 + 3) 0) in
  let g := default g0 (run 0 [PlaceBets [Dealer.number 10]; NewRound] g0) in
  let bets := [Dealer.number 10; Dealer.number 25] in
  let dealt := fst (Dealer.dealInitial (length bets) bets (dealer g)) in
  let r := placeBets 0 bets g in
  fst r = Returned tt /\
  playerHands (snd r) = fst dealt /\
  dealerHand (snd r) = Some (snd dealt) /\
  if Hand.isBlackjack (snd dealt) || forallb Hand.isBlackjack (fst dealt)
  then
    state (snd r) = GAME_OVER /\
    stateChanges (emitted (snd r))
    = stateChanges (emitted g) ++ [DEALING; SETTLEMENT; GAME_OVER] /\
    results (snd r)
    = map (fun hand =>
             resultOf hand
               (verdictAfterDeal (Hand.isBlackjack (snd dealt)) hand))
          (fst dealt)
  else
    state (snd r) = PLAYER_TURN /\
    stateChanges (emitted (snd r))
    = stateChanges (emitted g) ++ [DEALING; PLAYER_TURN].
Proof.
  intros g0 g bets.
  apply (placeBets_after_deal Dealer.defaults
           (Deck.mkRandom (fun k => k * 3 + 3) 0) 0
           [PlaceBets [Dealer.number 10]; NewRound] g 0 bets);
    [vm_compute; reflexivity|vm_compute; reflexivity|discriminate].
Defined.

(** With the dealer dealt [2, 3] and the only player dealt [A, 10],
    the bet goes straight to settlement and the natural is paid 1.5: it
    does not push. *)
Lemma placeBets_natural_is_paid :
  let g := createGame Dealer.defaults (Deck.mkRandom (fun k => k * 2 + 2) 0) in
  let r := placeBets 0 [Dealer.number 10] g in
  state g = BETTING /\
  fst r = Returned tt /\
  forallb Hand.isBlackjack (playerHands (snd r)) = true /\
  state (snd r) = GAME_OVER /\
  map (fun res => (Hand.isBlackjack (Evaluator.hand res),
                   Evaluator.r_outcome res, Evaluator.r_payout res))
      (results (snd r))
  = [(true, Evaluator.BLACKJACK, (3 # 2)%Q)] /\
  ~ Forall (fun res => Hand.isBlackjack (Evaluator.hand res) = true ->
                       Evaluator.r_outcome res = Evaluator.PUSH)
           (results (snd r)).
Proof.
  cbv zeta. split; [reflexivity|]. split; [vm_compute; reflexivity|].
  split; [vm_compute; reflexivity|]. split; [vm_compute; reflexivity|].
  split; [vm_compute; reflexivity|].
  intros H. apply Forall_lookup_1 with (i := 0)
    (x := default (resultOf (Hand.createHand false 0%Q)
                            (Evaluator.mkVerdict Evaluator.PUSH 0))
                  (results (snd (placeBets 0 [Dealer.number 10]
                     (createGame Dealer.defaults
                        (Deck.mkRandom (fun k => k * 2 + 2) 0)))) !! 0)) in H.
  - assert (Evaluator.BLACKJACK = Evaluator.PUSH) as Habs; [|discriminate Habs].
    etransitivity; [|apply H; vm_compute; reflexivity].
    vm_compute. reflexivity.
  - vm_compute. reflexivity.
Qed.

(** ** Split *)

Lemma hit_draw (hand : Hand.t) (d : Dealer.t) :
  length (fst (Deck.draw 1 (Dealer.shoe d))) <= 1 ->
  Dealer.hit hand d
  = ((head (fst (Deck.draw 1 (Dealer.shoe d))),
      Hand.addCards (fst (Deck.draw 1 (Dealer.shoe d))) hand),
     Dealer.withShoe (snd (Deck.draw 1 (Dealer.shoe d))) d).
Proof.
  unfold Dealer.hit.
  destruct (Deck.draw 1 (Dealer.shoe d)) as [[|card [|card' rest]] s];
    cbn [fst snd length head]; intros H; try reflexivity; try lia.
  unfold Hand.addCards. rewrite app_nil_r. destruct hand; reflexivity.
Qed.

Lemma draw_length (n : nat) (s : Deck.t) :
  length (fst (Deck.draw n s))
  = n `min` Deck.remaining
              (if Deck.needsReshuffle s then Deck.reshuffle s else s).
Proof.
  unfold Deck.draw, Deck.remaining. cbn [fst]. rewrite length_take.
  destruct (length (Deck.cards _) <? n) eqn:E;
    [apply Nat.ltb_lt in E|apply Nat.ltb_ge in E]; lia.
Qed.

(** C6 (amended). [playerSplit] throws, leaving the engine as it was,
    unless the state is PLAYER_TURN and the active hand has exactly two
    cards of equal rank.  Then it puts two hands where the active hand
    stood, in its place and the next, the other hands keeping their
    order; each is a player hand with the bet of the hand split, unsettled,
    seeded with one of its two cards and followed by what [draw(1)] yields
    for it: one card while the shoe, reshuffled if due, has one, none
    when it is exhausted.  It then looks for the active hand from the same
    index on. *)
Theorem playerSplit_in_place :
  forall (fuel : nat) (g : t),
    (permitted PlayerSplit g = false ->
     exists message : string, playerSplit fuel g = (Thrown message, g)) /\
    (forall (hand : Hand.t) (c0 c1 : Card.t),
       state g = PLAYER_TURN ->
       getActiveHand g = Some hand ->
       Hand.cards hand = [c0; c1] ->
       Card.rank c0 = Card.rank c1 ->
       let s0 := Dealer.shoe (dealer g) in
       let drawnA := fst (Deck.draw 1 s0) in
       let s1 := snd (Deck.draw 1 s0) in
       let drawnB := fst (Deck.draw 1 s1) in
       let s2 := snd (Deck.draw 1 s1) in
       let handA :=
         {| Hand.cards := c0 :: drawnA; Hand.bet := Hand.bet hand;
            Hand.isDealerHand := false; Hand.settled := false |} in
       let handB :=
         {| Hand.cards := c1 :: drawnB; Hand.bet := Hand.bet hand;
            Hand.isDealerHand := false; Hand.settled := false |} in
       let g1 := splitGame handA handB (Dealer.withShoe s2 (dealer g)) g in
       length drawnA
       = 1 `min` Deck.remaining
                   (if Deck.needsReshuffle s0 then Deck.reshuffle s0 else s0) /\
       length drawnB
       = 1 `min` Deck.remaining
                   (if Deck.needsReshuffle s1 then Deck.reshuffle s1 else s1) /\
       playerHands g1
       = take (activeHandIdx g) (playerHands g)
         ++ [handA; handB]
         ++ drop (S (activeHandIdx g)) (playerHands g) /\
       activeHandIdx g1 = activeHandIdx g /\
       state g1 = PLAYER_TURN /\
       dealerHand g1 = dealerHand g /\
       playerSplit fuel g = skipSettledHands fuel g1).
Proof.
  intros fuel g. split; [exact (invalid_action_guard fuel PlayerSplit g)|].
  intros hand c0 c1 Hst Hact Hcards Hrank s0 drawnA s1 drawnB s2 handA handB g1.
  split; [apply draw_length|]. split; [apply draw_length|].
  split; [reflexivity|]. split; [reflexivity|]. split; [exact Hst|].
  split; [reflexivity|].
  rewrite (playerSplit_eq fuel g hand c0 c1 Hst Hact Hcards Hrank). cbv zeta.
  rewrite (hit_draw _ (dealer g)) by apply draw_one.
  cbn [fst snd]. fold s0 drawnA s1.
  rewrite (hit_draw _ (Dealer.withShoe s1 (dealer g))) by apply draw_one.
  cbn [fst snd Dealer.shoe Dealer.withShoe]. fold drawnB s2.
  reflexivity.
Qed.

Lemma playerSplit_in_place_witness :
  let g :=
    snd (placeBets 0 [Dealer.number 10]
           (createGame Dealer.defaults (Deck.mkRandom (fun k => k * 10 + 10) 0)))
  in
  fst (playerSplit 0 g) = Returned tt /\
  map Hand.size (playerHands g) = [2] /\
  map Hand.size (playerHands (snd (playerSplit 0 g))) = [2; 2].
Proof.
  intros g.
  edestruct (proj2 (playerSplit_in_place 0 g)) as (_ & _ & _ & _ & _ & _ & Heq);
    [vm_compute; reflexivity|vm_compute; reflexivity|vm_compute; reflexivity
    |vm_compute; reflexivity|].
  rewrite Heq. vm_compute. repeat split.
Defined.

(** Twenty-six bets on a single deck: the deal takes the last card of the
    shoe, the burnt card included.  The first hand is a pair of threes;
    the split goes through and leaves two hands of one card each. *)
Lemma playerSplit_deals_nothing :
  let g :=
    snd (placeBets 0 (repeat (Dealer.number 10) 26)
           (createGame Dealer.defaults (Deck.mkRandom (fun k => k * 4 + 4) 0)))
  in
  state g = PLAYER_TURN /\
  activeHandIdx g = 0 /\
  permitted PlayerSplit g = true /\
  shoeCount (Dealer.shoe (dealer g)) = 0 /\
  fst (playerSplit 0 g) = Returned tt /\
  map Hand.size (take 2 (playerHands (snd (playerSplit 0 g)))) = [1; 1].
Proof. vm_compute. repeat split. Qed.

(** ** The dealer's loop on an exhausted shoe *)

Lemma shuffle_nil {A} (r : Deck.Random) :
  Deck.fisherYatesShuffle (@nil A) r = ([], r).
Proof. reflexivity. Qed.

(** With no card left, live or discarded, [hit] hands out nothing and
    leaves the shoe without a card. *)
Lemma hit_exhausted (hand : Hand.t) (d : Dealer.t) :
  Deck.cards (Dealer.shoe d) = [] ->
  Deck.discardPile (Dealer.shoe d) = [] ->
  fst (Dealer.hit hand d) = (None, hand) /\
  Deck.cards (Dealer.shoe (snd (Dealer.hit hand d))) = [] /\
  Deck.discardPile (Dealer.shoe (snd (Dealer.hit hand d))) = [] /\
  Dealer.hitsSoft17 (snd (Dealer.hit hand d)) = Dealer.hitsSoft17 d.
Proof.
  intros Hlive Hpile. unfold Dealer.hit, Deck.draw.
  assert (Deck.cards (if Deck.needsReshuffle (Dealer.shoe d)
                      then Deck.reshuffle (Dealer.shoe d) else Dealer.shoe d)
          = []
          /\ Deck.discardPile (if Deck.needsReshuffle (Dealer.shoe d)
                               then Deck.reshuffle (Dealer.shoe d)
                               else Dealer.shoe d)
             = []) as [H1 H2].
  { destruct (Deck.needsReshuffle (Dealer.shoe d)); [|split; assumption].
    unfold Deck.reshuffle. rewrite Hlive, Hpile. cbn [app].
    rewrite shuffle_nil. split; reflexivity. }
  rewrite H1, H2. cbn. auto.
Qed.

(** The loop asks for a card until the policy says stand: on an exhausted
    shoe the hand never changes, and no fuel is enough. *)
Lemma dealerLoop_starves (fuel : nat) :
  forall (hand : Hand.t) (d : Dealer.t),
    Deck.cards (Dealer.shoe d) = [] ->
    Deck.discardPile (Dealer.shoe d) = [] ->
    Dealer.shouldDealerHit d hand = true ->
    Dealer.dealerLoop fuel hand d = None.
Proof.
  induction fuel as [|fuel IH]; intros hand d Hlive Hpile Hpol;
    cbn [Dealer.dealerLoop]; [reflexivity|].
  rewrite Hpol.
  destruct (hit_exhausted hand d Hlive Hpile) as (Hr & Hl' & Hp' & Hf).
  destruct (Dealer.hit hand d) as [[card hand'] d']. cbn [fst snd] in *.
  injection Hr as -> ->.
  apply IH; [assumption|assumption|].
  unfold Dealer.shouldDealerHit in *. rewrite Hf. exact Hpol.
Qed.

(** The last stand of a round whose dealer must draw from an exhausted
    shoe does not return. *)
Lemma playerStand_starves (fuel : nat) (g : t) (hand dHand : Hand.t) :
  state g = PLAYER_TURN ->
  getActiveHand g = Some hand ->
  dealerHand g = Some dHand ->
  let g1 :=
    withActiveHandIdx (S (activeHandIdx g))
      (withEvent (Event.playerStand (activeHandIdx g))
         (withPlayerHands
            (<[activeHandIdx g := Hand.settle hand]> (playerHands g)) g)) in
  (length (playerHands g1) <=? activeHandIdx (skipped g1)) = true ->
  forallb Hand.isBusted (playerHands g1) = false ->
  Deck.cards (Dealer.shoe (dealer g)) = [] ->
  Deck.discardPile (Dealer.shoe (dealer g)) = [] ->
  Dealer.shouldDealerHit (dealer g) dHand = true ->
  fst (playerStand fuel g) = Running.
Proof.
  intros Hst Hact Hd g1 Hlast Hbust Hlive Hpile Hpol.
  assert (playerStand fuel g = skipSettledHands fuel g1) as ->.
  { unfold playerStand. unfold bind at 1, get at 1.
    rewrite Hst, Hact. reflexivity. }
  rewrite skipSettledHands_eq, Hlast.
  rewrite (beginDealerTurn_eq fuel (skipped g1) dHand Hd).
  change (playerHands (skipped g1)) with (playerHands g1). rewrite Hbust.
  change (dealer (skipped g1)) with (dealer g).
  unfold Dealer.playDealerHand.
  rewrite (dealerLoop_starves fuel dHand (dealer g) Hlive Hpile Hpol).
  reflexivity.
Qed.

(** C9 (the code at the failing input). One deck, S17; twenty-six bets
    are placed and the hands stand one after the other.  The deal takes
    every card of the shoe and leaves the dealer a single King.  After
    twenty-four stands the round is in the player's turn with one hand
    left to act; the stand on that hand starts the dealer's loop, which
    asks an empty shoe for cards and is still running whatever the fuel:
    the call never returns. *)
Theorem dealer_loop_never_returns :
  let g0 := createGame Dealer.defaults (Deck.mkRandom (fun k => k * 4 + 4) 0) in
  let actions :=
    PlaceBets (repeat (Dealer.number 10) 26) :: repeat PlayerStand 24 in
  exists g : t,
    (forall fuel : nat, run fuel actions g0 = Some g) /\
    state g = PLAYER_TURN /\
    shoeCount (Dealer.shoe (dealer g)) = 0 /\
    option_map (fun hand => map Card.rank (Hand.cards hand)) (dealerHand g)
    = Some ["K"%string] /\
    (forall fuel : nat, fst (playerStand fuel g) = Running) /\
    (forall fuel : nat, run fuel (actions ++ [PlayerStand]) g0 = None).
Proof.
  intros g0 actions.
  set (g := default g0 (run 0 actions g0)).
  assert (forall fuel : nat, run fuel actions g0 = Some g) as Hrun
    by (intros fuel; vm_compute; reflexivity).
  assert (forall fuel : nat, fst (playerStand fuel g) = Running) as Hstand.
  { intros fuel.
    eapply (playerStand_starves fuel g);
      [vm_compute; reflexivity|vm_compute; reflexivity|vm_compute; reflexivity
      |vm_compute; reflexivity|vm_compute; reflexivity|vm_compute; reflexivity
      |vm_compute; reflexivity|vm_compute; reflexivity]. }
  exists g. split; [exact Hrun|]. split; [vm_compute; reflexivity|].
  split; [vm_compute; reflexivity|]. split; [vm_compute; reflexivity|].
  split; [exact Hstand|].
  intros fuel.
  assert (forall (acts : list Action) (a b : t),
            run fuel acts a = Some b ->
            run fuel (acts ++ [PlayerStand]) a = run fuel [PlayerStand] b)
    as Happ.
  { induction acts as [|x acts IH]; intros a b H; cbn in H.
    - injection H as ->. reflexivity.
    - cbn [app run]. destruct (inOrder x a); [|discriminate].
      destruct (perform fuel x a) as [[[]|message|] a']; try discriminate;
        apply IH; exact H. }
  rewrite (Happ actions g0 g (Hrun fuel)). cbn [run inOrder perform].
  specialize (Hstand fuel).
  destruct (playerStand fuel g) as [[[]|message|] g']; cbn [fst] in Hstand;
    try discriminate. reflexivity.
Qed.

(** ** The dealer's loop on a shoe that can supply it *)

Lemma standard_hard (card : Card.t) :
  standard card ->
  (1 <= (if Card.isAce card then 1 else Card.value card))%Z /\
  Card.value card
  = ((if Card.isAce card then 1 else Card.value card)
     + (if Card.isAce card then 10 else 0))%Z.
Proof.
  intros H. apply standard_In in H.
  assert (forallb
            (fun c =>
               (1 <=? (if Card.isAce c then 1 else Card.value c))%Z
               && (Card.value c
                   =? (if Card.isAce c then 1 else Card.value c)
                      + (if Card.isAce c then 10 else 0))%Z)
            Deck.buildSingleDeck = true) as Hall by (vm_compute; reflexivity).
  pose proof (proj1 (forallb_forall _ _) Hall card H) as Hc.
  apply andb_prop in Hc as [H1 H2].
  apply Z.leb_le in H1. apply Z.eqb_eq in H2. split; assumption.
Qed.

Lemma baseSum_hardSum (cards : list Card.t) :
  Forall standard cards ->
  baseSum cards = (hardSum cards + 10 * Z.of_nat (aceCount cards))%Z.
Proof.
  induction 1 as [|card cards Hc _ IH]; [reflexivity|].
  cbn [baseSum hardSum foldr]. fold (baseSum cards) (hardSum cards).
  rewrite IH. destruct (standard_hard card Hc) as [_ Hv]. rewrite Hv at 1.
  unfold aceCount. destruct (Card.isAce card) eqn:E.
  - rewrite filter_cons_True by done. cbn [length]. lia.
  - rewrite filter_cons_False by (rewrite E; done). lia.
Qed.

Lemma hardSum_snoc (cards : list Card.t) (card : Card.t) :
  standard card -> (hardSum cards + 1 <= hardSum (cards ++ [card]))%Z.
Proof.
  intros Hc. destruct (standard_hard card Hc) as [H1 _].
  induction cards as [|c cards IH]; cbn [app hardSum foldr].
  - lia.
  - fold (hardSum cards) (hardSum (cards ++ [card])). lia.
Qed.

Lemma hardSum_nonneg (cards : list Card.t) :
  Forall standard cards -> (0 <= hardSum cards)%Z.
Proof.
  induction 1 as [|card cards Hc _ IH]; [reflexivity|].
  cbn [hardSum foldr]. fold (hardSum cards).
  destruct (standard_hard card Hc) as [H1 _]. lia.
Qed.

(** With 17 or more on the hand, every Ace at 1, the dealer stands. *)
Lemma stands_on_hard_17 (d : Dealer.t) (hand : Hand.t) :
  standardHand hand ->
  (17 <= hardSum (Hand.cards hand))%Z ->
  Dealer.shouldDealerHit d hand = false.
Proof.
  intros Hh Hhard. unfold Dealer.shouldDealerHit, Hand.value, Hand.evaluate.
  rewrite tally_spec.
  destruct (reduce_spec (aceCount (Hand.cards hand)) (baseSum (Hand.cards hand)))
    as (k & Hk & Hr & _ & _).
  rewrite Hr. cbn [Hand.total Hand.soft].
  rewrite (baseSum_hardSum _ Hh).
  destruct (_ <? 17)%Z eqn:E1; [apply Z.ltb_lt in E1; lia|].
  destruct (_ =? 17)%Z eqn:E2; [|reflexivity].
  apply Z.eqb_eq in E2.
  assert (aceCount (Hand.cards hand) - k = 0) as -> by lia. reflexivity.
Qed.

(** A shoe with a card left, live or discarded, yields a card: when the
    live shoe is empty the threshold is reached and the pile is merged. *)
Lemma draw_supplies (s : Deck.t) :
  (Deck.penetration s <= 1)%Q ->
  1 <= shoeCount s ->
  length (fst (Deck.draw 1 s)) = 1.
Proof.
  intros Hp Hcount. rewrite draw_length. unfold Deck.remaining.
  destruct (Deck.needsReshuffle s) eqn:E; cbv iota.
  - pose proof (reshuffle_count s) as Hc.
    assert (Deck.discardPile (Deck.reshuffle s) = []) as Hpile
      by (unfold Deck.reshuffle; destruct (Deck.fisherYatesShuffle _ _);
          reflexivity).
    unfold shoeCount in Hc at 1. rewrite Hpile in Hc. cbn [length] in Hc. lia.
  - unfold Deck.needsReshuffle in E. apply Z.leb_gt in E.
    assert (0 <= Qfloor (inject_Z (Z.of_nat (Deck.totalCards s))
                         * (1 - Deck.penetration s)))%Z as Hfloor.
    { change 0%Z with (Qfloor 0). apply Qfloor_resp_le.
      apply Qmult_le_0_compat.
      - change 0%Q with (inject_Z 0). rewrite <- Zle_Qle. lia.
      - apply (Qplus_le_l _ _ (Deck.penetration s)). ring_simplify.
        exact Hp. }
    lia.
Qed.

Lemma draw_penetration (n : nat) (s : Deck.t) :
  Deck.penetration (snd (Deck.draw n s)) = Deck.penetration s.
Proof.
  unfold Deck.draw. cbn [snd Deck.penetration].
  destruct (Deck.needsReshuffle s); [|reflexivity].
  unfold Deck.reshuffle. destruct (Deck.fisherYatesShuffle _ _). reflexivity.
Qed.

Lemma dealerLoop_returns (k : nat) :
  forall (hand : Hand.t) (d : Dealer.t),
    (Deck.penetration (Dealer.shoe d) <= 1)%Q ->
    standardShoe (Dealer.shoe d) ->
    standardHand hand ->
    (17 <= hardSum (Hand.cards hand) + Z.of_nat k)%Z ->
    k <= shoeCount (Dealer.shoe d) ->
    exists n : nat, n <= k /\
      hitsAgain n hand d = false /\
      forall j : nat, j < n -> hitsAgain j hand d = true.
Proof.
  induction k as [|k IH]; intros hand d Hp Hs Hh Hhard Hcount.
  - exists 0. split; [lia|]. split; [|intros j Hj; lia].
    unfold hitsAgain. cbn [hits fst snd].
    apply stands_on_hard_17; [exact Hh|lia].
  - destruct (Dealer.shouldDealerHit d hand) eqn:Epol;
      [|exists 0; split; [lia|]; split; [exact Epol|intros j Hj; lia]].
    pose proof (draw_supplies (Dealer.shoe d) Hp ltac:(lia)) as Hone.
    pose proof (hit_standard hand d Hs Hh) as [Hs1 Hh1].
    pose proof (hit_count hand d) as Hc.
    assert (Deck.penetration (Dealer.shoe (snd (Dealer.hit hand d)))
            = Deck.penetration (Dealer.shoe d)) as Hp1.
    { rewrite hit_draw by lia. cbn [snd Dealer.shoe Dealer.withShoe].
      apply draw_penetration. }
    assert (hardSum (Hand.cards hand) + 1
            <= hardSum (Hand.cards (snd (fst (Dealer.hit hand d)))))%Z
      as Hgrow.
    { rewrite hit_draw by lia. cbn [fst snd].
      pose proof (draw_standard 1 (Dealer.shoe d) Hs) as [Hdrawn _].
      destruct (fst (Deck.draw 1 (Dealer.shoe d))) as [|card [|c rest]];
        try discriminate.
      apply Forall_cons in Hdrawn as [Hcard _].
      cbn [Hand.addCards Hand.cards]. apply hardSum_snoc, Hcard. }
    assert (Hand.size (snd (fst (Dealer.hit hand d))) = Hand.size hand + 1)
      as Hsize.
    { rewrite hit_draw by lia. cbn [fst snd]. rewrite addCards_size. lia. }
    destruct (Dealer.hit hand d) as [[card hand1] d1] eqn:Ehit.
    cbn [fst snd] in *.
    destruct (IH hand1 d1) as (n & Hn & Hstop & Hbefore);
      [rewrite Hp1; exact Hp|exact Hs1|exact Hh1|lia|lia|].
    exists (S n). split; [lia|]. unfold hitsAgain in *. split.
    + rewrite hits_S, Ehit. exact Hstop.
    + intros [|j] Hj; [exact Epol|].
      rewrite hits_S, Ehit. apply Hbefore. lia.
Qed.

(** X1. On a shoe of standard cards with a penetration of at most 1 that
    holds 17 cards or more, live or discarded, [playDealerHand] returns
    for a standard hand: the policy says stand after 17 hits at most, so
    any fuel above 17 is enough. *)
Theorem dealer_loop_returns :
  forall (fuel : nat) (hand : Hand.t) (d : Dealer.t),
    (Deck.penetration (Dealer.shoe d) <= 1)%Q ->
    standardShoe (Dealer.shoe d) ->
    standardHand hand ->
    17 <= shoeCount (Dealer.shoe d) ->
    17 < fuel ->
    exists n : nat,
      n <= 17 /\
      Dealer.playDealerHand fuel hand d
      = Some ((Hand.htotal (fst (hits n hand d)),
               Hand.settle (fst (hits n hand d))),
              snd (hits n hand d)).
Proof.
  intros fuel hand d Hp Hs Hh Hcount Hfuel.
  destruct (dealerLoop_returns 17 hand d Hp Hs Hh) as (n & Hn & Hstop & Hbefore);
    [pose proof (hardSum_nonneg _ Hh); lia|exact Hcount|].
  exists n. split; [exact Hn|]. unfold Dealer.playDealerHand.
  rewrite (dealerLoop_complete n hand d fuel Hbefore Hstop ltac:(lia)).
  destruct (hits n hand d) as [h1 d1]. reflexivity.
Qed.

Lemma dealer_loop_returns_witness :
  exists n : nat,
    n <= 17 /\
    Dealer.playDealerHand 18
      (Hand.addCards [Card.createCard Card.two Card.Hearts]
                     (Hand.createHand true 0%Q))
      (Dealer.createDealer Dealer.defaults (Deck.mkRandom id 0))
    = Some ((Hand.htotal
               (fst (hits n
                       (Hand.addCards [Card.createCard Card.two Card.Hearts]
                                      (Hand.createHand true 0%Q))
                       (Dealer.createDealer Dealer.defaults
                          (Deck.mkRandom id 0)))),
             Hand.settle
               (fst (hits n
                       (Hand.addCards [Card.createCard Card.two Card.Hearts]
                                      (Hand.createHand true 0%Q))
                       (Dealer.createDealer Dealer.defaults
                          (Deck.mkRandom id 0))))),
            snd (hits n
                   (Hand.addCards [Card.createCard Card.two Card.Hearts]
                                  (Hand.createHand true 0%Q))
                   (Dealer.createDealer Dealer.defaults (Deck.mkRandom id 0)))).
Proof.
  apply (dealer_loop_returns 18).
  - vm_compute. discriminate.
  - apply reset_standard.
  - constructor; [|constructor]. vm_compute. apply list_elem_of_In. vm_compute. tauto.
  - vm_compute. lia.
  - lia.
Defined.

(** ** The shuffle is a permutation *)

(** X2. Whatever the random source yields, [fisherYatesShuffle] returns
    a permutation of the array it is given, and consumes one random
    number for every index from the last down to 1. *)
Theorem fisherYatesShuffle_permutes :
  forall (A : Type) (arr : list A) (r : Deck.Random),
    fst (Deck.fisherYatesShuffle arr r) ≡ₚ arr /\
    Deck.calls (snd (Deck.fisherYatesShuffle arr r))
    = Deck.calls r + (length arr - 1).
Proof. intros A arr r. apply shuffleLoop_perm. Qed.

(** ** More on the hand value *)

(** X4. The total that [evaluate] returns is one of the values the hand
    can take, an Ace counting 11 or 1: when some of them are 21 or less
    it is the greatest of those, and otherwise it is the least of all,
    every Ace counting 1. *)
Theorem evaluate_best_total :
  forall cards : list Card.t,
    let total := Hand.total (Hand.evaluate cards) in
    (exists k : nat,
       k <= aceCount cards /\ total = (baseSum cards - 10 * Z.of_nat k)%Z) /\
    ((exists j : nat,
        j <= aceCount cards /\ (baseSum cards - 10 * Z.of_nat j <= 21)%Z) ->
     (total <= 21)%Z /\
     forall j : nat,
       j <= aceCount cards ->
       (baseSum cards - 10 * Z.of_nat j <= 21)%Z ->
       (baseSum cards - 10 * Z.of_nat j <= total)%Z) /\
    ((forall j : nat,
        j <= aceCount cards -> (21 < baseSum cards - 10 * Z.of_nat j)%Z) ->
     total = (baseSum cards - 10 * Z.of_nat (aceCount cards))%Z /\
     forall j : nat,
       j <= aceCount cards -> (total <= baseSum cards - 10 * Z.of_nat j)%Z).
Proof.
  intros cards total. subst total. unfold Hand.evaluate. rewrite tally_spec.
  destruct (reduce_spec (aceCount cards) (baseSum cards))
    as (k & Hk & Hr & Hlt & Hstop).
  rewrite Hr. cbn [Hand.total].
  split; [exists k; split; [exact Hk|reflexivity]|]. split.
  - intros (j & Hj & Hlow).
    assert (k <= j) as Hkj.
    { destruct (le_lt_dec k j) as [H|H]; [exact H|].
      specialize (Hlt j H). lia. }
    assert (baseSum cards - 10 * Z.of_nat k <= 21)%Z as Hfit.
    { destruct (le_lt_dec (aceCount cards) k) as [H|H]; [|exact (Hstop H)].
      assert (k = j) as -> by lia. exact Hlow. }
    split; [exact Hfit|].
    intros i Hi Hilow.
    destruct (le_lt_dec k i) as [H|H]; [lia|]. specialize (Hlt i H). lia.
  - intros Hall.
    assert (k = aceCount cards) as ->.
    { destruct (le_lt_dec (aceCount cards) k) as [H|H]; [lia|].
      specialize (Hstop H). specialize (Hall k Hk). lia. }
    split; [reflexivity|]. intros j Hj. lia.
Qed.

Lemma baseSum_perm (cards cards' : list Card.t) :
  cards ≡ₚ cards' -> baseSum cards = baseSum cards'.
Proof.
  induction 1 as [|c l l' _ IH|c c' l|l l' l'' _ IH1 _ IH2];
    cbn [baseSum foldr]; try fold (baseSum l); try fold (baseSum l'); lia.
Qed.

Lemma aceCount_perm (cards cards' : list Card.t) :
  cards ≡ₚ cards' -> aceCount cards = aceCount cards'.
Proof. intros H. unfold aceCount. rewrite H. reflexivity. Qed.

(** X5. The value of a hand does not depend on the order in which its
    cards were dealt. *)
Theorem evaluate_order_independent :
  forall cards cards' : list Card.t,
    cards ≡ₚ cards' -> Hand.evaluate cards = Hand.evaluate cards'.
Proof.
  intros cards cards' H. unfold Hand.evaluate. rewrite !tally_spec.
  rewrite (baseSum_perm _ _ H), (aceCount_perm _ _ H). reflexivity.
Qed.

Lemma evaluate_order_independent_witness :
  Hand.evaluate [Card.createCard Card.ace Card.Spades;
                 Card.createCard Card.six Card.Hearts;
                 Card.createCard Card.ten Card.Clubs]
  = Hand.evaluate [Card.createCard Card.ten Card.Clubs;
                   Card.createCard Card.ace Card.Spades;
                   Card.createCard Card.six Card.Hearts].
Proof.
  apply evaluate_order_independent. symmetry.
  exact (Permutation_cons_append
           [Card.createCard Card.ace Card.Spades;
            Card.createCard Card.six Card.Hearts]
           (Card.createCard Card.ten Card.Clubs)).
Defined.

Lemma hardSum_aces (cards : list Card.t) :
  Forall standard cards -> (Z.of_nat (aceCount cards) <= hardSum cards)%Z.
Proof.
  induction 1 as [|card cards Hc _ IH]; [reflexivity|].
  cbn [hardSum foldr]. fold (hardSum cards).
  destruct (standard_hard card Hc) as [H1 _].
  unfold aceCount in *. destruct (Card.isAce card) eqn:E.
  - rewrite filter_cons_True by done. cbn [length]. lia.
  - rewrite filter_cons_False by (rewrite E; done). lia.
Qed.

Lemma hardSum_app (cards more : list Card.t) :
  hardSum (cards ++ more) = (hardSum cards + hardSum more)%Z.
Proof.
  induction cards as [|c cards IH]; cbn [app hardSum foldr].
  - fold (hardSum more). lia.
  - fold (hardSum (cards ++ more)) (hardSum cards). lia.
Qed.

(** The value of a hand of standard cards, by its count with every Ace
    at 1: ten more when there is an Ace and the ten fit. *)
Lemma evaluate_standard (cards : list Card.t) :
  Forall standard cards ->
  Hand.evaluate cards
  = if (0 <? aceCount cards) && (hardSum cards + 10 <=? 21)%Z
    then Hand.mkValue (hardSum cards + 10) true
    else Hand.mkValue (hardSum cards) false.
Proof.
  intros Hstd. unfold Hand.evaluate. rewrite tally_spec.
  destruct (reduce_spec (aceCount cards) (baseSum cards))
    as (k & Hk & Hr & Hlt & Hstop).
  rewrite Hr. rewrite (baseSum_hardSum _ Hstd) in *.
  pose proof (hardSum_aces _ Hstd) as Hfloor.
  destruct (Nat.eq_dec k (aceCount cards)) as [->|Hne].
  - (* every Ace counts 1 *)
    rewrite Nat.sub_diag.
    assert ((0 <? aceCount cards) && (hardSum cards + 10 <=? 21)%Z = false)
      as ->.
    { destruct (aceCount cards) as [|n] eqn:En; [reflexivity|].
      cbn [Nat.ltb Nat.leb andb]. apply Z.leb_gt.
      specialize (Hlt n ltac:(lia)). lia. }
    cbn [Nat.ltb Nat.leb]. f_equal. lia.
  - (* one Ace counts 11 *)
    specialize (Hstop ltac:(lia)).
    assert (aceCount cards - k = 1) as Hone by lia.
    assert ((0 <? aceCount cards) && (hardSum cards + 10 <=? 21)%Z = true)
      as ->.
    { apply andb_true_intro. split; [apply Nat.ltb_lt; lia|].
      apply Z.leb_le. lia. }
    rewrite Hone. cbn [Nat.ltb Nat.leb]. f_equal. lia.
Qed.

(** X6. For a hand of standard cards, [evaluate] is the usual rule: the
    total is the count with every Ace at 1, plus 10 when the hand has an
    Ace and the sum stays at 21 or less, and [soft] says that the 10 were
    added; so at most one Ace ever counts 11, the hand is busted exactly
    when its count with every Ace at 1 exceeds 21, and a busted hand
    stays busted whatever standard cards are added to it. *)
Theorem evaluate_standard_hand :
  forall cards : list Card.t,
    Forall standard cards ->
    (Hand.evaluate cards
     = if (0 <? aceCount cards) && (hardSum cards + 10 <=? 21)%Z
       then Hand.mkValue (hardSum cards + 10) true
       else Hand.mkValue (hardSum cards) false) /\
    ((21 <? Hand.total (Hand.evaluate cards))%Z = true
     <-> (21 < hardSum cards)%Z) /\
    (forall more : list Card.t,
       Forall standard more ->
       (21 <? Hand.total (Hand.evaluate cards))%Z = true ->
       (21 <? Hand.total (Hand.evaluate (cards ++ more)))%Z = true).
Proof.
  intros cards Hstd.
  assert (forall l : list Card.t,
            Forall standard l ->
            ((21 <? Hand.total (Hand.evaluate l))%Z = true
             <-> (21 < hardSum l)%Z)) as Hbust.
  { intros l Hl. rewrite (evaluate_standard l Hl).
    destruct ((0 <? aceCount l) && (hardSum l + 10 <=? 21)%Z) eqn:E;
      cbn [Hand.total]; rewrite Z.ltb_lt; [|tauto].
    apply andb_prop in E as [_ E]. apply Z.leb_le in E. lia. }
  split; [exact (evaluate_standard cards Hstd)|].
  split; [exact (Hbust cards Hstd)|].
  intros more Hmore Hb.
  apply Hbust; [apply Forall_app; split; assumption|].
  apply (Hbust cards Hstd) in Hb.
  rewrite hardSum_app. pose proof (hardSum_nonneg more Hmore). lia.
Qed.

Lemma evaluate_standard_hand_witness :
  (Hand.evaluate (Deck.buildShoe 1)
   = if (0 <? aceCount (Deck.buildShoe 1))
        && (hardSum (Deck.buildShoe 1) + 10 <=? 21)%Z
     then Hand.mkValue (hardSum (Deck.buildShoe 1) + 10) true
     else Hand.mkValue (hardSum (Deck.buildShoe 1)) false) /\
  ((21 <? Hand.total (Hand.evaluate (Deck.buildShoe 1)))%Z = true
   <-> (21 < hardSum (Deck.buildShoe 1))%Z) /\
  (forall more : list Card.t,
     Forall standard more ->
     (21 <? Hand.total (Hand.evaluate (Deck.buildShoe 1)))%Z = true ->
     (21 <? Hand.total (Hand.evaluate (Deck.buildShoe 1 ++ more)))%Z = true).
Proof.
  apply (evaluate_standard_hand (Deck.buildShoe 1)).
  apply buildShoe_standard.
Defined.

(** X7. Among hands of standard cards, the naturals are exactly the hands
    of two cards that are an Ace and a card worth 10, in either order;
    a natural is soft and is not busted. *)
Theorem blackjack_is_ace_and_ten :
  forall hand : Hand.t,
    Forall standard (Hand.cards hand) ->
    (Hand.isBlackjack hand = true <->
     exists c0 c1 : Card.t,
       Hand.cards hand = [c0; c1] /\
       ((Card.isAce c0 = true /\ Card.value c1 = 10%Z) \/
        (Card.value c0 = 10%Z /\ Card.isAce c1 = true))) /\
    (Hand.isBlackjack hand = true ->
     Hand.isSoft hand = true /\ Hand.isBusted hand = false).
Proof.
  intros hand Hstd.
  assert (forall c0 c1 : Card.t,
            standard c0 -> standard c1 ->
            ((Hand.total (Hand.evaluate [c0; c1]) =? 21)%Z
             = (Card.isAce c0 && (Card.value c1 =? 10)%Z)
               || ((Card.value c0 =? 10)%Z && Card.isAce c1)) /\
            ((Hand.total (Hand.evaluate [c0; c1]) =? 21)%Z = true ->
             Hand.soft (Hand.evaluate [c0; c1]) = true)) as Hpairs.
  { intros c0 c1 H0 H1. apply standard_In in H0, H1.
    assert (forallb
              (fun a =>
                 forallb
                   (fun b =>
                      Bool.eqb
                        (Hand.total (Hand.evaluate [a; b]) =? 21)%Z
                        ((Card.isAce a && (Card.value b =? 10)%Z)
                         || ((Card.value a =? 10)%Z && Card.isAce b))
                      && (negb (Hand.total (Hand.evaluate [a; b]) =? 21)%Z
                          || Hand.soft (Hand.evaluate [a; b])))
                   Deck.buildSingleDeck)
              Deck.buildSingleDeck = true) as Hall
      by (vm_compute; reflexivity).
    pose proof (proj1 (forallb_forall _ _)
                  (proj1 (forallb_forall _ _) Hall c0 H0) c1 H1) as Hc.
    apply andb_prop in Hc as [Heq Hsoft]. apply Bool.eqb_prop in Heq.
    split; [exact Heq|]. intros H21. rewrite H21 in Hsoft. exact Hsoft. }
  unfold Hand.isBlackjack, Hand.isSoft, Hand.isBusted, Hand.htotal.
  destruct (Hand.cards hand) as [|c0 [|c1 [|c2 rest]]] eqn:Ecards;
    cbn [length Nat.eqb andb].
  1,2,4: split; [split; [discriminate|]|discriminate];
         intros (a & b & Hab & _); discriminate.
  apply Forall_cons in Hstd as [H0 Hstd]. apply Forall_cons in Hstd as [H1 _].
  destruct (Hpairs c0 c1 H0 H1) as [Heq Hsoft]. split.
  - rewrite Heq. split.
    + intros H. exists c0, c1. split; [reflexivity|].
      apply orb_prop in H as [H|H]; apply andb_prop in H as [Ha Hb];
        [left|right]; split; try assumption; apply Z.eqb_eq; assumption.
    + intros (a & b & Hab & H). injection Hab as <- <-.
      destruct H as [[Ha Hb]|[Ha Hb]]; rewrite Ha, Hb; cbn;
        [reflexivity|apply orb_true_r].
  - intros H21. split; [exact (Hsoft H21)|].
    apply Z.eqb_eq in H21. rewrite H21. reflexivity.
Qed.

Lemma blackjack_is_ace_and_ten_witness :
  (Hand.isBlackjack
     (handOf [Card.createCard Card.king Card.Hearts;
              Card.createCard Card.ace Card.Spades]) = true <->
   exists c0 c1 : Card.t,
     Hand.cards (handOf [Card.createCard Card.king Card.Hearts;
                         Card.createCard Card.ace Card.Spades])
     = [c0; c1] /\
     ((Card.isAce c0 = true /\ Card.value c1 = 10%Z) \/
      (Card.value c0 = 10%Z /\ Card.isAce c1 = true))) /\
  (Hand.isBlackjack
     (handOf [Card.createCard Card.king Card.Hearts;
              Card.createCard Card.ace Card.Spades]) = true ->
   Hand.isSoft (handOf [Card.createCard Card.king Card.Hearts;
                        Card.createCard Card.ace Card.Spades]) = true /\
   Hand.isBusted (handOf [Card.createCard Card.king Card.Hearts;
                          Card.createCard Card.ace Card.Spades]) = false).
Proof.
  apply (blackjack_is_ace_and_ten
           (handOf [Card.createCard Card.king Card.Hearts;
                    Card.createCard Card.ace Card.Spades])).
  repeat constructor; apply list_elem_of_In; vm_compute; tauto.
Defined.

(** ** What the dealer ends with *)

Lemma standard_hard_le (card : Card.t) :
  standard card -> ((if Card.isAce card then 1 else Card.value card) <= 10)%Z.
Proof.
  intros H. apply standard_In in H. apply Z.leb_le. revert card H.
  apply forallb_forall. vm_compute. reflexivity.
Qed.

Lemma total_bounds (cards : list Card.t) :
  Forall standard cards ->
  (hardSum cards <= Hand.total (Hand.evaluate cards))%Z /\
  (Hand.total (Hand.evaluate cards) <= Z.max 21 (hardSum cards))%Z /\
  (Hand.soft (Hand.evaluate cards) = true ->
   Hand.total (Hand.evaluate cards) = (hardSum cards + 10)%Z).
Proof.
  intros Hstd. rewrite (evaluate_standard cards Hstd).
  destruct ((0 <? aceCount cards) && (hardSum cards + 10 <=? 21)%Z) eqn:E;
    cbn [Hand.total Hand.soft].
  - apply andb_prop in E as [_ E]. apply Z.leb_le in E.
    split; [lia|]. split; [lia|reflexivity].
  - split; [lia|]. split; [lia|discriminate].
Qed.

(** A hand on which the policy says hit counts 16 at most, every Ace
    at 1. *)
Lemma hits_below_hard_17 (d : Dealer.t) (hand : Hand.t) :
  standardHand hand ->
  Dealer.shouldDealerHit d hand = true ->
  (hardSum (Hand.cards hand) <= 16)%Z.
Proof.
  intros Hh Hpol.
  destruct (Z_le_gt_dec (hardSum (Hand.cards hand)) 16) as [H|H]; [exact H|].
  rewrite (stands_on_hard_17 d hand Hh) in Hpol by lia. discriminate.
Qed.

Lemma hit_appends (hand : Hand.t) (d : Dealer.t) :
  exists drawn : list Card.t,
    length drawn <= 1 /\
    Hand.cards (snd (fst (Dealer.hit hand d))) = Hand.cards hand ++ drawn /\
    Hand.bet (snd (fst (Dealer.hit hand d))) = Hand.bet hand /\
    Hand.settled (snd (fst (Dealer.hit hand d))) = Hand.settled hand /\
    Hand.isDealerHand (snd (fst (Dealer.hit hand d))) = Hand.isDealerHand hand /\
    (standardShoe (Dealer.shoe d) -> Forall standard drawn).
Proof.
  exists (fst (Deck.draw 1 (Dealer.shoe d))).
  pose proof (draw_one (Dealer.shoe d)) as Hone.
  rewrite (hit_draw hand d Hone). cbn [fst snd].
  split; [exact Hone|]. repeat split.
  intros Hs. exact (proj1 (draw_standard 1 (Dealer.shoe d) Hs)).
Qed.

Lemma dealerLoop_result (fuel : nat) :
  forall (hand hand' : Hand.t) (d d' : Dealer.t),
    Dealer.dealerLoop fuel hand d = Some (hand', d') ->
    Dealer.shouldDealerHit d' hand' = false /\
    Dealer.hitsSoft17 d' = Dealer.hitsSoft17 d /\
    (exists drawn : list Card.t,
       Hand.cards hand' = Hand.cards hand ++ drawn /\
       (standardShoe (Dealer.shoe d) -> Forall standard drawn)) /\
    Hand.bet hand' = Hand.bet hand /\
    Hand.settled hand' = Hand.settled hand /\
    (standardShoe (Dealer.shoe d) -> standardHand hand ->
     (Hand.htotal hand <= 26)%Z -> (Hand.htotal hand' <= 26)%Z).
Proof.
  induction fuel as [|fuel IH]; intros hand hand' d d' H;
    cbn [Dealer.dealerLoop] in H; [discriminate|].
  destruct (Dealer.shouldDealerHit d hand) eqn:Epol.
  - destruct (hit_appends hand d) as (drawn & Hone & Hcards & Hbet & Hset & _ & Hstd).
    pose proof (hit_standard hand d) as Hkeep.
    assert (Dealer.hitsSoft17 (snd (Dealer.hit hand d)) = Dealer.hitsSoft17 d)
      as Hflag.
    { rewrite (hit_draw hand d (draw_one _)). reflexivity. }
    assert (standardShoe (Dealer.shoe d) ->
            standardShoe (Dealer.shoe (snd (Dealer.hit hand d)))) as Hshoe'.
    { intros Hs. rewrite (hit_draw hand d (draw_one _)).
      exact (proj2 (draw_standard 1 (Dealer.shoe d) Hs)). }
    destruct (Dealer.hit hand d) as [[card hand1] d1]. cbn [fst snd] in *.
    destruct (IH _ _ _ _ H) as (Hstop & Hf & (more & Hmore & Hmstd) & Hb & Hs & Hbound).
    split; [exact Hstop|]. split; [congruence|]. split; [|split; [congruence|]].
    + exists (drawn ++ more). rewrite Hmore, Hcards, app_assoc.
      split; [reflexivity|]. intros Hshoe. apply Forall_app.
      split; [exact (Hstd Hshoe)|]. apply Hmstd, Hshoe', Hshoe.
    + split; [congruence|]. intros Hshoe Hh _.
      destruct (Hkeep Hshoe Hh) as [Hshoe1 Hh1].
      apply (Hbound Hshoe1 Hh1).
      pose proof (hits_below_hard_17 d hand Hh Epol) as Hlow.
      destruct (total_bounds _ Hh1) as (_ & Hup & _).
      unfold Hand.htotal. unfold standardHand in Hh1.
      rewrite Hcards in *. rewrite hardSum_app in Hup.
      assert (hardSum drawn <= 10)%Z as Hd10.
      { specialize (Hstd Hshoe).
        destruct drawn as [|c [|c' rest]]; cbn [length] in Hone; try lia.
        - cbn. lia.
        - apply Forall_cons in Hstd as [Hc _].
          pose proof (standard_hard_le c Hc). cbn [hardSum foldr]. lia. }
      lia.
  - injection H as <- <-. split; [exact Epol|]. split; [reflexivity|].
    split; [exists []; rewrite app_nil_r; split; [reflexivity|constructor]|].
    split; [reflexivity|]. split; [reflexivity|]. intros _ _ H. exact H.
Qed.

(** X8. When [playDealerHand] returns, the dealer has 17 or more, and not
    a soft 17 when [dealerHitsSoft17] is set; the hand is the hand given,
    with the cards drawn appended, marked settled, and the value returned
    is its total.  On standard cards, a hand that started at 26 or less
    ends at 26 or less. *)
Theorem dealer_ends_at_17_or_more :
  forall (fuel : nat) (hand hand' : Hand.t) (d d' : Dealer.t) (total : Z),
    Dealer.playDealerHand fuel hand d = Some ((total, hand'), d') ->
    (17 <= total)%Z /\
    total = Hand.htotal hand' /\
    (Dealer.hitsSoft17 d = true ->
     ~ (total = 17%Z /\ Hand.isSoft hand' = true)) /\
    Hand.settled hand' = true /\
    (exists drawn : list Card.t,
       Hand.cards hand' = Hand.cards hand ++ drawn /\
       (standardShoe (Dealer.shoe d) -> Forall standard drawn)) /\
    (standardShoe (Dealer.shoe d) -> standardHand hand ->
     (Hand.htotal hand <= 26)%Z -> (total <= 26)%Z).
Proof.
  intros fuel hand hand' d d' total. unfold Dealer.playDealerHand.
  destruct (Dealer.dealerLoop fuel hand d) as [[h1 d1]|] eqn:Eloop;
    [|discriminate].
  intros H. injection H as <- <- <-.
  destruct (dealerLoop_result fuel _ _ _ _ Eloop)
    as (Hstop & Hflag & Hdrawn & _ & _ & Hbound).
  change (Hand.htotal (Hand.settle h1)) with (Hand.htotal h1).
  change (Hand.isSoft (Hand.settle h1)) with (Hand.isSoft h1).
  change (Hand.cards (Hand.settle h1)) with (Hand.cards h1).
  unfold Dealer.shouldDealerHit, Hand.value in Hstop.
  unfold Hand.htotal, Hand.isSoft.
  destruct (Hand.total (Hand.evaluate (Hand.cards h1)) <? 17)%Z eqn:E1;
    [discriminate|]. apply Z.ltb_ge in E1.
  split; [exact E1|]. split; [reflexivity|]. split.
  - intros Hh17 [H17 Hsoft]. rewrite Hflag, Hh17, H17, Hsoft in Hstop.
    discriminate.
  - split; [reflexivity|]. split; [exact Hdrawn|exact Hbound].
Qed.

Lemma dealer_ends_at_17_or_more_witness :
  exists (total : Z) (hand' : Hand.t) (d' : Dealer.t),
    Dealer.playDealerHand 18
      (Hand.addCards [Card.createCard Card.two Card.Hearts]
                     (Hand.createHand true 0%Q))
      (Dealer.createDealer Dealer.defaults (Deck.mkRandom id 0))
    = Some ((total, hand'), d') /\
    (17 <= total)%Z /\ Hand.settled hand' = true.
Proof.
  destruct (Dealer.playDealerHand 18
              (Hand.addCards [Card.createCard Card.two Card.Hearts]
                             (Hand.createHand true 0%Q))
              (Dealer.createDealer Dealer.defaults (Deck.mkRandom id 0)))
    as [[[total hand'] d']|] eqn:E; [|vm_compute in E; discriminate E].
  exists total, hand', d'. split; [reflexivity|].
  destruct (dealer_ends_at_17_or_more _ _ _ _ _ _ E) as (H17 & _ & _ & Hs & _).
  split; assumption.
Defined.

(** ** Outcomes are monotone *)

Lemma natural_total (hand : Hand.t) :
  Hand.isBlackjack hand = true -> Hand.htotal hand = 21%Z.
Proof.
  unfold Hand.isBlackjack. intros H. apply andb_prop in H as [_ H].
  apply Z.eqb_eq. exact H.
Qed.

(** Case analysis on the comparisons of totals left in the goal, closing
    the contradictory cases as they appear. *)
Ltac split_totals :=
  repeat match goal with
         | |- context [(?x <? ?y)%Z] =>
             destruct (Z.ltb_spec x y); try lia
         end;
  cbn [Evaluator.payout];
  try (unfold Qle; cbn; lia).

(** X9. A better player hand never pays less, and a better dealer hand
    never pays more.  Against the same dealer hand, a player hand that is
    not busted pays at least as much as a busted one, and at least as much
    as one of a lower or equal total, provided it is a natural when the
    other one is.  Against the same player hand, a dealer hand that is not
    busted leaves the player at most what a busted dealer hand leaves, and
    at most what a dealer hand of a lower or equal total leaves, provided
    it is a natural when the other one is. *)
Theorem better_hand_never_pays_less :
  (forall player player' dealer : Hand.t,
     Hand.isBusted player' = false ->
     Hand.isBusted player = true \/
     ((Hand.htotal player <= Hand.htotal player')%Z /\
      (Hand.isBlackjack player = true -> Hand.isBlackjack player' = true)) ->
     (Evaluator.payout (Evaluator.compareHands player dealer)
      <= Evaluator.payout (Evaluator.compareHands player' dealer))%Q) /\
  (forall player dealer dealer' : Hand.t,
     Hand.isBusted dealer' = false ->
     Hand.isBusted dealer = true \/
     (Hand.htotal dealer <= Hand.htotal dealer')%Z ->
     (Hand.isBlackjack dealer = true -> Hand.isBlackjack dealer' = true) ->
     (Evaluator.payout (Evaluator.compareHands player dealer')
      <= Evaluator.payout (Evaluator.compareHands player dealer))%Q).
Proof.
  split.
  - intros player player' dealer Hok Hbetter.
    pose proof (natural_total player) as Hp.
    pose proof (natural_total player') as Hp'.
    pose proof (natural_total dealer) as Hd.
    unfold Evaluator.compareHands, Hand.isBusted in *.
    set (pT := Hand.htotal player) in *.
    set (pT' := Hand.htotal player') in *.
    set (dT := Hand.htotal dealer) in *.
    set (pN := Hand.isBlackjack player) in *.
    set (pN' := Hand.isBlackjack player') in *.
    set (dN := Hand.isBlackjack dealer) in *.
    clearbody pT pT' dT pN pN' dN.
    apply Z.ltb_ge in Hok.
    rewrite Z.ltb_lt in Hbetter.
    destruct pN, pN', dN;
      try specialize (Hp eq_refl); try specialize (Hp' eq_refl);
      try specialize (Hd eq_refl);
      destruct Hbetter as [Hb|[Hle Hn]];
      try (specialize (Hn eq_refl); discriminate Hn);
      subst; split_totals.
  - intros player dealer dealer' Hok Hbetter Hn.
    pose proof (natural_total player) as Hp.
    pose proof (natural_total dealer) as Hd.
    pose proof (natural_total dealer') as Hd'.
    unfold Evaluator.compareHands, Hand.isBusted in *.
    set (pT := Hand.htotal player) in *.
    set (dT := Hand.htotal dealer) in *.
    set (dT' := Hand.htotal dealer') in *.
    set (pN := Hand.isBlackjack player) in *.
    set (dN := Hand.isBlackjack dealer) in *.
    set (dN' := Hand.isBlackjack dealer') in *.
    clearbody pT dT dT' pN dN dN'.
    apply Z.ltb_ge in Hok.
    rewrite Z.ltb_lt in Hbetter.
    destruct pN, dN, dN';
      try specialize (Hp eq_refl); try specialize (Hd eq_refl);
      try specialize (Hd' eq_refl);
      try (specialize (Hn eq_refl); discriminate Hn);
      destruct Hbetter as [Hb|Hle];
      subst; split_totals.
Qed.

(** ** The table between two calls *)

Lemma run_play (fuel : nat) (actions : list Action) :
  forall g g' : t,
    run fuel actions g = Some g' -> play fuel actions g = Some g'.
Proof.
  induction actions as [|a actions IH]; intros g g' H; cbn in *; [exact H|].
  destruct (inOrder a g); [|discriminate].
  destruct (perform fuel a g) as [[[]|message|] g1]; auto.
Qed.

Lemma skipLoop_spec (n : nat) :
  forall (hands : list Hand.t) (idx : nat),
    length hands <= idx + n ->
    idx <= skipLoop n hands idx /\
    (forall (i : nat) (hand : Hand.t),
       idx <= i < skipLoop n hands idx ->
       hands !! i = Some hand -> Hand.isSettled hand = true) /\
    match hands !! skipLoop n hands idx with
    | Some hand => Hand.isSettled hand = false
    | None => True
    end.
Proof.
  induction n as [|n IH]; intros hands idx Hlen; cbn [skipLoop].
  - split; [lia|]. split; [intros i hand Hi; lia|].
    rewrite (proj2 (lookup_ge_None hands idx)) by lia. exact I.
  - destruct (hands !! idx) as [hand0|] eqn:E0.
    + destruct (Hand.isSettled hand0) eqn:Eset.
      * destruct (IH hands (S idx)) as (Hle & Hrange & Hstop); [lia|].
        split; [lia|]. split; [|exact Hstop].
        intros i hand Hi Hlook.
        destruct (decide (i = idx)) as [->|Hne]; [congruence|].
        apply (Hrange i hand); [lia|exact Hlook].
      * split; [lia|]. split; [intros i hand Hi; lia|].
        rewrite E0. exact Eset.
    + split; [lia|]. split; [intros i hand Hi; lia|]. rewrite E0. exact I.
Qed.

Lemma stands_at_17 (d : Dealer.t) (hand : Hand.t) :
  Dealer.shouldDealerHit d hand = false -> (17 <= Hand.htotal hand)%Z.
Proof.
  unfold Dealer.shouldDealerHit, Hand.value, Hand.htotal.
  destruct (Hand.total (Hand.evaluate (Hand.cards hand)) <? 17)%Z eqn:E;
    [discriminate|]. intros _. apply Z.ltb_ge in E. exact E.
Qed.

Lemma closedBefore_all (idx : nat) (hands : list Hand.t) :
  closedBefore idx hands -> length hands <= idx ->
  forallb Hand.isSettled hands = true.
Proof.
  intros Hclosed Hlen. apply forallb_forall. intros hand Hin.
  apply list_elem_of_In, list_elem_of_lookup in Hin as [i Hi].
  apply (Hclosed i hand); [|exact Hi]. apply lookup_lt_Some in Hi. lia.
Qed.

Lemma closedBefore_skipped (g : t) :
  closedBefore (activeHandIdx g) (playerHands g) ->
  closedBefore (activeHandIdx (skipped g)) (playerHands g).
Proof.
  intros Hclosed i hand Hi Hlook. cbn [skipped activeHandIdx withActiveHandIdx] in Hi.
  destruct (skipLoop_spec (length (playerHands g)) (playerHands g)
              (activeHandIdx g)) as (_ & Hrange & _); [lia|].
  destruct (le_lt_dec (activeHandIdx g) i) as [H|H].
  - apply (Hrange i hand); [lia|exact Hlook].
  - apply (Hclosed i hand); assumption.
Qed.

(** The dealer's turn, begun with every player hand closed, ends the
    round unless it is still running. *)
Lemma beginDealerTurn_over (fuel : nat) (g : t) (dHand : Hand.t) :
  dealerHand g = Some dHand ->
  playerHands g <> [] ->
  forallb Hand.isSettled (playerHands g) = true ->
  goesWell (beginDealerTurn fuel g).
Proof.
  intros Hd Hne Hall. rewrite (beginDealerTurn_eq fuel g dHand Hd).
  destruct (forallb Hand.isBusted (playerHands g)) eqn:Ebust.
  - right. split; [reflexivity|]. cbn [snd]. unfold tableInv. cbn [state settled withEvent withState].
    exists (Hand.settle dHand). cbn.
    split; [reflexivity|]. split; [reflexivity|]. split; [exact Hne|].
    split; [right; exact Hall|]. right. left. exact Ebust.
  - destruct (Dealer.playDealerHand fuel dHand (dealer g))
      as [[[total dHand'] d']|] eqn:Eplay; [|left; reflexivity].
    right. split; [reflexivity|]. cbn [snd]. unfold tableInv. cbn [state settled withEvent withState].
    exists dHand'. cbn.
    split; [reflexivity|]. split; [reflexivity|]. split; [exact Hne|].
    split; [right; exact Hall|]. left.
    unfold Dealer.playDealerHand in Eplay.
    destruct (Dealer.dealerLoop fuel dHand (dealer g)) as [[h1 d1]|] eqn:Eloop;
      [|discriminate].
    injection Eplay as _ <- _.
    destruct (dealerLoop_result fuel _ _ _ _ Eloop) as (Hstop & _).
    apply stands_at_17 in Hstop. exact Hstop.
Qed.

Lemma skipSettledHands_table (fuel : nat) (g : t) (dHand : Hand.t) :
  state g = PLAYER_TURN ->
  dealerHand g = Some dHand ->
  Hand.isBlackjack dHand = false ->
  Hand.settled dHand = false ->
  results g = [] ->
  playerHands g <> [] ->
  closedBefore (activeHandIdx g) (playerHands g) ->
  goesWell (skipSettledHands fuel g).
Proof.
  intros Hst Hd Hnat Hflag Hres Hne Hclosed. rewrite skipSettledHands_eq.
  pose proof (closedBefore_skipped g Hclosed) as Hclosed'.
  destruct (length (playerHands g) <=? activeHandIdx (skipped g)) eqn:E.
  - apply Nat.leb_le in E.
    apply (beginDealerTurn_over fuel (skipped g) dHand Hd Hne).
    exact (closedBefore_all _ _ Hclosed' E).
  - apply Nat.leb_gt in E. right. split; [reflexivity|]. cbn [snd].
    unfold tableInv. cbn [state skipped withEvent withActiveHandIdx].
    rewrite Hst. split; [exact Hres|].
    split; [exists dHand; cbn; auto|]. split; [|exact Hclosed'].
    destruct (skipLoop_spec (length (playerHands g)) (playerHands g)
                (activeHandIdx g)) as (_ & _ & Hstop); [lia|].
    unfold getActiveHand. cbn [playerHands activeHandIdx skipped withEvent
      withActiveHandIdx] in *.
    destruct (playerHands g !! skipLoop _ _ _) as [hand|] eqn:Ehand;
      [|apply lookup_ge_None in Ehand; lia].
    exists hand. split; [reflexivity|].
    unfold Hand.isSettled in Hstop.
    apply orb_false_elim in Hstop as [Hstop _].
    apply orb_false_elim in Hstop as [H1 H2]. split; assumption.
Qed.

(** The player's actions, once their guards have passed. *)
Lemma playerStand_eq (fuel : nat) (g : t) (hand : Hand.t) :
  state g = PLAYER_TURN ->
  getActiveHand g = Some hand ->
  playerStand fuel g = advanceHand fuel (stoodGame hand g).
Proof.
  intros Hst Hact. unfold playerStand. unfold bind at 1, get at 1.
  rewrite Hst, Hact. reflexivity.
Qed.

Lemma playerHit_eq (fuel : nat) (g : t) (hand : Hand.t) :
  state g = PLAYER_TURN ->
  getActiveHand g = Some hand ->
  playerHit fuel g
  = let r := Dealer.hit hand (dealer g) in
    let g1 := hitGame (fst (fst r)) (snd (fst r)) (snd r) g in
    if Hand.isBusted (snd (fst r))
    then advanceHand fuel (bustGame (snd (fst r)) g1)
    else (Returned tt, g1).
Proof.
  intros Hst Hact. unfold playerHit. unfold bind at 1, get at 1.
  rewrite Hst, Hact. cbn [state_eqb negb]. cbv zeta.
  unfold dealerHit, setDealer, setActiveHand, setPlayerHands, emit, bind, get,
    modify, ret.
  destruct (Dealer.hit hand (dealer g)) as [[card hand'] d'].
  cbn [fst snd]. destruct (Hand.isBusted hand'); reflexivity.
Qed.

Lemma playerDoubleDown_eq (fuel : nat) (g : t) (hand : Hand.t) :
  state g = PLAYER_TURN ->
  getActiveHand g = Some hand ->
  length (Hand.cards hand) = 2 ->
  playerDoubleDown fuel g
  = let r := Dealer.hit (Hand.doubleBet hand) (dealer g) in
    advanceHand fuel (doubledGame (fst (fst r)) (snd (fst r)) (snd r) g).
Proof.
  intros Hst Hact Hlen. unfold playerDoubleDown. unfold bind at 1, get at 1.
  rewrite Hst, Hact. cbn [state_eqb negb].
  unfold Hand.canDoubleDown. rewrite Hlen. cbn [Nat.eqb negb]. cbv zeta.
  unfold dealerHit, setDealer, setActiveHand, setPlayerHands, emit, bind, get,
    modify, ret, doubledGame.
  destruct (Dealer.hit (Hand.doubleBet hand) (dealer g)) as [[card hand'] d'].
  cbn [fst snd]. destruct (Hand.isBusted (Hand.settle hand')); reflexivity.
Qed.

Lemma closedBefore_settle (idx : nat) (hands : list Hand.t) (hand : Hand.t) :
  closedBefore idx hands ->
  closedBefore (S idx) (<[idx := Hand.settle hand]> hands).
Proof.
  intros Hclosed i h Hi Hlook.
  destruct (decide (i = idx)) as [->|Hne].
  - pose proof (lookup_lt_Some _ _ _ Hlook) as Hlt.
    rewrite length_insert in Hlt.
    rewrite list_lookup_insert_eq in Hlook by exact Hlt.
    injection Hlook as <-. reflexivity.
  - rewrite list_lookup_insert_ne in Hlook by congruence.
    apply (Hclosed i h); [lia|exact Hlook].
Qed.

Lemma closedBefore_insert (idx : nat) (hands : list Hand.t) (hand : Hand.t) :
  closedBefore idx hands -> closedBefore idx (<[idx := hand]> hands).
Proof.
  intros Hclosed i h Hi Hlook.
  rewrite list_lookup_insert_ne in Hlook by lia.
  apply (Hclosed i h); assumption.
Qed.

Lemma insert_nonempty {A} (i : nat) (x : A) (l : list A) :
  l <> [] -> <[i := x]> l <> [].
Proof.
  intros Hne H. apply (f_equal length) in H. rewrite length_insert in H.
  destruct l; [contradiction|discriminate].
Qed.

Lemma playerStand_table (fuel : nat) (g : t) :
  tableInv g -> state g = PLAYER_TURN -> goesWell (playerStand fuel g).
Proof.
  intros Hinv Hst. unfold tableInv in Hinv. rewrite Hst in Hinv.
  destruct Hinv as (Hres & (dHand & Hd & Hnat & Hflag)
                    & (hand & Hact & Hopen & Hlive) & Hclosed).
  rewrite (playerStand_eq fuel g hand Hst Hact), advanceHand_eq.
  assert (playerHands g <> []) as Hne.
  { unfold getActiveHand in Hact. intros E. rewrite E in Hact. discriminate. }
  apply (skipSettledHands_table fuel _ dHand); try assumption.
  - cbn. apply insert_nonempty, Hne.
  - cbn. apply closedBefore_settle, Hclosed.
Qed.

Lemma playerHit_table (fuel : nat) (g : t) :
  tableInv g -> state g = PLAYER_TURN -> goesWell (playerHit fuel g).
Proof.
  intros Hinv Hst. unfold tableInv in Hinv. rewrite Hst in Hinv.
  destruct Hinv as (Hres & (dHand & Hd & Hnat & Hflag)
                    & (hand & Hact & Hopen & Hlive) & Hclosed).
  rewrite (playerHit_eq fuel g hand Hst Hact). cbv zeta.
  assert (playerHands g <> []) as Hne.
  { unfold getActiveHand in Hact. intros E. rewrite E in Hact. discriminate. }
  destruct (hit_appends hand (dealer g)) as (drawn & _ & _ & _ & Hset & _).
  destruct (Dealer.hit hand (dealer g)) as [[card hand'] d'].
  cbn [fst snd] in *.
  destruct (Hand.isBusted hand') eqn:Ebust.
  - rewrite advanceHand_eq.
    apply (skipSettledHands_table fuel _ dHand); try assumption.
    + cbn. apply insert_nonempty, insert_nonempty, Hne.
    + cbn. rewrite list_insert_insert_eq. apply closedBefore_settle, Hclosed.
  - right. split; [reflexivity|]. cbn [snd]. unfold tableInv.
    cbn [state hitGame withEvent withPlayerHands withDealer]. rewrite Hst.
    split; [exact Hres|]. split; [exists dHand; cbn; auto|]. split.
    + exists hand'. unfold getActiveHand in *. cbn.
      rewrite list_lookup_insert_eq
        by (apply lookup_lt_Some in Hact; exact Hact).
      split; [reflexivity|]. split; [congruence|exact Ebust].
    + cbn. apply closedBefore_insert, Hclosed.
Qed.

Lemma playerDoubleDown_table (fuel : nat) (g : t) :
  tableInv g -> permitted PlayerDoubleDown g = true ->
  goesWell (playerDoubleDown fuel g).
Proof.
  intros Hinv Hguard. cbn [permitted] in Hguard.
  apply andb_prop in Hguard as [Hst Hlen]. apply state_eqb_eq in Hst.
  unfold tableInv in Hinv. rewrite Hst in Hinv.
  destruct Hinv as (Hres & (dHand & Hd & Hnat & Hflag)
                    & (hand & Hact & Hopen & Hlive) & Hclosed).
  rewrite Hact in Hlen. apply Nat.eqb_eq in Hlen.
  rewrite (playerDoubleDown_eq fuel g hand Hst Hact Hlen). cbv zeta.
  assert (playerHands g <> []) as Hne.
  { unfold getActiveHand in Hact. intros E. rewrite E in Hact. discriminate. }
  destruct (Dealer.hit (Hand.doubleBet hand) (dealer g)) as [[card hand'] d'].
  cbn [fst snd]. rewrite advanceHand_eq. unfold doubledGame.
  destruct (Hand.isBusted (Hand.settle hand'));
    apply (skipSettledHands_table fuel _ dHand); try assumption;
    cbn; try (apply insert_nonempty, Hne);
    apply closedBefore_settle, Hclosed.
Qed.

Lemma closedBefore_splice (idx : nat) (hands : list Hand.t) (a b : Hand.t) :
  idx < length hands ->
  closedBefore idx hands ->
  closedBefore idx (take idx hands ++ [a; b] ++ drop (S idx) hands).
Proof.
  intros Hidx Hclosed i h Hi Hlook.
  rewrite lookup_app_l in Hlook by (rewrite length_take; lia).
  rewrite lookup_take_lt in Hlook by exact Hi.
  apply (Hclosed i h); assumption.
Qed.

Lemma playerSplit_table (fuel : nat) (g : t) :
  tableInv g -> permitted PlayerSplit g = true ->
  goesWell (playerSplit fuel g).
Proof.
  intros Hinv Hguard. cbn [permitted] in Hguard.
  apply andb_prop in Hguard as [Hst Hpair]. apply state_eqb_eq in Hst.
  unfold tableInv in Hinv. rewrite Hst in Hinv.
  destruct Hinv as (Hres & (dHand & Hd & Hnat & Hflag)
                    & (hand & Hact & Hopen & Hlive) & Hclosed).
  rewrite Hact in Hpair.
  destruct (Hand.cards hand) as [|c0 [|c1 [|c2 rest]]] eqn:Ecards;
    try discriminate.
  apply bool_decide_eq_true in Hpair.
  rewrite (playerSplit_eq fuel g hand c0 c1 Hst Hact Ecards Hpair). cbv zeta.
  apply (skipSettledHands_table fuel _ dHand); try assumption.
  - cbn. intros E. apply (f_equal length) in E.
    rewrite length_app in E. cbn in E. lia.
  - cbn. apply closedBefore_splice; [|exact Hclosed].
    unfold getActiveHand in Hact. apply lookup_lt_Some in Hact. exact Hact.
Qed.

Lemma dealPass_flags (hands : list Hand.t) (s : Deck.t) :
  length (fst (Dealer.dealPass hands s)) = length hands.
Proof.
  revert s. induction hands as [|hand hands IH]; intros s; cbn;
    [reflexivity|].
  destruct (Deck.draw 1 s) as [drawn s1].
  specialize (IH s1). destruct (Dealer.dealPass hands s1) as [rest s2].
  cbn in *. rewrite IH. reflexivity.
Qed.

Lemma dealRound_flags (hands : list Hand.t * Hand.t) (s : Deck.t) :
  length (fst (fst (Dealer.dealRound hands s))) = length (fst hands) /\
  Hand.settled (snd (fst (Dealer.dealRound hands s)))
  = Hand.settled (snd hands).
Proof.
  unfold Dealer.dealRound.
  pose proof (dealPass_flags (fst hands) s) as H.
  destruct (Dealer.dealPass (fst hands) s) as [playerHands s1].
  destruct (Deck.draw 1 s1) as [drawn s2]. cbn in *. auto.
Qed.

Lemma dealInitial_flags (numPlayers : nat) (bets : list Dealer.Wager)
      (d : Dealer.t) :
  length (fst (fst (Dealer.dealInitial numPlayers bets d))) = numPlayers /\
  Hand.settled (snd (fst (Dealer.dealInitial numPlayers bets d))) = false.
Proof.
  unfold Dealer.dealInitial.
  destruct (Dealer.burnCard d) as [burned d1].
  match goal with
  | |- context [Dealer.dealRound ?start (Dealer.shoe d1)] =>
      destruct (dealRound_flags start (Dealer.shoe d1)) as (H1 & H2);
      destruct (Dealer.dealRound start (Dealer.shoe d1)) as [hands1 s1]
  end.
  destruct (dealRound_flags hands1 s1) as (H3 & H4).
  destruct (Dealer.dealRound hands1 s1) as [hands2 s2].
  cbn [fst snd] in *. rewrite H3, H4, H1, H2.
  rewrite length_map, length_seq. split; reflexivity.
Qed.

Lemma naturals_closed (hands : list Hand.t) :
  forallb Hand.isBlackjack hands = true ->
  forallb Hand.isSettled hands = true.
Proof.
  intros H. apply forallb_forall. intros hand Hin.
  rewrite forallb_forall in H. unfold Hand.isSettled.
  rewrite (H hand Hin). apply orb_true_r.
Qed.

Lemma placeBets_table (fuel : nat) (bets : list Dealer.Wager) (g : t) :
  permitted (PlaceBets bets) g = true -> goesWell (placeBets fuel bets g).
Proof.
  intros Hguard. cbn [permitted] in Hguard.
  apply andb_prop in Hguard as [Hst Hbets]. apply state_eqb_eq in Hst.
  assert (bets <> []) as Hne by (destruct bets; [discriminate|congruence]).
  rewrite (placeBets_eq fuel bets g Hst Hne). cbv zeta.
  destruct (dealInitial_flags (length bets) bets (dealer g)) as [Hlen Hflag].
  destruct (Dealer.dealInitial (length bets) bets (dealer g))
    as [[pHands dHand] d].
  cbn [fst snd] in *.
  assert (pHands <> []) as Hhands.
  { intros ->. destruct bets; [contradiction|discriminate]. }
  destruct (Hand.isBlackjack dHand) eqn:Edealer; cbn [orb].
  - right. split; [reflexivity|]. cbn [snd]. unfold tableInv.
    cbn [state settled withEvent withState]. exists dHand. cbn.
    split; [reflexivity|]. split; [reflexivity|]. split; [exact Hhands|].
    split; [left; exact Edealer|]. left.
    rewrite (natural_total dHand Edealer). lia.
  - destruct (forallb Hand.isBlackjack pHands) eqn:Eplayers.
    + right. split; [reflexivity|]. cbn [snd]. unfold tableInv.
      cbn [state settled withEvent withState]. exists dHand. cbn.
      split; [reflexivity|]. split; [reflexivity|]. split; [exact Hhands|].
      split; [right; apply naturals_closed, Eplayers|].
      right. right. exact Eplayers.
    + apply (skipSettledHands_table fuel _ dHand); try assumption;
        try reflexivity.
      intros i hand Hi. cbn in Hi. lia.
Qed.

Lemma newRound_table (g : t) :
  fst (newRound g) = Returned tt /\ tableInv (snd (newRound g)).
Proof. split; [reflexivity|]. unfold tableInv. cbn. auto. Qed.

Lemma permitted_goesWell (fuel : nat) (a : Action) (g : t) :
  tableInv g -> permitted a g = true -> goesWell (perform fuel a g).
Proof.
  intros Hinv Hguard. destruct a; cbn [perform].
  - apply placeBets_table, Hguard.
  - apply playerHit_table; [exact Hinv|]. apply state_eqb_eq, Hguard.
  - apply playerStand_table; [exact Hinv|]. apply state_eqb_eq, Hguard.
  - apply playerDoubleDown_table; assumption.
  - apply playerSplit_table; assumption.
  - right. apply newRound_table.
Qed.

Lemma perform_table (fuel : nat) (a : Action) (g : t) :
  tableInv g ->
  fst (perform fuel a g) = Running \/ tableInv (snd (perform fuel a g)).
Proof.
  intros Hinv. destruct (permitted a g) eqn:Hguard.
  - destruct (permitted_goesWell fuel a g Hinv Hguard) as [H|[_ H]]; auto.
  - destruct (invalid_action_guard fuel a g Hguard) as [message ->].
    right. exact Hinv.
Qed.

Lemma createGame_table (opts : Dealer.Opts) (r : Deck.Random) :
  tableInv (createGame opts r).
Proof. unfold tableInv. cbn. auto. Qed.

Lemma play_table (fuel : nat) (actions : list Action) :
  forall g g' : t,
    tableInv g -> play fuel actions g = Some g' -> tableInv g'.
Proof.
  induction actions as [|a actions IH]; intros g g' Hinv Hplay;
    cbn in Hplay; [congruence|].
  destruct (perform_table fuel a g Hinv) as [Hr|Hk];
    destruct (perform fuel a g) as [[[]|message|] g1]; cbn [fst snd] in *;
    try discriminate; eauto.
Qed.

(** X10. Between two calls the engine rests in BETTING, PLAYER_TURN or
    GAME_OVER, and an action throws exactly when its guard fails: after
    any sequence of calls on a new engine, whatever the options and the
    shuffles, an action whose guard holds returns (or, where the shoe
    cannot feed the dealer, is still running), and never fails on a
    missing hand; an action whose guard fails throws. *)
Theorem action_throws_iff_guard_fails :
  forall (opts : Dealer.Opts) (r : Deck.Random) (fuel : nat)
         (actions : list Action) (g : t),
    play fuel actions (createGame opts r) = Some g ->
    (state g = BETTING \/ state g = PLAYER_TURN \/ state g = GAME_OVER) /\
    forall (a : Action) (fuel' : nat),
      (permitted a g = true ->
       fst (perform fuel' a g) = Returned tt \/
       fst (perform fuel' a g) = Running) /\
      (permitted a g = false ->
       exists message : string, perform fuel' a g = (Thrown message, g)).
Proof.
  intros opts r fuel actions g Hplay.
  pose proof (play_table fuel actions _ g (createGame_table opts r) Hplay)
    as Hinv.
  split.
  - unfold tableInv in Hinv. destruct (state g); auto; contradiction.
  - intros a fuel'. split.
    + intros Hguard.
      destruct (permitted_goesWell fuel' a g Hinv Hguard) as [H|[H _]]; auto.
    + apply invalid_action_guard.
Qed.

Lemma action_throws_iff_guard_fails_witness :
  let g0 := createGame Dealer.defaults (Deck.mkRandom id 0) in
  let g :=
    default g0
      (play 30 [PlaceBets [Dealer.number 10; Dealer.number 20]; PlayerHit]
         g0) in
  (state g = BETTING \/ state g = PLAYER_TURN \/ state g = GAME_OVER) /\
  forall (a : Action) (fuel' : nat),
    (permitted a g = true ->
     fst (perform fuel' a g) = Returned tt \/
     fst (perform fuel' a g) = Running) /\
    (permitted a g = false ->
     exists message : string, perform fuel' a g = (Thrown message, g)).
Proof.
  intros g0 g.
  apply (action_throws_iff_guard_fails Dealer.defaults (Deck.mkRandom id 0) 30
           [PlaceBets [Dealer.number 10; Dealer.number 20]; PlayerHit] g).
  vm_compute. reflexivity.
Defined.

(** X11. When a round is over (GAME_OVER), after any sequence of calls on
    a new engine: there is a dealer hand and at least one player hand;
    [results] has one entry per player hand, in order, which is the
    verdict of [compareHands] on that hand against the final dealer hand
    with [net] the wager times the payout; every player hand is closed
    (stood, doubled, busted or a natural) unless the dealer hand is a
    natural; and the dealer has 17 or more unless every player hand is
    busted or every player hand is a natural. *)
Theorem round_over_settlement :
  forall (opts : Dealer.Opts) (r : Deck.Random) (fuel : nat)
         (actions : list Action) (g : t),
    play fuel actions (createGame opts r) = Some g ->
    state g = GAME_OVER ->
    exists dHand : Hand.t,
      dealerHand g = Some dHand /\
      playerHands g <> [] /\
      length (results g) = length (playerHands g) /\
      (forall (i : nat) (hand : Hand.t),
         playerHands g !! i = Some hand ->
         results g !! i
         = Some (resultOf hand (Evaluator.compareHands hand dHand))) /\
      (Hand.isBlackjack dHand = true \/
       Forall (fun hand => Hand.isSettled hand = true) (playerHands g)) /\
      ((17 <= Hand.htotal dHand)%Z \/
       Forall (fun hand => Hand.isBusted hand = true) (playerHands g) \/
       Forall (fun hand => Hand.isBlackjack hand = true) (playerHands g)).
Proof.
  intros opts r fuel actions g Hplay Hst.
  pose proof (play_table fuel actions _ g (createGame_table opts r) Hplay)
    as Hinv.
  unfold tableInv in Hinv. rewrite Hst in Hinv.
  destruct Hinv as (dHand & Hd & Hres & Hne & Hclosed & Hend).
  exists dHand. split; [exact Hd|]. split; [exact Hne|].
  rewrite Hres. unfold Evaluator.settleRound.
  split; [apply length_map|]. split.
  - intros i hand Hi. rewrite list_lookup_fmap, Hi. reflexivity.
  - split.
    + destruct Hclosed as [H|H]; [left; exact H|right].
      apply Forall_forall. intros hand Hin.
      rewrite forallb_forall in H. apply H, list_elem_of_In, Hin.
    + destruct Hend as [H|[H|H]]; [left; exact H|right; left|right; right];
        apply Forall_forall; intros hand Hin;
        rewrite forallb_forall in H; apply H, list_elem_of_In, Hin.
Qed.

Lemma round_over_settlement_witness :
  let g0 := createGame Dealer.defaults (Deck.mkRandom id 0) in
  let g :=
    default g0
      (play 30
         [PlaceBets [Dealer.number 10; Dealer.number 20]; PlayerHit;
          PlayerStand] g0) in
  exists dHand : Hand.t,
    dealerHand g = Some dHand /\
    playerHands g <> [] /\
    length (results g) = length (playerHands g) /\
    (forall (i : nat) (hand : Hand.t),
       playerHands g !! i = Some hand ->
       results g !! i
       = Some (resultOf hand (Evaluator.compareHands hand dHand))) /\
    (Hand.isBlackjack dHand = true \/
     Forall (fun hand => Hand.isSettled hand = true) (playerHands g)) /\
    ((17 <= Hand.htotal dHand)%Z \/
     Forall (fun hand => Hand.isBusted hand = true) (playerHands g) \/
     Forall (fun hand => Hand.isBlackjack hand = true) (playerHands g)).
Proof.
  intros g0 g.
  apply (round_over_settlement Dealer.defaults (Deck.mkRandom id 0) 30
           [PlaceBets [Dealer.number 10; Dealer.number 20]; PlayerHit;
            PlayerStand] g);
    vm_compute; reflexivity.
Defined.

(** X12. When a player is to act (PLAYER_TURN), after any sequence of
    calls on a new engine: no result is published; the dealer hand is
    there, is not a natural and is not marked settled; the active hand
    exists, is not marked settled and is not busted; and every hand
    before it is closed (stood, doubled, busted or a natural). *)
Theorem turn_offers_open_hand :
  forall (opts : Dealer.Opts) (r : Deck.Random) (fuel : nat)
         (actions : list Action) (g : t),
    play fuel actions (createGame opts r) = Some g ->
    state g = PLAYER_TURN ->
    results g = [] /\
    (exists dHand : Hand.t,
       dealerHand g = Some dHand /\
       Hand.isBlackjack dHand = false /\ Hand.settled dHand = false) /\
    (exists hand : Hand.t,
       getActiveHand g = Some hand /\
       Hand.settled hand = false /\ Hand.isBusted hand = false) /\
    (forall (i : nat) (hand : Hand.t),
       i < activeHandIdx g -> playerHands g !! i = Some hand ->
       Hand.isSettled hand = true).
Proof.
  intros opts r fuel actions g Hplay Hst.
  pose proof (play_table fuel actions _ g (createGame_table opts r) Hplay)
    as Hinv.
  unfold tableInv in Hinv. rewrite Hst in Hinv. exact Hinv.
Qed.

Lemma turn_offers_open_hand_witness :
  let g0 := createGame Dealer.defaults (Deck.mkRandom id 0) in
  let g :=
    default g0
      (play 30 [PlaceBets [Dealer.number 10; Dealer.number 20]; PlayerHit]
         g0) in
  results g = [] /\
  (exists dHand : Hand.t,
     dealerHand g = Some dHand /\
     Hand.isBlackjack dHand = false /\ Hand.settled dHand = false) /\
  (exists hand : Hand.t,
     getActiveHand g = Some hand /\
     Hand.settled hand = false /\ Hand.isBusted hand = false) /\
  (forall (i : nat) (hand : Hand.t),
     i < activeHandIdx g -> playerHands g !! i = Some hand ->
     Hand.isSettled hand = true).
Proof.
  intros g0 g.
  apply (turn_offers_open_hand Dealer.defaults (Deck.mkRandom id 0) 30
           [PlaceBets [Dealer.number 10; Dealer.number 20]; PlayerHit] g);
    vm_compute; reflexivity.
Defined.

(** ** The announced states *)

Lemma walk_app (s : State) (l l' : list State) :
  walk s (l ++ l')
  = walk s l && walk (default s (last l)) l'.
Proof.
  revert s. induction l as [|s1 l IH]; intros s; cbn [app walk];
    [reflexivity|].
  rewrite IH, <- andb_assoc. f_equal. f_equal.
  destruct l as [|s2 l]; [reflexivity|].
  change (last (s1 :: s2 :: l)) with (last (s2 :: l)).
  destruct (last (s2 :: l)) eqn:E; [reflexivity|].
  apply last_None in E. discriminate.
Qed.

Lemma logInv_step (g g' : t) (l : list State) :
  logInv g ->
  announced g g' l ->
  walk (state g) l = true ->
  last (state g :: l) = Some (state g') ->
  logInv g'.
Proof.
  intros [Hwalk Hlast] Hann Hl Hend. unfold logInv. rewrite Hann.
  assert (default BETTING (last (stateChanges (emitted g))) = state g) as Hs.
  { destruct (stateChanges (emitted g)) as [|s0 l0] eqn:E.
    - cbn in *. congruence.
    - change (last (BETTING :: s0 :: l0)) with (last (s0 :: l0)) in Hlast.
      rewrite Hlast. reflexivity. }
  split.
  - rewrite walk_app, Hwalk, Hs. exact Hl.
  - destruct l as [|s1 l].
    + rewrite app_nil_r. cbn in Hend. congruence.
    + rewrite <- Hend.
      change (last (BETTING :: stateChanges (emitted g) ++ s1 :: l))
        with (last ((BETTING :: stateChanges (emitted g)) ++ s1 :: l)).
      rewrite last_app. cbn [last]. 
      change (last (state g :: s1 :: l)) with (last (s1 :: l)).
      destruct (last (s1 :: l)) eqn:E; [reflexivity|].
      apply last_None in E. discriminate.
Qed.

Ltac log_events :=
  unfold announced;
  cbn [emitted settled atSettlement atDealerTurn atPlayerTurn dealtGame
       skipped stoodGame hitGame bustGame splitGame
       withEvent withState withDealer withPlayerHands withDealerHand
       withActiveHandIdx withResults];
  rewrite ?stateChanges_snoc, <- ?app_assoc, ?app_nil_r;
  cbn [app].

Lemma beginDealerTurn_log (fuel : nat) (g : t) (dHand : Hand.t) :
  dealerHand g = Some dHand ->
  fst (beginDealerTurn fuel g) = Running \/
  (state (snd (beginDealerTurn fuel g)) = GAME_OVER /\
   announced g (snd (beginDealerTurn fuel g))
     [DEALER_TURN; SETTLEMENT; GAME_OVER]).
Proof.
  intros Hd. rewrite (beginDealerTurn_eq fuel g dHand Hd).
  destruct (forallb Hand.isBusted (playerHands g)).
  - right. split; [reflexivity|]. cbn [snd]. log_events. reflexivity.
  - destruct (Dealer.playDealerHand fuel dHand (dealer g))
      as [[[total dHand'] d']|]; [|left; reflexivity].
    right. split; [reflexivity|]. cbn [snd]. log_events. reflexivity.
Qed.

(** The search for the next hand announces the dealer's turn, the
    settlement and the end of the round, or nothing. *)
Lemma skipSettledHands_log (fuel : nat) (g : t) (dHand : Hand.t) :
  dealerHand g = Some dHand ->
  fst (skipSettledHands fuel g) = Running \/
  (state (snd (skipSettledHands fuel g)) = GAME_OVER /\
   announced g (snd (skipSettledHands fuel g))
     [DEALER_TURN; SETTLEMENT; GAME_OVER]) \/
  (state (snd (skipSettledHands fuel g)) = state g /\
   announced g (snd (skipSettledHands fuel g)) []).
Proof.
  intros Hd. rewrite skipSettledHands_eq.
  destruct (length (playerHands g) <=? activeHandIdx (skipped g)).
  - destruct (beginDealerTurn_log fuel (skipped g) dHand Hd) as [H|H];
      [left; exact H|right; left; exact H].
  - right. right. split; [reflexivity|]. cbn [snd]. log_events. reflexivity.
Qed.

(** A move of the turn from [g1], reached from [g] in PLAYER_TURN with
    no state announced, keeps the log in order. *)
Lemma turn_log (fuel : nat) (g g1 : t) (dHand : Hand.t) :
  logInv g ->
  state g = PLAYER_TURN ->
  state g1 = PLAYER_TURN ->
  dealerHand g1 = Some dHand ->
  announced g g1 [] ->
  fst (skipSettledHands fuel g1) = Running \/
  logInv (snd (skipSettledHands fuel g1)).
Proof.
  intros Hlog Hst Hst1 Hd Hann.
  destruct (skipSettledHands_log fuel g1 dHand Hd) as [H|[[H1 H2]|[H1 H2]]];
    [left; exact H| |]; right.
  - apply (logInv_step g _ [DEALER_TURN; SETTLEMENT; GAME_OVER] Hlog).
    + unfold announced in *. rewrite H2, Hann, app_nil_r. reflexivity.
    + rewrite Hst. reflexivity.
    + rewrite H1. reflexivity.
  - apply (logInv_step g _ [] Hlog).
    + unfold announced in *. rewrite H2, Hann, !app_nil_r. reflexivity.
    + reflexivity.
    + rewrite H1, Hst1, Hst. reflexivity.
Qed.

Lemma perform_log (fuel : nat) (a : Action) (g : t) :
  tableInv g -> logInv g ->
  fst (perform fuel a g) = Running \/ logInv (snd (perform fuel a g)).
Proof.
  intros Hinv Hlog. destruct (permitted a g) eqn:Hguard;
    [|destruct (invalid_action_guard fuel a g Hguard) as [message ->];
      right; exact Hlog].
  destruct a as [bets| | | | |]; cbn [perform permitted] in *.
  - apply andb_prop in Hguard as [Hst Hbets]. apply state_eqb_eq in Hst.
    assert (bets <> []) as Hne by (destruct bets; [discriminate|congruence]).
    rewrite (placeBets_eq fuel bets g Hst Hne). cbv zeta.
    destruct (Dealer.dealInitial (length bets) bets (dealer g))
      as [[pHands dHand] d].
    cbn [fst snd].
    destruct (Hand.isBlackjack dHand || forallb Hand.isBlackjack pHands).
    + right. cbn [snd].
      apply (logInv_step g _ [DEALING; SETTLEMENT; GAME_OVER] Hlog).
      * log_events. reflexivity.
      * rewrite Hst. reflexivity.
      * reflexivity.
    + assert (logInv (atPlayerTurn (dealtGame pHands dHand d g))) as Hlog1.
      { apply (logInv_step g _ [DEALING; PLAYER_TURN] Hlog).
        - log_events. reflexivity.
        - rewrite Hst. reflexivity.
        - reflexivity. }
      apply (turn_log fuel _ _ dHand Hlog1); try reflexivity.
      unfold announced. rewrite app_nil_r. reflexivity.
  - apply state_eqb_eq in Hguard. unfold tableInv in Hinv.
    rewrite Hguard in Hinv.
    destruct Hinv as (_ & (dHand & Hd & _) & (hand & Hact & _) & _).
    rewrite (playerHit_eq fuel g hand Hguard Hact). cbv zeta.
    destruct (Dealer.hit hand (dealer g)) as [[card hand'] d'].
    cbn [fst snd]. destruct (Hand.isBusted hand').
    + rewrite advanceHand_eq.
      apply (turn_log fuel g _ dHand Hlog Hguard); try assumption.
      log_events. reflexivity.
    + right. cbn [snd]. apply (logInv_step g _ [] Hlog).
      * log_events. reflexivity.
      * reflexivity.
      * cbn. rewrite Hguard. reflexivity.
  - apply state_eqb_eq in Hguard. unfold tableInv in Hinv.
    rewrite Hguard in Hinv.
    destruct Hinv as (_ & (dHand & Hd & _) & (hand & Hact & _) & _).
    rewrite (playerStand_eq fuel g hand Hguard Hact), advanceHand_eq.
    apply (turn_log fuel g _ dHand Hlog Hguard); try assumption.
    log_events. reflexivity.
  - apply andb_prop in Hguard as [Hst Hlen]. apply state_eqb_eq in Hst.
    unfold tableInv in Hinv. rewrite Hst in Hinv.
    destruct Hinv as (_ & (dHand & Hd & _) & (hand & Hact & _) & _).
    rewrite Hact in Hlen. apply Nat.eqb_eq in Hlen.
    rewrite (playerDoubleDown_eq fuel g hand Hst Hact Hlen). cbv zeta.
    destruct (Dealer.hit (Hand.doubleBet hand) (dealer g))
      as [[card hand'] d'].
    cbn [fst snd]. rewrite advanceHand_eq. unfold doubledGame.
    destruct (Hand.isBusted (Hand.settle hand'));
      apply (turn_log fuel g _ dHand Hlog Hst); try assumption;
      log_events; reflexivity.
  - apply andb_prop in Hguard as [Hst Hpair]. apply state_eqb_eq in Hst.
    unfold tableInv in Hinv. rewrite Hst in Hinv.
    destruct Hinv as (_ & (dHand & Hd & _) & (hand & Hact & _) & _).
    rewrite Hact in Hpair.
    destruct (Hand.cards hand) as [|c0 [|c1 [|c2 rest]]] eqn:Ecards;
      try discriminate.
    apply bool_decide_eq_true in Hpair.
    rewrite (playerSplit_eq fuel g hand c0 c1 Hst Hact Ecards Hpair).
    cbv zeta.
    apply (turn_log fuel g _ dHand Hlog Hst); try assumption.
    log_events. reflexivity.
  - right. apply (logInv_step g _ [BETTING] Hlog).
    + unfold newRound, setPlayerHands, setDealerHand, setActiveHandIdx,
        setResults, setState, emit, bind, modify. cbn [snd]. log_events.
      reflexivity.
    + unfold tableInv in Hinv. destruct (state g); try contradiction;
        reflexivity.
    + reflexivity.
Qed.

Lemma play_log (fuel : nat) (actions : list Action) :
  forall g g' : t,
    tableInv g -> logInv g -> play fuel actions g = Some g' -> logInv g'.
Proof.
  induction actions as [|a actions IH]; intros g g' Hinv Hlog Hplay;
    cbn in Hplay; [congruence|].
  pose proof (perform_table fuel a g Hinv) as Ht.
  pose proof (perform_log fuel a g Hinv Hlog) as Hl.
  destruct (perform fuel a g) as [[[]|message|] g1]; cbn [fst snd] in *;
    try discriminate;
    (destruct Ht as [Ht|Ht]; [discriminate|]);
    (destruct Hl as [Hl|Hl]; [discriminate|]); eauto.
Qed.

(** X13. The [stateChange] events of an engine follow the state machine:
    after any sequence of calls on a new engine, the states announced so
    far, in order, are a walk from BETTING along the transitions
    BETTING -> DEALING -> PLAYER_TURN -> DEALER_TURN -> SETTLEMENT ->
    GAME_OVER -> BETTING, DEALING -> SETTLEMENT (a natural ends the deal)
    and PLAYER_TURN -> BETTING, BETTING -> BETTING ([newRound] has no
    guard), and the last state announced is the state the engine is in. *)
Theorem announced_states_walk :
  forall (opts : Dealer.Opts) (r : Deck.Random) (fuel : nat)
         (actions : list Action) (g : t),
    play fuel actions (createGame opts r) = Some g ->
    walk BETTING (stateChanges (emitted g)) = true /\
    last (BETTING :: stateChanges (emitted g)) = Some (state g).
Proof.
  intros opts r fuel actions g Hplay.
  apply (play_log fuel actions (createGame opts r) g);
    [apply createGame_table| |exact Hplay].
  split; reflexivity.
Qed.

Lemma announced_states_walk_witness :
  let g0 := createGame Dealer.defaults (Deck.mkRandom id 0) in
  let g :=
    default g0
      (play 30
         [PlaceBets [Dealer.number 10; Dealer.number 20]; PlayerHit;
          PlayerStand; NewRound; PlaceBets [Dealer.number 5]; NewRound] g0) in
  walk BETTING (stateChanges (emitted g)) = true /\
  last (BETTING :: stateChanges (emitted g)) = Some (state g).
Proof.
  intros g0 g.
  apply (announced_states_walk Dealer.defaults (Deck.mkRandom id 0) 30
           [PlaceBets [Dealer.number 10; Dealer.number 20]; PlayerHit;
            PlayerStand; NewRound; PlaceBets [Dealer.number 5]; NewRound] g).
  vm_compute. reflexivity.
Defined.

(** ** The order of the deal *)

Lemma needsReshuffle_at (s : Deck.t) :
  Deck.needsReshuffle s
  = (Z.of_nat (length (Deck.cards s)) <=? reshuffleAt s)%Z.
Proof. reflexivity. Qed.

(** Above the reshuffle point, a draw takes the top card and touches
    nothing else. *)
Lemma draw_top (s : Deck.t) (card : Card.t) (rest : list Card.t) :
  Deck.cards s = card :: rest ->
  (reshuffleAt s < Z.of_nat (length (Deck.cards s)))%Z ->
  Deck.draw 1 s = ([card], withCards rest s).
Proof.
  intros Hcards Habove. unfold Deck.draw.
  rewrite needsReshuffle_at.
  destruct (Z.leb_spec (Z.of_nat (length (Deck.cards s))) (reshuffleAt s))
    as [H|_]; [lia|].
  rewrite Hcards. reflexivity.
Qed.

Lemma dealPass_order (hands : list Hand.t) :
  forall s : Deck.t,
    length hands <= length (Deck.cards s) ->
    (reshuffleAt s
     < Z.of_nat (length (Deck.cards s)) - Z.of_nat (length hands) + 1)%Z ->
    Dealer.dealPass hands s
    = (zip_with (fun hand card => Hand.addCards [card] hand) hands
         (take (length hands) (Deck.cards s)),
       withCards (drop (length hands) (Deck.cards s)) s).
Proof.
  induction hands as [|hand hands IH]; intros s Hlen Habove;
    cbn [Dealer.dealPass length].
  - cbn. destruct s; reflexivity.
  - cbn [length] in *.
    destruct (Deck.cards s) as [|card rest] eqn:Ecards; cbn [length] in *;
      [lia|].
    rewrite (draw_top s card rest Ecards) by (rewrite Ecards; cbn [length]; lia).
    rewrite (IH (withCards rest s)); cbn [withCards Deck.cards];
      [reflexivity|lia|].
    change (reshuffleAt (withCards rest s)) with (reshuffleAt s). lia.
Qed.

Lemma dealRound_order (hands : list Hand.t) (dHand : Hand.t) (s : Deck.t)
      (card : Card.t) :
  Deck.cards s !! length hands = Some card ->
  (reshuffleAt s
   < Z.of_nat (length (Deck.cards s)) - Z.of_nat (length hands))%Z ->
  Dealer.dealRound (hands, dHand) s
  = ((zip_with (fun hand card => Hand.addCards [card] hand) hands
        (take (length hands) (Deck.cards s)),
      Hand.addCards [card] dHand),
     withCards (drop (S (length hands)) (Deck.cards s)) s).
Proof.
  intros Hcard Habove. pose proof (lookup_lt_Some _ _ _ Hcard) as Hlen.
  unfold Dealer.dealRound. cbn [fst snd].
  rewrite (dealPass_order hands s) by lia.
  rewrite (draw_top _ card (drop (S (length hands)) (Deck.cards s))).
  - reflexivity.
  - cbn [withCards Deck.cards]. apply drop_S, Hcard.
  - cbn [withCards Deck.cards]. rewrite length_drop.
    change (reshuffleAt (withCards _ s)) with (reshuffleAt s). lia.
Qed.

Lemma seats_rows (f : nat -> Q) (n : nat) :
  forall (from : nat) (row1 row2 : list Card.t),
    length row1 = n -> length row2 = n ->
    map Hand.cards
      (zip_with (fun hand card => Hand.addCards [card] hand)
         (zip_with (fun hand card => Hand.addCards [card] hand)
            (map (fun i => Hand.createHand false (f i)) (seq from n)) row1)
         row2)
    = zip_with (fun first second => [first; second]) row1 row2.
Proof.
  induction n as [|n IH]; intros from row1 row2 H1 H2.
  - destruct row1; [|discriminate]. reflexivity.
  - destruct row1 as [|a row1]; [discriminate|].
    destruct row2 as [|b row2]; [discriminate|].
    cbn [seq map zip_with]. f_equal. apply IH; cbn in *; lia.
Qed.

(** X14. The deal is a round-robin off the top of the shoe.  When the
    shoe holds the [2 * numPlayers + 3] cards of the deal and stays more
    than one card above its reshuffle point until the last of them is
    drawn, [dealInitial] burns the top card onto the discard pile, gives
    the next [numPlayers] cards to the seats in order and the one after
    to the dealer, then does so again: seat [i] holds the cards at
    positions [1 + i] and [numPlayers + 2 + i] of the shoe, in that
    order, the dealer those at [numPlayers + 1] and
    [2 * numPlayers + 2]; the shoe keeps the cards from position
    [2 * numPlayers + 3] on, and is not reshuffled ([Math.random] is not
    called).  The margin of one card is for the engine's floating-point
    product, whose floor can lie one above [reshuffleAt]: at the
    boundary itself the engine may reshuffle where the exact threshold
    does not. *)
Theorem dealInitial_round_robin :
  forall (numPlayers : nat) (bets : list Dealer.Wager) (d : Dealer.t),
    let shoe := Deck.cards (Dealer.shoe d) in
    let dealt := Dealer.dealInitial numPlayers bets d in
    2 * numPlayers + 3 <= length shoe ->
    (reshuffleAt (Dealer.shoe d) + 1
     < Z.of_nat (length shoe) - Z.of_nat (2 * numPlayers + 2))%Z ->
    map Hand.cards (fst (fst dealt))
    = zip_with (fun first second => [first; second])
        (take numPlayers (drop 1 shoe))
        (take numPlayers (drop (numPlayers + 2) shoe)) /\
    Hand.cards (snd (fst dealt))
    = take 1 (drop (numPlayers + 1) shoe)
      ++ take 1 (drop (2 * numPlayers + 2) shoe) /\
    Deck.cards (Dealer.shoe (snd dealt)) = drop (2 * numPlayers + 3) shoe /\
    Deck.discardPile (Dealer.shoe (snd dealt))
    = Deck.discardPile (Dealer.shoe d) ++ take 1 shoe /\
    Deck.random (Dealer.shoe (snd dealt)) = Deck.random (Dealer.shoe d) /\
    Deck.totalCards (Dealer.shoe (snd dealt))
    = Deck.totalCards (Dealer.shoe d).
Proof.
  intros numPlayers bets d shoe dealt Hlen Habove. subst dealt.
  unfold Dealer.dealInitial, Dealer.burnCard, Deck.burn.
  cbn [fst snd Dealer.withShoe Dealer.shoe].
  fold shoe.
  set (s0 := {| Deck.numDecks := Deck.numDecks (Dealer.shoe d);
                Deck.cards := drop 1 shoe |}).
  set (seats := map (fun i => Hand.createHand false (Dealer.wagerAt bets i))
                    (seq 0 numPlayers)).
  assert (length seats = numPlayers) as Hseats
    by (subst seats; rewrite length_map, length_seq; reflexivity).
  assert (reshuffleAt s0 = reshuffleAt (Dealer.shoe d)) as Hat by reflexivity.
  assert (Deck.cards s0 = drop 1 shoe) as Hc0 by reflexivity.
  destruct (lookup_lt_is_Some_2 (drop 1 shoe) numPlayers) as [c1 Hc1];
    [rewrite length_drop; lia|].
  rewrite (dealRound_order seats _ s0 c1);
    [|rewrite Hseats, Hc0; exact Hc1
     |rewrite Hseats, Hc0, Hat, length_drop; lia].
  set (seats1 := zip_with _ seats _).
  assert (length seats1 = numPlayers) as Hseats1.
  { subst seats1. rewrite length_zip_with, length_take, Hseats, Hc0,
      length_drop. lia. }
  set (s1 := withCards _ s0).
  assert (Deck.cards s1 = drop (numPlayers + 2) shoe) as Hcs1.
  { subst s1. cbn [withCards Deck.cards]. rewrite Hseats, Hc0, drop_drop.
    f_equal. lia. }
  destruct (lookup_lt_is_Some_2 (Deck.cards s1) numPlayers) as [c2 Hc2];
    [rewrite Hcs1, length_drop; lia|].
  rewrite (dealRound_order seats1 _ s1 c2);
    [|rewrite Hseats1; exact Hc2
     |rewrite Hseats1, Hcs1, length_drop;
      change (reshuffleAt s1) with (reshuffleAt (Dealer.shoe d)); lia].
  cbn [fst snd Dealer.withShoe Dealer.shoe withCards Deck.cards
       Deck.discardPile Deck.random Deck.totalCards].
  split; [|split; [|split; [|split; [|split]]]]; try reflexivity.
  - rewrite Hseats1, Hcs1. subst seats1. rewrite Hseats, Hc0.
    subst seats. apply seats_rows; rewrite length_take, length_drop; lia.
  - cbn [Hand.addCards Hand.cards Hand.createHand app].
    rewrite Hcs1 in Hc2. rewrite lookup_drop in Hc1, Hc2.
    rewrite (take_S_r _ 0 c1), (take_S_r _ 0 c2);
      [reflexivity| |]; rewrite lookup_drop.
    + rewrite <- Hc2. f_equal. lia.
    + rewrite <- Hc1. f_equal. lia.
  - rewrite Hseats1, Hcs1, drop_drop. f_equal. lia.
Qed.

Lemma dealInitial_round_robin_witness :
  let d := Dealer.createDealer Dealer.defaults (Deck.mkRandom id 0) in
  let bets := [Dealer.number 10; Dealer.number 20] in
  let shoe := Deck.cards (Dealer.shoe d) in
  let dealt := Dealer.dealInitial 2 bets d in
  map Hand.cards (fst (fst dealt))
  = zip_with (fun first second => [first; second])
      (take 2 (drop 1 shoe)) (take 2 (drop (2 + 2) shoe)) /\
  Hand.cards (snd (fst dealt))
  = take 1 (drop (2 + 1) shoe) ++ take 1 (drop (2 * 2 + 2) shoe) /\
  Deck.cards (Dealer.shoe (snd dealt)) = drop (2 * 2 + 3) shoe /\
  Deck.discardPile (Dealer.shoe (snd dealt))
  = Deck.discardPile (Dealer.shoe d) ++ take 1 shoe /\
  Deck.random (Dealer.shoe (snd dealt)) = Deck.random (Dealer.shoe d) /\
  Deck.totalCards (Dealer.shoe (snd dealt)) = Deck.totalCards (Dealer.shoe d).
Proof.
  intros d bets.
  apply (dealInitial_round_robin 2 bets d);
    [vm_compute; lia|vm_compute; reflexivity].
Defined.

(** ** No card is lost or duplicated *)

Arguments weigh : simpl never.
Arguments heldWeight : simpl never.
Arguments shoeWeight : simpl never.

Section Weights.

Variable w : Card.t -> nat.

Lemma weigh_app (l l' : list Card.t) :
  weigh w (l ++ l') = weigh w l + weigh w l'.
Proof. apply sum_list_with_app. Qed.

Lemma weigh_take_drop (n : nat) (l : list Card.t) :
  weigh w (take n l) + weigh w (drop n l) = weigh w l.
Proof. rewrite <- weigh_app, take_drop. reflexivity. Qed.

Lemma weigh_perm (l l' : list Card.t) : l ≡ₚ l' -> weigh w l = weigh w l'.
Proof.
  induction 1 as [|c l l' _ IH|c c' l|l l' l'' _ IH1 _ IH2];
    unfold weigh in *; cbn [sum_list_with]; lia.
Qed.

Lemma shuffle_weight (arr : list Card.t) (r : Deck.Random) :
  weigh w (fst (Deck.fisherYatesShuffle arr r)) = weigh w arr.
Proof. apply weigh_perm, shuffleLoop_perm. Qed.

Lemma buildShoe_weight (n : nat) :
  weigh w (Deck.buildShoe n) = n * weigh w Deck.buildSingleDeck.
Proof.
  induction n as [|n IH]; cbn [Deck.buildShoe]; [reflexivity|].
  rewrite weigh_app, IH. lia.
Qed.

Lemma reset_weight (s : Deck.t) :
  shoeWeight w (Deck.reset s)
  = Deck.numDecks s * weigh w Deck.buildSingleDeck.
Proof.
  unfold Deck.reset, shoeWeight.
  pose proof (shuffle_weight (Deck.buildShoe (Deck.numDecks s))
                (Deck.random s)) as H.
  destruct (Deck.fisherYatesShuffle _ _) as [shuffled r].
  cbn [fst Deck.cards Deck.discardPile] in *.
  rewrite H, buildShoe_weight. change (weigh w []) with 0. lia.
Qed.

Lemma reshuffle_weight (s : Deck.t) :
  shoeWeight w (Deck.reshuffle s) = shoeWeight w s.
Proof.
  unfold Deck.reshuffle, shoeWeight.
  pose proof (shuffle_weight (Deck.cards s ++ Deck.discardPile s)
                (Deck.random s)) as H.
  destruct (Deck.fisherYatesShuffle _ _) as [shuffled r].
  cbn [fst Deck.cards Deck.discardPile] in *.
  rewrite H, weigh_app. change (weigh w []) with 0. lia.
Qed.

Lemma burn_weight (n : nat) (s : Deck.t) :
  shoeWeight w (snd (Deck.burn n s)) = shoeWeight w s.
Proof.
  unfold Deck.burn, shoeWeight. cbn [snd Deck.cards Deck.discardPile].
  rewrite weigh_app. pose proof (weigh_take_drop n (Deck.cards s)). lia.
Qed.

Lemma draw_weight (n : nat) (s : Deck.t) :
  shoeWeight w (snd (Deck.draw n s)) + weigh w (fst (Deck.draw n s))
  = shoeWeight w s.
Proof.
  unfold Deck.draw.
  set (s1 := if Deck.needsReshuffle s then Deck.reshuffle s else s).
  assert (shoeWeight w s1 = shoeWeight w s) as <-
    by (subst s1; destruct (Deck.needsReshuffle s);
        [apply reshuffle_weight|reflexivity]).
  set (count := if length (Deck.cards s1) <? n then length (Deck.cards s1)
                else n).
  unfold shoeWeight. cbn [fst snd Deck.cards Deck.discardPile].
  pose proof (weigh_take_drop count (Deck.cards s1)). lia.
Qed.

Lemma discard_weight (cards : list Card.t) (s : Deck.t) :
  shoeWeight w (Deck.discard cards s) = shoeWeight w s + weigh w cards.
Proof.
  unfold Deck.discard, shoeWeight. cbn [Deck.cards Deck.discardPile].
  rewrite weigh_app. lia.
Qed.

Lemma heldWeight_cons (hand : Hand.t) (hands : list Hand.t) :
  heldWeight w (hand :: hands)
  = weigh w (Hand.cards hand) + heldWeight w hands.
Proof. reflexivity. Qed.

Lemma heldWeight_app (hands1 hands2 : list Hand.t) :
  heldWeight w (hands1 ++ hands2) = heldWeight w hands1 + heldWeight w hands2.
Proof. apply sum_list_with_app. Qed.

Lemma heldWeight_cards (hands : list Hand.t) :
  weigh w (flat_map Hand.getCards hands) = heldWeight w hands.
Proof.
  induction hands as [|hand hands IH]; [reflexivity|].
  cbn [flat_map]. rewrite weigh_app, IH. reflexivity.
Qed.

Lemma heldWeight_insert (hands : list Hand.t) (i : nat) (old new : Hand.t) :
  hands !! i = Some old ->
  heldWeight w (<[i := new]> hands) + weigh w (Hand.cards old)
  = heldWeight w hands + weigh w (Hand.cards new).
Proof.
  revert i. induction hands as [|hand hands IH]; intros [|i] H;
    try discriminate; unfold heldWeight in *; simpl in *.
  - injection H as ->. lia.
  - specialize (IH i H). lia.
Qed.

Lemma heldWeight_splice (hands : list Hand.t) (i : nat) (old a b : Hand.t) :
  hands !! i = Some old ->
  heldWeight w (take i hands ++ [a; b] ++ drop (S i) hands)
  + weigh w (Hand.cards old)
  = heldWeight w hands + weigh w (Hand.cards a) + weigh w (Hand.cards b).
Proof.
  intros H.
  rewrite <- (take_drop_middle hands i old H) at 3.
  rewrite !heldWeight_app, !heldWeight_cons.
  change (heldWeight w []) with 0. lia.
Qed.

Lemma addCards_weight (cards : list Card.t) (hand : Hand.t) :
  weigh w (Hand.cards (Hand.addCards cards hand))
  = weigh w (Hand.cards hand) + weigh w cards.
Proof. cbn [Hand.addCards Hand.cards]. apply weigh_app. Qed.

Lemma hit_weight (hand : Hand.t) (d : Dealer.t) :
  shoeWeight w (Dealer.shoe (snd (Dealer.hit hand d)))
  + weigh w (Hand.cards (snd (fst (Dealer.hit hand d))))
  = shoeWeight w (Dealer.shoe d) + weigh w (Hand.cards hand).
Proof.
  rewrite (hit_draw hand d (draw_one _)). cbn [fst snd Dealer.withShoe Dealer.shoe].
  pose proof (draw_weight 1 (Dealer.shoe d)) as Hc.
  rewrite addCards_weight. lia.
Qed.

Lemma dealPass_weight (hands : list Hand.t) :
  forall s : Deck.t,
    shoeWeight w (snd (Dealer.dealPass hands s))
    + heldWeight w (fst (Dealer.dealPass hands s))
    = shoeWeight w s + heldWeight w hands.
Proof.
  induction hands as [|hand hands IH]; intros s; cbn [Dealer.dealPass];
    [reflexivity|].
  pose proof (draw_weight 1 s) as Hc.
  destruct (Deck.draw 1 s) as [drawn s1].
  specialize (IH s1). destruct (Dealer.dealPass hands s1) as [rest s2].
  cbn [fst snd] in *. rewrite !heldWeight_cons, addCards_weight. lia.
Qed.

Lemma dealRound_weight (hands : list Hand.t * Hand.t) (s : Deck.t) :
  shoeWeight w (snd (Dealer.dealRound hands s))
  + heldWeight w (fst (fst (Dealer.dealRound hands s)))
  + weigh w (Hand.cards (snd (fst (Dealer.dealRound hands s))))
  = shoeWeight w s + heldWeight w (fst hands)
    + weigh w (Hand.cards (snd hands)).
Proof.
  unfold Dealer.dealRound.
  pose proof (dealPass_weight (fst hands) s) as Hp.
  destruct (Dealer.dealPass (fst hands) s) as [playerHands s1].
  pose proof (draw_weight 1 s1) as Hc.
  destruct (Deck.draw 1 s1) as [drawn s2].
  cbn [fst snd] in *. rewrite addCards_weight. lia.
Qed.

Lemma heldWeight_fresh (f : nat -> Q) (l : list nat) :
  heldWeight w (map (fun i => Hand.createHand false (f i)) l) = 0.
Proof.
  induction l as [|i l IH]; [reflexivity|].
  cbn [map]. rewrite heldWeight_cons, IH. reflexivity.
Qed.

Lemma dealInitial_weight (numPlayers : nat) (bets : list Dealer.Wager)
      (d : Dealer.t) :
  shoeWeight w (Dealer.shoe (snd (Dealer.dealInitial numPlayers bets d)))
  + heldWeight w (fst (fst (Dealer.dealInitial numPlayers bets d)))
  + weigh w (Hand.cards (snd (fst (Dealer.dealInitial numPlayers bets d))))
  = shoeWeight w (Dealer.shoe d).
Proof.
  unfold Dealer.dealInitial, Dealer.burnCard.
  pose proof (burn_weight 1 (Dealer.shoe d)) as Hb.
  destruct (Deck.burn 1 (Dealer.shoe d)) as [burned s0].
  cbn [fst snd Dealer.withShoe Dealer.shoe] in *.
  match goal with
  | |- context [Dealer.dealRound ?start s0] =>
      pose proof (dealRound_weight start s0) as H1;
      destruct (Dealer.dealRound start s0) as [hands1 s1]
  end.
  pose proof (dealRound_weight hands1 s1) as H2.
  destruct (Dealer.dealRound hands1 s1) as [hands2 s2].
  cbn [fst snd Dealer.withShoe Dealer.shoe] in *.
  rewrite heldWeight_fresh in H1.
  change (weigh w (Hand.cards (Hand.createHand true 0%Q))) with 0 in H1. lia.
Qed.

Lemma dealerLoop_weight (fuel : nat) :
  forall (hand hand' : Hand.t) (d d' : Dealer.t),
    Dealer.dealerLoop fuel hand d = Some (hand', d') ->
    shoeWeight w (Dealer.shoe d') + weigh w (Hand.cards hand')
    = shoeWeight w (Dealer.shoe d) + weigh w (Hand.cards hand).
Proof.
  induction fuel as [|fuel IH]; intros hand hand' d d' H; cbn in H;
    [discriminate|].
  destruct (Dealer.shouldDealerHit d hand).
  - pose proof (hit_weight hand d) as Hc.
    destruct (Dealer.hit hand d) as [[card hand1] d1].
    apply IH in H. cbn [fst snd] in Hc. lia.
  - injection H as <- <-. reflexivity.
Qed.

Lemma playDealerHand_weight (fuel : nat) (hand hand' : Hand.t)
      (d d' : Dealer.t) (total : Z) :
  Dealer.playDealerHand fuel hand d = Some ((total, hand'), d') ->
  shoeWeight w (Dealer.shoe d') + weigh w (Hand.cards hand')
  = shoeWeight w (Dealer.shoe d) + weigh w (Hand.cards hand).
Proof.
  unfold Dealer.playDealerHand.
  destruct (Dealer.dealerLoop fuel hand d) as [[hand1 d1]|] eqn:E;
    [|discriminate].
  intros H. injection H as <- <- <-.
  apply dealerLoop_weight in E. exact E.
Qed.

Lemma settled_weight (g : t) (dHand : Hand.t) :
  shoeWeight w (Dealer.shoe (dealer (settled dHand g)))
  = shoeWeight w (Dealer.shoe (dealer g)) + heldWeight w (playerHands g)
    + weigh w (Hand.cards dHand).
Proof.
  cbn [settled dealer withEvent withState withDealer withResults
       Dealer.discardCards Dealer.withShoe Dealer.shoe playerHands].
  rewrite discard_weight, weigh_app, heldWeight_cards.
  unfold Hand.getCards. lia.
Qed.

(** The search for the next hand keeps the weight: it ends the round
    with everything in the shoe, or leaves the cards where they were. *)
Lemma skipSettledHands_weight (fuel total : nat) (g : t) (dHand : Hand.t) :
  dealerHand g = Some dHand ->
  state g = PLAYER_TURN ->
  shoeWeight w (Dealer.shoe (dealer g)) + heldWeight w (playerHands g)
  + weigh w (Hand.cards dHand) = total ->
  fst (skipSettledHands fuel g) = Running \/
  balanced w total (snd (skipSettledHands fuel g)).
Proof.
  intros Hd Hst Htotal. rewrite skipSettledHands_eq.
  destruct (length (playerHands g) <=? activeHandIdx (skipped g)).
  - rewrite (beginDealerTurn_eq fuel (skipped g) dHand Hd).
    destruct (forallb Hand.isBusted (playerHands (skipped g))).
    + right. cbn [snd]. unfold balanced.
      change (state (settled _ _)) with GAME_OVER. cbv iota.
      rewrite settled_weight. cbn. exact Htotal.
    + destruct (Dealer.playDealerHand fuel dHand (dealer (skipped g)))
        as [[[total' dHand'] d']|] eqn:Eplay; [|left; reflexivity].
      apply playDealerHand_weight in Eplay.
      right. cbn [snd]. unfold balanced.
      change (state (settled _ _)) with GAME_OVER. cbv iota.
      rewrite settled_weight. cbn in *. lia.
  - right. cbn [snd]. unfold balanced. cbn. rewrite Hst, Hd. exact Htotal.
Qed.

Lemma perform_balanced (fuel total : nat) (a : Action) (g : t) :
  tableInv g -> balanced w total g -> inOrder a g = true ->
  fst (perform fuel a g) = Running \/
  balanced w total (snd (perform fuel a g)).
Proof.
  intros Hinv Hbal Horder. destruct (permitted a g) eqn:Hguard;
    [|destruct (invalid_action_guard fuel a g Hguard) as [message ->];
      right; exact Hbal].
  destruct a as [bets| | | | |]; cbn [perform permitted] in *.
  - apply andb_prop in Hguard as [Hst Hbets]. apply state_eqb_eq in Hst.
    assert (bets <> []) as Hne by (destruct bets; [discriminate|congruence]).
    rewrite (placeBets_eq fuel bets g Hst Hne). cbv zeta.
    pose proof (dealInitial_weight (length bets) bets (dealer g)) as Hdeal.
    destruct (Dealer.dealInitial (length bets) bets (dealer g))
      as [[pHands dHand] d].
    cbn [fst snd] in *.
    unfold balanced in Hbal. rewrite Hst in Hbal.
    destruct (Hand.isBlackjack dHand || forallb Hand.isBlackjack pHands).
    + right. cbn [snd]. unfold balanced.
      change (state (settled _ _)) with GAME_OVER. cbv iota.
      rewrite settled_weight. cbn. lia.
    + apply (skipSettledHands_weight fuel total _ dHand); try reflexivity.
      cbn. lia.
  - apply state_eqb_eq in Hguard. unfold tableInv in Hinv.
    rewrite Hguard in Hinv.
    destruct Hinv as (_ & (dHand & Hd & _) & (hand & Hact & _) & _).
    unfold balanced in Hbal. rewrite Hguard, Hd in Hbal.
    cbn [dealerWeight] in Hbal.
    rewrite (playerHit_eq fuel g hand Hguard Hact). cbv zeta.
    pose proof (hit_weight hand (dealer g)) as Hh.
    destruct (Dealer.hit hand (dealer g)) as [[card hand'] d'].
    cbn [fst snd] in *.
    pose proof (heldWeight_insert _ _ _ hand' Hact) as Hi.
    destruct (Hand.isBusted hand').
    + rewrite advanceHand_eq.
      apply (skipSettledHands_weight fuel total _ dHand); try assumption.
      cbn. rewrite list_insert_insert_eq.
      pose proof (heldWeight_insert _ _ _ (Hand.settle hand') Hact) as Hi'.
      cbn [Hand.settle Hand.cards] in Hi'. lia.
    + right. cbn [snd]. unfold balanced. cbn. rewrite Hguard, Hd.
      cbn [dealerWeight]. lia.
  - apply state_eqb_eq in Hguard. unfold tableInv in Hinv.
    rewrite Hguard in Hinv.
    destruct Hinv as (_ & (dHand & Hd & _) & (hand & Hact & _) & _).
    unfold balanced in Hbal. rewrite Hguard, Hd in Hbal.
    cbn [dealerWeight] in Hbal.
    rewrite (playerStand_eq fuel g hand Hguard Hact), advanceHand_eq.
    apply (skipSettledHands_weight fuel total _ dHand); try assumption.
    cbn.
    pose proof (heldWeight_insert _ _ _ (Hand.settle hand) Hact) as Hi.
    cbn [Hand.settle Hand.cards] in Hi. lia.
  - apply andb_prop in Hguard as [Hst Hlen]. apply state_eqb_eq in Hst.
    unfold tableInv in Hinv. rewrite Hst in Hinv.
    destruct Hinv as (_ & (dHand & Hd & _) & (hand & Hact & _) & _).
    unfold balanced in Hbal. rewrite Hst, Hd in Hbal.
    cbn [dealerWeight] in Hbal.
    rewrite Hact in Hlen. apply Nat.eqb_eq in Hlen.
    rewrite (playerDoubleDown_eq fuel g hand Hst Hact Hlen). cbv zeta.
    pose proof (hit_weight (Hand.doubleBet hand) (dealer g)) as Hh.
    destruct (Dealer.hit (Hand.doubleBet hand) (dealer g))
      as [[card hand'] d'].
    cbn [fst snd] in *. rewrite advanceHand_eq. unfold doubledGame.
    pose proof (heldWeight_insert _ _ _ (Hand.settle hand') Hact) as Hi.
    cbn [Hand.settle Hand.doubleBet Hand.cards] in Hi, Hh.
    destruct (Hand.isBusted (Hand.settle hand'));
      apply (skipSettledHands_weight fuel total _ dHand); try assumption;
      cbn; lia.
  - apply andb_prop in Hguard as [Hst Hpair]. apply state_eqb_eq in Hst.
    unfold tableInv in Hinv. rewrite Hst in Hinv.
    destruct Hinv as (_ & (dHand & Hd & _) & (hand & Hact & _) & _).
    unfold balanced in Hbal. rewrite Hst, Hd in Hbal.
    cbn [dealerWeight] in Hbal.
    rewrite Hact in Hpair.
    destruct (Hand.cards hand) as [|c0 [|c1 [|c2 rest]]] eqn:Ecards;
      try discriminate.
    apply bool_decide_eq_true in Hpair.
    rewrite (playerSplit_eq fuel g hand c0 c1 Hst Hact Ecards Hpair).
    cbv zeta.
    pose proof (hit_weight
                  (Hand.addCards [c0] (Hand.createHand false (Hand.bet hand)))
                  (dealer g)) as HA.
    destruct (Dealer.hit (Hand.addCards [c0] _) (dealer g))
      as [[cardA handA] d1].
    cbn [fst snd] in *.
    pose proof (hit_weight
                  (Hand.addCards [c1] (Hand.createHand false (Hand.bet hand)))
                  d1) as HB.
    destruct (Dealer.hit (Hand.addCards [c1] _) d1) as [[cardB handB] d2].
    cbn [fst snd] in *.
    apply (skipSettledHands_weight fuel total _ dHand); try assumption.
    cbn [dealer playerHands splitGame withEvent withPlayerHands withDealer].
    pose proof (heldWeight_splice _ _ _ handA handB Hact) as Hsp.
    rewrite Ecards in Hsp.
    cbn [Hand.addCards Hand.createHand Hand.cards app] in HA, HB.
    unfold weigh in *. cbn [sum_list_with] in *. lia.
  - right. unfold balanced in *. cbn.
    unfold betweenRounds in Horder. apply orb_prop in Horder as [H|H];
      apply state_eqb_eq in H; rewrite H in Hbal; exact Hbal.
Qed.

Lemma run_balanced (fuel total : nat) (actions : list Action) :
  forall g g' : t,
    tableInv g -> balanced w total g ->
    run fuel actions g = Some g' -> balanced w total g'.
Proof.
  induction actions as [|a actions IH]; intros g g' Hinv Hbal Hrun;
    cbn in Hrun; [congruence|].
  destruct (inOrder a g) eqn:Horder; [|discriminate].
  pose proof (perform_table fuel a g Hinv) as Ht.
  pose proof (perform_balanced fuel total a g Hinv Hbal Horder) as Hb.
  destruct (perform fuel a g) as [[[]|message|] g1]; cbn [fst snd] in *;
    try discriminate;
    (destruct Ht as [Ht|Ht]; [discriminate|]);
    (destruct Hb as [Hb|Hb]; [discriminate|]); eauto.
Qed.

End Weights.

Lemma weigh_copyOf (card : Card.t) (l : list Card.t) :
  weigh (copyOf card) l = count_occ card_eq_dec l card.
Proof.
  induction l as [|c l IH]; [reflexivity|].
  unfold weigh in *. cbn [sum_list_with count_occ]. rewrite IH.
  unfold copyOf, decide, decide_rel. destruct (card_eq_dec c card); lia.
Qed.

(** Two lists that weigh the same for every weight hold the same cards. *)
Lemma same_weights_perm (l l' : list Card.t) :
  (forall card : Card.t, weigh (copyOf card) l = weigh (copyOf card) l') ->
  l ≡ₚ l'.
Proof.
  intros H. apply (Permutation_count_occ card_eq_dec). intros card.
  rewrite <- !weigh_copyOf. apply H.
Qed.

Lemma tableCards_weight (w : Card.t -> nat) (g : t) :
  weigh w (tableCards g)
  = heldWeight w (playerHands g) + dealerWeight w (dealerHand g).
Proof.
  unfold tableCards. rewrite weigh_app.
  change (flat_map Hand.cards (playerHands g))
    with (flat_map Hand.getCards (playerHands g)).
  rewrite heldWeight_cards. destruct (dealerHand g); reflexivity.
Qed.

Lemma createGame_balanced (w : Card.t -> nat) (opts : Dealer.Opts)
      (r : Deck.Random) :
  balanced w (Dealer.numDecks opts * weigh w Deck.buildSingleDeck)
           (createGame opts r).
Proof. unfold balanced. cbn. apply reset_weight. Qed.

Lemma deck_NoDup : NoDup Deck.buildSingleDeck.
Proof.
  apply (bool_decide_unpack (NoDup Deck.buildSingleDeck)). vm_compute.
  exact I.
Qed.

(** X15. No card is lost and none is duplicated.  After any sequence of
    actions on a new engine that plays its rounds to the end ([newRound]
    only between rounds), whatever the options and the shuffles: during
    the player's turn the live shoe, the discard pile, the player hands
    and the dealer hand together are a permutation of [numDecks] decks
    of the 52 distinct cards; with no round in progress (BETTING,
    GAME_OVER) the live shoe and the discard pile are. *)
Theorem cards_are_conserved :
  forall (opts : Dealer.Opts) (r : Deck.Random) (fuel : nat)
         (actions : list Action) (g : t),
    run fuel actions (createGame opts r) = Some g ->
    (if state_eqb (state g) PLAYER_TURN
     then shoeCards (Dealer.shoe (dealer g)) ++ tableCards g
          ≡ₚ Deck.buildShoe (Dealer.numDecks opts)
     else shoeCards (Dealer.shoe (dealer g))
          ≡ₚ Deck.buildShoe (Dealer.numDecks opts)) /\
    NoDup Deck.buildSingleDeck /\
    length Deck.buildSingleDeck = 52.
Proof.
  intros opts r fuel actions g Hrun.
  split; [|split; [exact deck_NoDup|reflexivity]].
  pose proof (play_table fuel actions _ g (createGame_table opts r)
                (run_play fuel actions _ g Hrun)) as Hinv.
  assert (forall w : Card.t -> nat,
             balanced w (weigh w (Deck.buildShoe (Dealer.numDecks opts))) g)
    as Hbal.
  { intros w. rewrite buildShoe_weight.
    exact (run_balanced w fuel _ actions _ g (createGame_table opts r)
             (createGame_balanced w opts r) Hrun). }
  unfold tableInv in Hinv. unfold balanced in Hbal.
  destruct (state g); try contradiction; cbn [state_eqb];
    apply same_weights_perm; intros card; specialize (Hbal (copyOf card));
    unfold shoeCards; rewrite ?weigh_app, ?tableCards_weight;
    unfold shoeWeight in Hbal; lia.
Qed.

Lemma cards_are_conserved_witness :
  let g0 := createGame Dealer.defaults (Deck.mkRandom id 0) in
  let g :=
    default g0
      (run 30
         [PlaceBets [Dealer.number 10; Dealer.number 20]; PlayerHit;
          PlayerStand; NewRound; PlaceBets [Dealer.number 5];
          PlayerDoubleDown; NewRound; PlaceBets [Dealer.number 5]] g0) in
  (if state_eqb (state g) PLAYER_TURN
   then shoeCards (Dealer.shoe (dealer g)) ++ tableCards g
        ≡ₚ Deck.buildShoe (Dealer.numDecks Dealer.defaults)
   else shoeCards (Dealer.shoe (dealer g))
        ≡ₚ Deck.buildShoe (Dealer.numDecks Dealer.defaults)) /\
  NoDup Deck.buildSingleDeck /\
  length Deck.buildSingleDeck = 52.
Proof.
  intros g0 g.
  apply (cards_are_conserved Dealer.defaults (Deck.mkRandom id 0) 30
           [PlaceBets [Dealer.number 10; Dealer.number 20]; PlayerHit;
            PlayerStand; NewRound; PlaceBets [Dealer.number 5];
            PlayerDoubleDown; NewRound; PlaceBets [Dealer.number 5]] g).
  vm_compute. reflexivity.
Defined.

(** ** Every action returns while the shoe can feed the dealer *)

Lemma hit_penetration (hand : Hand.t) (d : Dealer.t) :
  Deck.penetration (Dealer.shoe (snd (Dealer.hit hand d)))
  = Deck.penetration (Dealer.shoe d).
Proof.
  rewrite (hit_draw hand d (draw_one _)).
  cbn [snd Dealer.shoe Dealer.withShoe]. apply draw_penetration.
Qed.

Lemma dealPass_penetration (hands : list Hand.t) :
  forall s : Deck.t,
    Deck.penetration (snd (Dealer.dealPass hands s)) = Deck.penetration s.
Proof.
  induction hands as [|hand hands IH]; intros s; cbn [Dealer.dealPass];
    [reflexivity|].
  pose proof (draw_penetration 1 s) as Hp.
  destruct (Deck.draw 1 s) as [drawn s1].
  specialize (IH s1). destruct (Dealer.dealPass hands s1) as [rest s2].
  cbn [fst snd] in *. congruence.
Qed.

Lemma dealRound_penetration (hands : list Hand.t * Hand.t) (s : Deck.t) :
  Deck.penetration (snd (Dealer.dealRound hands s)) = Deck.penetration s.
Proof.
  unfold Dealer.dealRound.
  pose proof (dealPass_penetration (fst hands) s) as Hp.
  destruct (Dealer.dealPass (fst hands) s) as [playerHands s1].
  pose proof (draw_penetration 1 s1) as Hd.
  destruct (Deck.draw 1 s1) as [drawn s2]. cbn [fst snd] in *. congruence.
Qed.

Lemma dealInitial_penetration (numPlayers : nat) (bets : list Dealer.Wager)
      (d : Dealer.t) :
  Deck.penetration (Dealer.shoe (snd (Dealer.dealInitial numPlayers bets d)))
  = Deck.penetration (Dealer.shoe d).
Proof.
  unfold Dealer.dealInitial, Dealer.burnCard, Deck.burn.
  cbn [fst snd Dealer.withShoe Dealer.shoe].
  match goal with
  | |- context [Dealer.dealRound ?start ?s0] =>
      pose proof (dealRound_penetration start s0) as H1;
      destruct (Dealer.dealRound start s0) as [hands1 s1]
  end.
  pose proof (dealRound_penetration hands1 s1) as H2.
  destruct (Dealer.dealRound hands1 s1) as [hands2 s2].
  cbn [fst snd Dealer.withShoe Dealer.shoe Deck.penetration] in *. congruence.
Qed.

Lemma dealerLoop_penetration (fuel : nat) :
  forall (hand hand' : Hand.t) (d d' : Dealer.t),
    Dealer.dealerLoop fuel hand d = Some (hand', d') ->
    Deck.penetration (Dealer.shoe d') = Deck.penetration (Dealer.shoe d).
Proof.
  induction fuel as [|fuel IH]; intros hand hand' d d' H; cbn in H;
    [discriminate|].
  destruct (Dealer.shouldDealerHit d hand).
  - pose proof (hit_penetration hand d) as Hp.
    destruct (Dealer.hit hand d) as [[card hand1] d1].
    apply IH in H. cbn [fst snd] in Hp. congruence.
  - injection H as <- <-. reflexivity.
Qed.

Lemma skipSettledHands_penetration (fuel : nat) (g : t) (dHand : Hand.t) :
  dealerHand g = Some dHand ->
  Deck.penetration (Dealer.shoe (dealer (snd (skipSettledHands fuel g))))
  = Deck.penetration (Dealer.shoe (dealer g)).
Proof.
  intros Hd. rewrite skipSettledHands_eq.
  destruct (length (playerHands g) <=? activeHandIdx (skipped g));
    [|reflexivity].
  rewrite (beginDealerTurn_eq fuel (skipped g) dHand Hd).
  destruct (forallb Hand.isBusted (playerHands (skipped g)));
    [reflexivity|].
  unfold Dealer.playDealerHand.
  destruct (Dealer.dealerLoop fuel dHand (dealer (skipped g)))
    as [[h1 d1]|] eqn:Eloop; [|reflexivity].
  apply dealerLoop_penetration in Eloop. cbn. exact Eloop.
Qed.

(** No action changes the penetration of the shoe. *)
Lemma perform_penetration (fuel : nat) (a : Action) (g : t) :
  tableInv g ->
  Deck.penetration (Dealer.shoe (dealer (snd (perform fuel a g))))
  = Deck.penetration (Dealer.shoe (dealer g)).
Proof.
  intros Hinv. destruct (permitted a g) eqn:Hguard;
    [|destruct (invalid_action_guard fuel a g Hguard) as [message ->];
      reflexivity].
  destruct a as [bets| | | | |]; cbn [perform permitted] in *.
  - apply andb_prop in Hguard as [Hst Hbets]. apply state_eqb_eq in Hst.
    assert (bets <> []) as Hne by (destruct bets; [discriminate|congruence]).
    rewrite (placeBets_eq fuel bets g Hst Hne). cbv zeta.
    pose proof (dealInitial_penetration (length bets) bets (dealer g)) as Hp.
    destruct (Dealer.dealInitial (length bets) bets (dealer g))
      as [[pHands dHand] d].
    cbn [fst snd] in *.
    destruct (Hand.isBlackjack dHand || forallb Hand.isBlackjack pHands).
    + cbn. exact Hp.
    + rewrite (skipSettledHands_penetration fuel _ dHand) by reflexivity.
      cbn. exact Hp.
  - apply state_eqb_eq in Hguard. unfold tableInv in Hinv.
    rewrite Hguard in Hinv.
    destruct Hinv as (_ & (dHand & Hd & _) & (hand & Hact & _) & _).
    rewrite (playerHit_eq fuel g hand Hguard Hact). cbv zeta.
    pose proof (hit_penetration hand (dealer g)) as Hp.
    destruct (Dealer.hit hand (dealer g)) as [[card hand'] d'].
    cbn [fst snd] in *. destruct (Hand.isBusted hand').
    + rewrite advanceHand_eq.
      rewrite (skipSettledHands_penetration fuel _ dHand) by exact Hd.
      cbn. exact Hp.
    + cbn. exact Hp.
  - apply state_eqb_eq in Hguard. unfold tableInv in Hinv.
    rewrite Hguard in Hinv.
    destruct Hinv as (_ & (dHand & Hd & _) & (hand & Hact & _) & _).
    rewrite (playerStand_eq fuel g hand Hguard Hact), advanceHand_eq.
    rewrite (skipSettledHands_penetration fuel _ dHand) by exact Hd.
    reflexivity.
  - apply andb_prop in Hguard as [Hst Hlen]. apply state_eqb_eq in Hst.
    unfold tableInv in Hinv. rewrite Hst in Hinv.
    destruct Hinv as (_ & (dHand & Hd & _) & (hand & Hact & _) & _).
    rewrite Hact in Hlen. apply Nat.eqb_eq in Hlen.
    rewrite (playerDoubleDown_eq fuel g hand Hst Hact Hlen). cbv zeta.
    pose proof (hit_penetration (Hand.doubleBet hand) (dealer g)) as Hp.
    destruct (Dealer.hit (Hand.doubleBet hand) (dealer g))
      as [[card hand'] d'].
    cbn [fst snd] in *. rewrite advanceHand_eq. unfold doubledGame.
    destruct (Hand.isBusted (Hand.settle hand'));
      rewrite (skipSettledHands_penetration fuel _ dHand) by exact Hd;
      cbn; exact Hp.
  - apply andb_prop in Hguard as [Hst Hpair]. apply state_eqb_eq in Hst.
    unfold tableInv in Hinv. rewrite Hst in Hinv.
    destruct Hinv as (_ & (dHand & Hd & _) & (hand & Hact & _) & _).
    rewrite Hact in Hpair.
    destruct (Hand.cards hand) as [|c0 [|c1 [|c2 rest]]] eqn:Ecards;
      try discriminate.
    apply bool_decide_eq_true in Hpair.
    rewrite (playerSplit_eq fuel g hand c0 c1 Hst Hact Ecards Hpair).
    cbv zeta.
    pose proof (hit_penetration
                  (Hand.addCards [c0] (Hand.createHand false (Hand.bet hand)))
                  (dealer g)) as HA.
    destruct (Dealer.hit (Hand.addCards [c0] _) (dealer g))
      as [[cardA handA] d1].
    cbn [fst snd] in *.
    pose proof (hit_penetration
                  (Hand.addCards [c1] (Hand.createHand false (Hand.bet hand)))
                  d1) as HB.
    destruct (Dealer.hit (Hand.addCards [c1] _) d1) as [[cardB handB] d2].
    cbn [fst snd] in *.
    rewrite (skipSettledHands_penetration fuel _ dHand) by exact Hd.
    cbn. congruence.
  - reflexivity.
Qed.

Lemma run_penetration (fuel : nat) (actions : list Action) :
  forall g g' : t,
    tableInv g -> run fuel actions g = Some g' ->
    Deck.penetration (Dealer.shoe (dealer g'))
    = Deck.penetration (Dealer.shoe (dealer g)).
Proof.
  induction actions as [|a actions IH]; intros g g' Hinv Hrun;
    cbn in Hrun; [congruence|].
  destruct (inOrder a g); [|discriminate].
  pose proof (perform_table fuel a g Hinv) as Ht.
  pose proof (perform_penetration fuel a g Hinv) as Hp.
  destruct (perform fuel a g) as [[[]|message|] g1]; cbn [fst snd] in *;
    try discriminate;
    (destruct Ht as [Ht|Ht]; [discriminate|]);
    rewrite (IH g1 g' Ht Hrun); exact Hp.
Qed.

Lemma createGame_penetration (opts : Dealer.Opts) (r : Deck.Random) :
  Deck.penetration (Dealer.shoe (dealer (createGame opts r)))
  = Dealer.penetration opts.
Proof.
  cbn. unfold Deck.createDeck, Deck.reset.
  destruct (Deck.fisherYatesShuffle _ _). reflexivity.
Qed.

(** The dealer's turn returns when the shoe holds the cards that take
    the dealer hand to 17, every Ace at 1. *)
Lemma beginDealerTurn_returns (fuel : nat) (g : t) (dHand : Hand.t) :
  dealerHand g = Some dHand ->
  (Deck.penetration (Dealer.shoe (dealer g)) <= 1)%Q ->
  standardShoe (Dealer.shoe (dealer g)) ->
  standardHand dHand ->
  (17 <= hardSum (Hand.cards dHand)
         + Z.of_nat (shoeCount (Dealer.shoe (dealer g))))%Z ->
  17 < fuel ->
  fst (beginDealerTurn fuel g) = Returned tt.
Proof.
  intros Hd Hp Hs Hh Hfeed Hfuel. rewrite (beginDealerTurn_eq fuel g dHand Hd).
  destruct (forallb Hand.isBusted (playerHands g)); [reflexivity|].
  pose proof (hardSum_nonneg _ Hh) as Hpos.
  destruct (dealerLoop_returns (Z.to_nat (17 - hardSum (Hand.cards dHand)))
              dHand (dealer g) Hp Hs Hh)
    as (n & Hn & Hstop & Hbefore); [lia|lia|].
  unfold Dealer.playDealerHand.
  rewrite (dealerLoop_complete n dHand (dealer g) fuel Hbefore Hstop)
    by lia.
  destruct (hits n dHand (dealer g)) as [h1 d1]. reflexivity.
Qed.

Lemma skipSettledHands_returns (fuel : nat) (g : t) (dHand : Hand.t) :
  dealerHand g = Some dHand ->
  (Deck.penetration (Dealer.shoe (dealer g)) <= 1)%Q ->
  standardShoe (Dealer.shoe (dealer g)) ->
  standardHand dHand ->
  (17 <= hardSum (Hand.cards dHand)
         + Z.of_nat (shoeCount (Dealer.shoe (dealer g))))%Z ->
  17 < fuel ->
  fst (skipSettledHands fuel g) = Returned tt.
Proof.
  intros Hd Hp Hs Hh Hfeed Hfuel. rewrite skipSettledHands_eq.
  destruct (length (playerHands g) <=? activeHandIdx (skipped g));
    [|reflexivity].
  apply (beginDealerTurn_returns fuel (skipped g) dHand); assumption.
Qed.

Lemma hit_leaves (hand : Hand.t) (d : Dealer.t) :
  shoeCount (Dealer.shoe d) <= shoeCount (Dealer.shoe (snd (Dealer.hit hand d))) + 1.
Proof.
  pose proof (hit_count hand d) as Hc.
  destruct (hit_appends hand d) as (drawn & Hone & Hcards & _).
  unfold Hand.size in Hc. rewrite Hcards, length_app in Hc. lia.
Qed.

(** An action returns when, after its draws, the shoe holds the cards
    that take the dealer hand to 17. *)
Lemma perform_returns (fuel : nat) (a : Action) (g : t) :
  tableInv g ->
  standardGame g ->
  (Deck.penetration (Dealer.shoe (dealer g)) <= 1)%Q ->
  (forall dHand : Hand.t,
     state g = PLAYER_TURN ->
     dealerHand g = Some dHand ->
     17 + Z.of_nat (drawsOf a)
     <= hardSum (Hand.cards dHand)
        + Z.of_nat (shoeCount (Dealer.shoe (dealer g))))%Z ->
  17 < fuel ->
  fst (perform fuel a g) <> Running.
Proof.
  intros Hinv Hg Hp Hfeed Hfuel. destruct (permitted a g) eqn:Hguard;
    [|destruct (invalid_action_guard fuel a g Hguard) as [message ->];
      discriminate].
  pose proof Hg as (Hs & Hhands & Hdh).
  destruct a as [bets| | | | |]; cbn [perform permitted drawsOf] in *.
  - apply andb_prop in Hguard as [Hst Hbets]. apply state_eqb_eq in Hst.
    assert (bets <> []) as Hne by (destruct bets; [discriminate|congruence]).
    destruct (placeBets_after_standard_deal fuel bets g Hst Hne Hs) as [-> _].
    discriminate.
  - apply state_eqb_eq in Hguard. unfold tableInv in Hinv.
    rewrite Hguard in Hinv.
    destruct Hinv as (_ & (dHand & Hd & _) & (hand & Hact & _) & _).
    specialize (Hfeed dHand Hguard Hd). specialize (Hdh dHand Hd).
    rewrite (playerHit_eq fuel g hand Hguard Hact). cbv zeta.
    pose proof (hit_leaves hand (dealer g)) as Hleft.
    pose proof (hit_penetration hand (dealer g)) as Hpen.
    assert (standardHand hand) as Hh.
    { unfold getActiveHand in Hact.
      exact (Forall_lookup_1 _ _ _ _ Hhands Hact). }
    pose proof (hit_standard hand (dealer g) Hs Hh) as [Hs1 _].
    destruct (Dealer.hit hand (dealer g)) as [[card hand'] d'].
    cbn [fst snd] in *. destruct (Hand.isBusted hand'); [|discriminate].
    rewrite advanceHand_eq.
    rewrite (skipSettledHands_returns fuel _ dHand);
      [discriminate|..]; try assumption; cbn;
      first [lia|rewrite Hpen; exact Hp].
  - apply state_eqb_eq in Hguard. unfold tableInv in Hinv.
    rewrite Hguard in Hinv.
    destruct Hinv as (_ & (dHand & Hd & _) & (hand & Hact & _) & _).
    specialize (Hfeed dHand Hguard Hd). specialize (Hdh dHand Hd).
    rewrite (playerStand_eq fuel g hand Hguard Hact), advanceHand_eq.
    rewrite (skipSettledHands_returns fuel _ dHand);
      [discriminate|..]; try assumption; cbn; lia.
  - apply andb_prop in Hguard as [Hst Hlen]. apply state_eqb_eq in Hst.
    unfold tableInv in Hinv. rewrite Hst in Hinv.
    destruct Hinv as (_ & (dHand & Hd & _) & (hand & Hact & _) & _).
    specialize (Hfeed dHand Hst Hd). specialize (Hdh dHand Hd).
    rewrite Hact in Hlen. apply Nat.eqb_eq in Hlen.
    rewrite (playerDoubleDown_eq fuel g hand Hst Hact Hlen). cbv zeta.
    pose proof (hit_leaves (Hand.doubleBet hand) (dealer g)) as Hleft.
    pose proof (hit_penetration (Hand.doubleBet hand) (dealer g)) as Hpen.
    assert (standardHand (Hand.doubleBet hand)) as Hh.
    { unfold getActiveHand in Hact.
      exact (Forall_lookup_1 _ _ _ _ Hhands Hact). }
    pose proof (hit_standard _ (dealer g) Hs Hh) as [Hs1 _].
    destruct (Dealer.hit (Hand.doubleBet hand) (dealer g))
      as [[card hand'] d'].
    cbn [fst snd] in *. rewrite advanceHand_eq. unfold doubledGame.
    destruct (Hand.isBusted (Hand.settle hand'));
      (rewrite (skipSettledHands_returns fuel _ dHand);
       [discriminate|..]; try assumption; cbn;
       first [lia|rewrite Hpen; exact Hp]).
  - apply andb_prop in Hguard as [Hst Hpair]. apply state_eqb_eq in Hst.
    unfold tableInv in Hinv. rewrite Hst in Hinv.
    destruct Hinv as (_ & (dHand & Hd & _) & (hand & Hact & _) & _).
    specialize (Hfeed dHand Hst Hd). specialize (Hdh dHand Hd).
    rewrite Hact in Hpair.
    destruct (Hand.cards hand) as [|c0 [|c1 [|c2 rest]]] eqn:Ecards;
      try discriminate.
    apply bool_decide_eq_true in Hpair.
    rewrite (playerSplit_eq fuel g hand c0 c1 Hst Hact Ecards Hpair).
    cbv zeta.
    assert (standardHand hand) as Hh.
    { unfold getActiveHand in Hact.
      exact (Forall_lookup_1 _ _ _ _ Hhands Hact). }
    unfold standardHand in Hh. rewrite Ecards in Hh.
    apply Forall_cons in Hh as [Hc0 Hh]. apply Forall_cons in Hh as [Hc1 _].
    set (seedA := Hand.addCards [c0] (Hand.createHand false (Hand.bet hand))).
    set (seedB := Hand.addCards [c1] (Hand.createHand false (Hand.bet hand))).
    assert (standardHand seedA) as HsA by (constructor; [exact Hc0|constructor]).
    assert (standardHand seedB) as HsB by (constructor; [exact Hc1|constructor]).
    pose proof (hit_leaves seedA (dealer g)) as HleftA.
    pose proof (hit_penetration seedA (dealer g)) as HpenA.
    pose proof (hit_standard seedA (dealer g) Hs HsA) as [Hs1 _].
    destruct (Dealer.hit seedA (dealer g)) as [[cardA handA] d1].
    cbn [fst snd] in *.
    pose proof (hit_leaves seedB d1) as HleftB.
    pose proof (hit_penetration seedB d1) as HpenB.
    pose proof (hit_standard seedB d1 Hs1 HsB) as [Hs2 _].
    destruct (Dealer.hit seedB d1) as [[cardB handB] d2].
    cbn [fst snd] in *.
    rewrite (skipSettledHands_returns fuel _ dHand);
      [discriminate|..]; try assumption; cbn;
      first [lia|rewrite HpenB, HpenA; exact Hp].
  - discriminate.
Qed.

(** X16. Every action returns while the shoe can feed the dealer.  After
    any sequence of actions on a new engine with a penetration of at
    most 1 that plays its rounds to the end, if the shoe holds 19 cards
    or more, live or discarded (that is, the hands hold at most
    [numDecks * 52 - 19]), then every action returns or throws at once:
    the dealer's loop ends within 17 hits. *)
Theorem action_returns_on_fed_shoe :
  forall (opts : Dealer.Opts) (r : Deck.Random) (fuel0 : nat)
         (actions : list Action) (g : t) (a : Action) (fuel : nat),
    run fuel0 actions (createGame opts r) = Some g ->
    (Dealer.penetration opts <= 1)%Q ->
    19 <= shoeCount (Dealer.shoe (dealer g)) ->
    17 < fuel ->
    exists (g' : t),
      perform fuel a g = (Returned tt, g') \/
      exists message : string, perform fuel a g = (Thrown message, g').
Proof.
  intros opts r fuel0 actions g a fuel Hrun Hp Hcount Hfuel.
  pose proof (run_play fuel0 actions _ g Hrun) as Hplay.
  pose proof (play_table fuel0 actions _ g (createGame_table opts r) Hplay)
    as Hinv.
  pose proof (run_standard _ fuel0 actions _ g (createGame_inv opts r)
                (createGame_standard opts r) Hrun) as Hg.
  pose proof (run_penetration fuel0 actions _ g (createGame_table opts r)
                Hrun) as Hpen.
  rewrite createGame_penetration in Hpen.
  assert (fst (perform fuel a g) <> Running) as Hret.
  { apply perform_returns; try assumption; [rewrite Hpen; exact Hp|].
    intros dHand _ Hd. destruct Hg as (_ & _ & Hdh).
    pose proof (hardSum_nonneg _ (Hdh dHand Hd)).
    assert (drawsOf a <= 2) by (destruct a; cbn; lia). lia. }
  destruct (perform fuel a g) as [[[]|message|] g'];
    [exists g'; left; reflexivity|exists g'; right; eauto|contradiction].
Qed.

Lemma action_returns_on_fed_shoe_witness :
  let g0 := createGame Dealer.defaults (Deck.mkRandom id 0) in
  let g :=
    default g0
      (run 30 [PlaceBets [Dealer.number 10; Dealer.number 20]; PlayerHit]
         g0) in
  exists (g' : t),
    perform 18 PlayerStand g = (Returned tt, g') \/
    exists message : string, perform 18 PlayerStand g = (Thrown message, g').
Proof.
  intros g0 g.
  apply (action_returns_on_fed_shoe Dealer.defaults (Deck.mkRandom id 0) 30
           [PlaceBets [Dealer.number 10; Dealer.number 20]; PlayerHit]);
    [vm_compute; reflexivity|vm_compute; discriminate|vm_compute; lia|lia].
Defined.

(** ** The demo round of main.js *)

Arguments toPlay : simpl never.

Lemma hit_supplied (hand : Hand.t) (d : Dealer.t) :
  (Deck.penetration (Dealer.shoe d) <= 1)%Q ->
  1 <= shoeCount (Dealer.shoe d) ->
  exists card : Card.t,
    fst (Dealer.hit hand d) = (Some card, Hand.addCards [card] hand).
Proof.
  intros Hp Hcount.
  pose proof (draw_supplies (Dealer.shoe d) Hp Hcount) as Hone.
  rewrite (hit_draw hand d) by lia. cbn [fst].
  destruct (fst (Deck.draw 1 (Dealer.shoe d))) as [|card [|c rest]];
    try discriminate.
  exists card. reflexivity.
Qed.

Lemma size_le_hardSum (cards : list Card.t) :
  Forall standard cards -> (Z.of_nat (length cards) <= hardSum cards)%Z.
Proof.
  induction 1 as [|card cards Hc _ IH]; [reflexivity|].
  cbn [hardSum foldr length]. fold (hardSum cards).
  destruct (standard_hard card Hc) as [H1 _]. lia.
Qed.

Lemma size_le_total (hand : Hand.t) :
  standardHand hand -> (Z.of_nat (Hand.size hand) <= Hand.htotal hand)%Z.
Proof.
  intros Hh. pose proof (size_le_hardSum _ Hh).
  destruct (total_bounds _ Hh) as [Hlow _].
  unfold Hand.size, Hand.htotal. lia.
Qed.

Lemma forallb_snoc {A} (f : A -> bool) (l : list A) (x : A) :
  forallb f (l ++ [x]) = forallb f l && f x.
Proof. rewrite forallb_app. cbn. rewrite andb_true_r. reflexivity. Qed.

(** The search for the next hand leaves the player hands alone, adds no
    hit to the log and, when the turn goes on, leaves the dealer and the
    dealer hand alone and does not move the index back. *)
Lemma skipSettledHands_frame (fuel : nat) (g : t) (dHand : Hand.t) :
  dealerHand g = Some dHand ->
  playerHands (snd (skipSettledHands fuel g)) = playerHands g /\
  (forallb printable (emitted g) = true ->
   forallb printable (emitted (snd (skipSettledHands fuel g))) = true) /\
  (state (snd (skipSettledHands fuel g)) = PLAYER_TURN ->
   dealerHand (snd (skipSettledHands fuel g)) = dealerHand g /\
   dealer (snd (skipSettledHands fuel g)) = dealer g /\
   activeHandIdx g <= activeHandIdx (snd (skipSettledHands fuel g))).
Proof.
  intros Hd. rewrite skipSettledHands_eq.
  destruct (skipLoop_spec (length (playerHands g)) (playerHands g)
              (activeHandIdx g)) as (Hle & _); [lia|].
  destruct (length (playerHands g) <=? activeHandIdx (skipped g)).
  - rewrite (beginDealerTurn_eq fuel (skipped g) dHand Hd).
    destruct (forallb Hand.isBusted (playerHands (skipped g))).
    + cbn [snd]. split; [reflexivity|]. split; [|discriminate].
      intros Hlog. cbn. rewrite !forallb_snoc, Hlog. reflexivity.
    + destruct (Dealer.playDealerHand fuel dHand (dealer (skipped g)))
        as [[[total dHand'] d']|]; cbn [snd].
      * split; [reflexivity|]. split; [|discriminate].
        intros Hlog. cbn. rewrite !forallb_snoc, Hlog. reflexivity.
      * split; [reflexivity|]. split; [|discriminate].
        intros Hlog. cbn. rewrite !forallb_snoc, Hlog. reflexivity.
  - cbn [snd]. split; [reflexivity|]. split.
    + intros Hlog. cbn. rewrite !forallb_snoc, Hlog. reflexivity.
    + intros _. split; [reflexivity|]. split; [reflexivity|]. exact Hle.
Qed.

Lemma toPlay_from (f : Hand.t -> nat) (hands : list Hand.t) (i j : nat) :
  i <= j ->
  sum_list_with f (drop j hands) <= sum_list_with f (drop i hands).
Proof.
  intros Hle. replace j with (i + (j - i)) by lia.
  rewrite <- drop_drop.
  rewrite <- (take_drop (j - i) (drop i hands)) at 2.
  rewrite sum_list_with_app. lia.
Qed.

Lemma toPlay_at (f : Hand.t -> nat) (hands : list Hand.t) (i : nat)
      (hand : Hand.t) :
  hands !! i = Some hand ->
  sum_list_with f (drop i hands)
  = f hand + sum_list_with f (drop (S i) hands).
Proof. intros H. rewrite (drop_S _ _ _ H). reflexivity. Qed.

Lemma drop_insert_above {A} (l : list A) (i : nat) (x : A) :
  drop (S i) (<[i := x]> l) = drop (S i) l.
Proof. apply drop_insert_lt. lia. Qed.

Lemma returned_pair {A B} (p : A * B) (a : A) : fst p = a -> p = (a, snd p).
Proof. destruct p. cbn. congruence. Qed.

(** One iteration of the loop: the call returns, and fewer calls are
    left to make. *)
Lemma demo_step (fuel : nat) (g : t) :
  demoInv g ->
  state g = PLAYER_TURN ->
  17 < fuel ->
  exists (hand : Hand.t) (g' : t),
    getActiveHand g = Some hand /\
    (if (Hand.htotal hand <? 17)%Z then playerHit fuel
     else playerStand fuel) g = (Returned tt, g') /\
    demoInv g' /\
    (state g' = PLAYER_TURN -> toPlay g' < toPlay g).
Proof.
  intros (Hinv & Hlen & Hlog & _ & Hturn) Hst Hfuel.
  destruct (Hturn Hst) as (Hg & Hround & Hpen & Hsizes & Hdsize).
  pose proof Hinv as Hinv0. unfold tableInv in Hinv0. rewrite Hst in Hinv0.
  destruct Hinv0 as (_ & (dHand & Hd & _) & (hand & Hact & _) & _).
  exists hand.
  pose proof Hg as (Hs & Hhands & Hdh). specialize (Hdh dHand Hd).
  specialize (Hdsize dHand Hd).
  pose proof (proj1 Hround) as Hc. unfold conserved in Hc.
  rewrite Hst, Hd in Hc. cbn [heldByDealer] in Hc.
  assert (Deck.penetration (Dealer.shoe (dealer g)) <= 1)%Q as Hp
    by (rewrite Hpen; discriminate).
  pose proof (size_le_hardSum _ Hdh) as Hdhard. fold (Hand.size dHand) in Hdhard.
  assert (standardHand hand) as Hh
    by (exact (Forall_lookup_1 _ _ _ _ Hhands Hact)).
  assert (Hand.size hand <= 17) as Hsize
    by (exact (Forall_lookup_1 _ _ _ _ Hsizes Hact)).
  pose proof (heldBy_insert (playerHands g) (activeHandIdx g) hand) as Hins.
  unfold getActiveHand in Hact.
  assert (heldBy (playerHands g) <= Hand.size hand + 17) as Hheld.
  { destruct (playerHands g) as [|h0 [|h1 [|h2 rest]]]; try discriminate.
    apply Forall_cons in Hsizes as [H0 Hsizes].
    apply Forall_cons in Hsizes as [H1 _].
    unfold heldBy. cbn [sum_list_with].
    destruct (activeHandIdx g) as [|[|i]]; cbn in Hact;
      try discriminate; injection Hact as <-; lia. }
  set (a := if (Hand.htotal hand <? 17)%Z then PlayerHit else PlayerStand).
  assert (permitted a g = true) as Hguard
    by (subst a; destruct (_ <? 17)%Z; cbn; rewrite Hst; reflexivity).
  assert ((if (Hand.htotal hand <? 17)%Z then playerHit fuel
           else playerStand fuel) g = perform fuel a g) as ->
    by (subst a; destruct (_ <? 17)%Z; reflexivity).
  assert (fst (perform fuel a g) <> Running) as Hret.
  { apply perform_returns; try assumption.
    intros dHand' _ Hd'. rewrite Hd in Hd'. injection Hd' as <-.
    subst a. destruct (Hand.htotal hand <? 17)%Z eqn:Elow; cbn [drawsOf].
    - apply Z.ltb_lt in Elow. pose proof (size_le_total hand Hh). lia.
    - lia. }
  pose proof (permitted_goesWell fuel a g Hinv Hguard) as Hwell.
  pose proof (perform_standard 52 fuel a g Hround Hg) as Hstd.
  pose proof (perform_keeps 52 fuel a g Hround) as Hkeep.
  pose proof (perform_penetration fuel a g Hinv) as Hpen'.
  destruct Hwell as [Hrun|[Hreturned Hinv']]; [contradiction|].
  destruct Hkeep as [Hrun|Hround'];
    [subst a; destruct (_ <? 17)%Z; reflexivity|contradiction|].
  exists (snd (perform fuel a g)).
  split; [exact Hact|].
  split; [apply returned_pair, Hreturned|].
  rewrite Hpen in Hpen'.
  (* what the call does to the hands, the log and the count of calls *)
  assert (length (playerHands (snd (perform fuel a g))) = 2 /\
          forallb printable (emitted (snd (perform fuel a g))) = true /\
          (state (snd (perform fuel a g)) = PLAYER_TURN ->
           Forall (fun hand => Hand.size hand <= 17)
                  (playerHands (snd (perform fuel a g))) /\
           dealerHand (snd (perform fuel a g)) = Some dHand /\
           toPlay (snd (perform fuel a g)) < toPlay g))
    as (Hlen' & Hlog' & Hturn').
  { clear Hret Hinv' Hstd Hround' Hpen' Hreturned.
    unfold toPlay at 2. rewrite (toPlay_at _ _ _ hand Hact).
    subst a. destruct (Hand.htotal hand <? 17)%Z eqn:Elow; cbn [perform].
    - apply Z.ltb_lt in Elow. pose proof (size_le_total hand Hh) as Hlow.
      rewrite (playerHit_eq fuel g hand Hst Hact). cbv zeta.
      destruct (hit_supplied hand (dealer g) Hp) as [card Ehit]; [lia|].
      destruct (Dealer.hit hand (dealer g)) as [[card' hand'] d'].
      cbn [fst snd] in *. injection Ehit as -> ->.
      assert (Hand.size (Hand.addCards [card] hand) = S (Hand.size hand))
        as Hgrown by (rewrite addCards_size; cbn; lia).
      destruct (Hand.isBusted (Hand.addCards [card] hand)).
      + rewrite advanceHand_eq.
        match goal with
        | |- context [skipSettledHands fuel ?g1] =>
            destruct (skipSettledHands_frame fuel g1 dHand Hd)
              as (Hhands' & Hlogs & Hnext)
        end.
        rewrite Hhands'. cbn [playerHands withActiveHandIdx bustGame hitGame
          withEvent withPlayerHands withDealer activeHandIdx] in *.
        rewrite list_insert_insert_eq in *.
        split; [rewrite length_insert; exact Hlen|]. split.
        * apply Hlogs. cbn. rewrite !forallb_snoc, Hlog. reflexivity.
        * intros Hst'. destruct (Hnext Hst') as (Hd' & _ & Hidx).
          split; [|split; [rewrite Hd'; exact Hd|]].
          -- apply Forall_insert; [exact Hsizes|].
             change (Hand.size (Hand.addCards [card] hand) <= 17). lia.
          -- unfold toPlay. rewrite Hhands'.
             cbn [playerHands withActiveHandIdx bustGame hitGame
                  withEvent withPlayerHands withDealer activeHandIdx].
             rewrite ?list_insert_insert_eq.
             eapply Nat.le_lt_trans; [apply toPlay_from, Hidx|].
             rewrite drop_insert_above. lia.
      + cbn [snd playerHands hitGame withEvent withPlayerHands withDealer
             emitted state dealerHand].
        split; [rewrite length_insert; exact Hlen|]. split.
        * rewrite forallb_snoc, Hlog. reflexivity.
        * intros _. split; [|split; [exact Hd|]].
          -- apply Forall_insert; [exact Hsizes|].
             change (Hand.size (Hand.addCards [card] hand) <= 17). lia.
          -- unfold toPlay.
             cbn [playerHands activeHandIdx hitGame withEvent
                  withPlayerHands withDealer].
             rewrite (toPlay_at _ _ _ (Hand.addCards [card] hand))
               by (apply list_lookup_insert_eq;
                   apply lookup_lt_Some in Hact; exact Hact).
             rewrite drop_insert_above. lia.
    - rewrite (playerStand_eq fuel g hand Hst Hact), advanceHand_eq.
      match goal with
      | |- context [skipSettledHands fuel ?g1] =>
          destruct (skipSettledHands_frame fuel g1 dHand Hd)
            as (Hhands' & Hlogs & Hnext)
      end.
      rewrite Hhands'. cbn [playerHands withActiveHandIdx stoodGame
        withEvent withPlayerHands activeHandIdx] in *.
      split; [rewrite length_insert; exact Hlen|]. split.
      + apply Hlogs. cbn. rewrite !forallb_snoc, Hlog. reflexivity.
      + intros Hst'. destruct (Hnext Hst') as (Hd' & _ & Hidx).
        split; [|split; [rewrite Hd'; exact Hd|]].
        * apply Forall_insert; [exact Hsizes|].
          change (Hand.size hand <= 17). exact Hsize.
        * unfold toPlay. rewrite Hhands'.
          cbn [playerHands withActiveHandIdx stoodGame
               withEvent withPlayerHands activeHandIdx].
          eapply Nat.le_lt_trans; [apply toPlay_from, Hidx|].
          rewrite drop_insert_above. lia. }
  split; [|intros Hst'; exact (proj2 (proj2 (Hturn' Hst')))].
  split; [exact Hinv'|]. split; [exact Hlen'|]. split; [exact Hlog'|].
  split.
  { unfold tableInv in Hinv'.
    destruct (state (snd (perform fuel a g))); auto; try contradiction.
    destruct Hinv' as [E _]. rewrite E in Hlen'. discriminate. }
  intros Hst'. destruct (Hturn' Hst') as (Hsizes' & Hd' & _).
  split; [exact Hstd|]. split; [exact Hround'|]. split; [exact Hpen'|].
  split; [exact Hsizes'|].
  intros dHand' E. rewrite Hd' in E. injection E as <-. exact Hdsize.
Qed.

Lemma toPlay_bound (g : t) :
  toPlay g <= 18 * length (playerHands g).
Proof.
  unfold toPlay.
  etransitivity; [apply (toPlay_from _ _ 0); lia|]. rewrite drop_0.
  induction (playerHands g) as [|hand hands IH]; cbn [sum_list_with length];
    lia.
Qed.

Lemma toPlay_positive (g : t) :
  demoInv g -> state g = PLAYER_TURN -> 0 < toPlay g.
Proof.
  intros (Hinv & _ & _ & _ & Hturn) Hst.
  destruct (Hturn Hst) as (_ & _ & _ & Hsizes & _).
  unfold tableInv in Hinv. rewrite Hst in Hinv.
  destruct Hinv as (_ & _ & (hand & Hact & _) & _).
  unfold toPlay. rewrite (toPlay_at _ _ _ hand Hact).
  pose proof (Forall_lookup_1 _ _ _ _ Hsizes Hact) as Hsize.
  cbn beta in Hsize. lia.
Qed.

(** The loop ends, with the round over, within the calls that are left
    to make. *)
Lemma autoPlay_completes (fuel : nat) :
  17 < fuel ->
  forall (loops : nat) (g : t),
    demoInv g ->
    (state g = PLAYER_TURN -> toPlay g < loops) ->
    0 < loops ->
    exists g' : t,
      Main.autoPlay loops fuel g = (Returned tt, g') /\
      demoInv g' /\ state g' = GAME_OVER.
Proof.
  intros Hfuel. induction loops as [|loops IH]; intros g Hdemo Hleft Hpos;
    [lia|].
  cbn [Main.autoPlay]. unfold bind at 1, get at 1.
  pose proof Hdemo as (_ & _ & _ & [Hst|Hst] & _); rewrite Hst;
    cbn [state_eqb]; [|exists g; unfold ret; auto].
  destruct (demo_step fuel g Hdemo Hst Hfuel)
    as (hand & g1 & Hact & Hcall & Hdemo1 & Hless).
  rewrite Hact. unfold bind. rewrite Hcall.
  pose proof (toPlay_positive g Hdemo Hst) as Hsome.
  specialize (Hleft Hst).
  apply IH; [exact Hdemo1| |lia].
  intros Hst1. specialize (Hless Hst1). lia.
Qed.

Lemma placeBets_log (fuel : nat) (bets : list Dealer.Wager) (g : t) :
  state g = BETTING ->
  bets <> [] ->
  forallb printable (emitted g) = true ->
  forallb printable (emitted (snd (placeBets fuel bets g))) = true.
Proof.
  intros Hst Hne Hlog. rewrite (placeBets_eq fuel bets g Hst Hne). cbv zeta.
  destruct (Dealer.dealInitial (length bets) bets (dealer g))
    as [[pHands dHand] d].
  cbn [fst snd].
  destruct (Hand.isBlackjack dHand || forallb Hand.isBlackjack pHands).
  - cbn. rewrite !forallb_snoc, Hlog. reflexivity.
  - match goal with
    | |- context [skipSettledHands fuel ?g1] =>
        destruct (skipSettledHands_frame fuel g1 dHand) as (_ & Hlogs & _);
          [reflexivity|]
    end.
    apply Hlogs. cbn. rewrite !forallb_snoc, Hlog. reflexivity.
Qed.

(** A bet of two wagers leaves the engine ready for the loop. *)
Lemma demo_deal (fuel : nat) (bets : list Dealer.Wager) (g0 : t) :
  length bets = 2 ->
  state g0 = BETTING ->
  tableInv g0 ->
  standardGame g0 ->
  roundInv 52 g0 ->
  Deck.penetration (Dealer.shoe (dealer g0)) = (3 # 4)%Q ->
  forallb printable (emitted g0) = true ->
  exists g : t,
    placeBets fuel bets g0 = (Returned tt, g) /\ demoInv g.
Proof.
  intros Hbets Hst Hinv Hg Hround Hpen0 Hlog0.
  assert (bets <> []) as Hne by (intros ->; discriminate Hbets).
  assert (permitted (PlaceBets bets) g0 = true) as Hguard
    by (cbn [permitted]; rewrite Hst, Hbets; reflexivity).
  destruct (placeBets_after_standard_deal fuel bets g0 Hst Hne
              (proj1 Hg)) as (Hret & Hhands & Hdealer & Hcase).
  pose proof (placeBets_log fuel bets g0 Hst Hne Hlog0) as Hlog.
  pose proof (perform_standard 52 fuel (PlaceBets bets) g0 Hround Hg)
    as Hstd.
  pose proof (perform_keeps 52 fuel (PlaceBets bets) g0 Hround eq_refl)
    as Hkeep.
  pose proof (perform_penetration fuel (PlaceBets bets) g0 Hinv) as Hpen.
  pose proof (permitted_goesWell fuel (PlaceBets bets) g0 Hinv Hguard)
    as Hwell.
  pose proof (dealInitial_dealt (length bets) bets (dealer g0) (proj1 Hg))
    as [Hdealt Hddealt].
  pose proof (dealInitial_flags (length bets) bets (dealer g0)) as [Hlen _].
  cbn [perform] in *.
  exists (snd (placeBets fuel bets g0)).
  split; [apply returned_pair, Hret|].
  destruct Hwell as [Hrun|[_ Hinv1]];
    [rewrite Hret in Hrun; discriminate Hrun|].
  destruct Hkeep as [Hrun|Hround1];
    [rewrite Hret in Hrun; discriminate Hrun|].
  split; [exact Hinv1|]. split; [rewrite Hhands, Hlen; exact Hbets|].
  split; [exact Hlog|]. split.
  { destruct (_ || _); [right|left]; apply Hcase. }
  intros Hst1. split; [exact Hstd|]. split; [exact Hround1|].
  split; [rewrite Hpen; exact Hpen0|]. split.
  - rewrite Hhands. eapply Forall_impl; [exact Hdealt|].
    intros hand (_ & _ & Hsize). lia.
  - intros dHand Hd. rewrite Hdealer in Hd.
    destruct Hddealt as (_ & _ & Hsize). clear - Hd Hsize.
    apply (inj Some) in Hd. rewrite <- Hd. exact Hsize.
Qed.

(** X17. The demo round of [main.js] always completes.  Whatever the
    shuffle, the bet of the two players returns, the loop that plays
    each hand (hit below 17, stand otherwise) ends after 36 calls at
    most, no call throws, and the dealer's loop returns; the engine is
    then in GAME_OVER with two player hands and two results, and every
    hit announced to the console view carries a card. *)
Theorem demo_round_completes :
  forall (r : Deck.Random) (loops fuel : nat),
    36 < loops ->
    17 < fuel ->
    exists g : t,
      Main.main loops fuel r = (Returned tt, g) /\
      state g = GAME_OVER /\
      length (playerHands g) = 2 /\
      length (results g) = 2 /\
      forallb printable (emitted g) = true.
Proof.
  intros r loops fuel Hloops Hfuel. unfold Main.main, bind.
  destruct (demo_deal fuel Main.bets (createGame Main.GAME_OPTS r))
    as (g1 & -> & Hdemo1);
    [reflexivity|reflexivity|apply createGame_table|apply createGame_standard
    |exact (createGame_inv Main.GAME_OPTS r)
    |apply createGame_penetration|reflexivity|].
  destruct (autoPlay_completes fuel Hfuel loops g1 Hdemo1)
    as (g & -> & (Hinv & Hlen & Hlog & _) & Hst); [|lia|].
  { intros _. pose proof (toPlay_bound g1) as Hb.
    destruct Hdemo1 as (_ & Hlen1 & _). rewrite Hlen1 in Hb. lia. }
  exists g. split; [reflexivity|]. split; [exact Hst|].
  split; [exact Hlen|]. split; [|exact Hlog].
  unfold tableInv in Hinv. rewrite Hst in Hinv.
  destruct Hinv as (dHand & _ & -> & _).
  unfold Evaluator.settleRound. rewrite length_map. exact Hlen.
Qed.

Lemma demo_round_completes_witness :
  exists g : t,
    Main.main 37 18 (Deck.mkRandom id 0) = (Returned tt, g) /\
    state g = GAME_OVER /\
    length (playerHands g) = 2 /\
    length (results g) = 2 /\
    forallb printable (emitted g) = true.
Proof. apply demo_round_completes; lia. Defined.

(** ** The legacy dealer *)

(** A seat gets the next card of the deck while there is one. *)
Lemma dealRow_spec (hands : list (list Card.t)) :
  forall deck : list Card.t,
    Legacy.dealRow hands deck
    = ((zip_with (fun hand card => hand ++ [card]) hands deck
        ++ drop (length deck) hands,
        drop (length hands) deck),
       length deck <? length hands).
Proof.
  induction hands as [|hand hands IH]; intros deck; cbn [Legacy.dealRow].
  - destruct deck; reflexivity.
  - destruct deck as [|card deck]; [reflexivity|].
    cbn [Legacy.draw Z.leb Z.compare Z.to_nat Pos.to_nat Pos.iter_op
         Init.Nat.add take drop].
    rewrite IH. reflexivity.
Qed.

Lemma dealRounds_spec (n : nat) (rounds : nat) :
  forall (hands : list (list Card.t)) (deck : list Card.t),
    1 <= n ->
    length hands = n ->
    let m := (rounds * n) `min` length deck in
    snd (Legacy.dealRounds rounds hands deck) = drop m deck /\
    length (fst (Legacy.dealRounds rounds hands deck)) = n /\
    sum_list_with length (fst (Legacy.dealRounds rounds hands deck))
    = sum_list_with length hands + m /\
    forall (p : nat) (hand : list Card.t),
      hands !! p = Some hand ->
      exists column : list Card.t,
        fst (Legacy.dealRounds rounds hands deck) !! p
        = Some (hand ++ column) /\
        forall j : nat,
          column !! j
          = if j * n + p <? m then deck !! (j * n + p) else None.
Proof.
  induction rounds as [|rounds IH]; intros hands deck Hn Hlen m.
  - subst m. cbn. rewrite drop_0. split; [reflexivity|].
    split; [exact Hlen|]. split; [lia|].
    intros p hand Hp. exists []. rewrite app_nil_r. split; [exact Hp|].
    intros j. reflexivity.
  - cbn [Legacy.dealRounds]. rewrite dealRow_spec, Hlen.
    destruct (length deck <? n) eqn:Eshort.
    + (* the deck runs out in this round *)
      apply Nat.ltb_lt in Eshort. cbn [fst snd].
      assert (m = length deck) as Hm by (subst m; nia).
      rewrite Hm. split; [rewrite !drop_ge; [reflexivity|lia|lia]|].
      split; [rewrite length_app, length_zip_with, length_drop; lia|].
      split.
      * clear IH Hm m. revert deck Eshort. rewrite <- Hlen. clear Hlen Hn.
        induction hands as [|hand hands IHh]; intros [|card deck] Hshort;
          cbn [zip_with drop length app sum_list_with] in *; try lia.
        rewrite length_app. cbn [length]. specialize (IHh deck). lia.
      * intros p hand Hp.
        destruct (deck !! p) as [card|] eqn:Ecard.
        -- exists [card]. split.
           ++ rewrite lookup_app_l
                by (rewrite length_zip_with; apply lookup_lt_Some in Ecard;
                    lia).
              rewrite lookup_zip_with, Hp, Ecard. reflexivity.
           ++ intros [|j]; cbn [lookup list_lookup].
              ** pose proof (lookup_lt_Some _ _ _ Ecard) as Hlt.
                 cbn [Nat.mul Nat.add].
                 destruct (Nat.ltb_spec p (length deck)); [|lia].
                 exact (eq_sym Ecard).
              ** rewrite ?lookup_nil.
                 destruct (Nat.ltb_spec (S j * n + p) (length deck));
                   [nia|destruct j; reflexivity].
        -- exists []. rewrite app_nil_r. apply lookup_ge_None in Ecard. split.
           ++ rewrite lookup_app_r by (rewrite length_zip_with; lia).
              rewrite length_zip_with, lookup_drop, <- Hp. f_equal. lia.
           ++ intros j. rewrite lookup_nil.
              destruct (Nat.ltb_spec (j * n + p) (length deck));
                [lia|reflexivity].
    + (* a full round, then the others *)
      apply Nat.ltb_ge in Eshort.
      rewrite (drop_ge hands) by lia. rewrite app_nil_r.
      set (hands1 := zip_with (fun hand card => hand ++ [card]) hands deck).
      assert (length hands1 = n) as Hlen1
        by (subst hands1; rewrite length_zip_with; lia).
      destruct (IH hands1 (drop n deck) Hn Hlen1)
        as (Hdeck & Hlen' & Hsum & Hcols).
      rewrite length_drop in *.
      assert ((rounds * n) `min` (length deck - n) + n = m) as Hm
        by (subst m; nia).
      split; [rewrite Hdeck, drop_drop; f_equal; lia|].
      split; [exact Hlen'|]. split.
      * rewrite Hsum. subst hands1.
        assert (sum_list_with length
                  (zip_with (fun hand card => hand ++ [card]) hands deck)
                = sum_list_with length hands + length hands) as ->; [|lia].
        clear - Hlen Eshort. revert deck Eshort. rewrite <- Hlen. clear.
        induction hands as [|hand hands IHh]; intros [|card deck] Hshort;
          cbn [zip_with length sum_list_with] in *; try lia.
        rewrite length_app. cbn [length]. specialize (IHh deck). lia.
      * intros p hand Hp.
        pose proof (lookup_lt_Some _ _ _ Hp) as Hplt.
        destruct (lookup_lt_is_Some_2 deck p) as [card Ecard]; [lia|].
        destruct (Hcols p (hand ++ [card])) as (column & Hcol & Hat).
        { subst hands1. rewrite lookup_zip_with, Hp, Ecard. reflexivity. }
        exists (card :: column). split.
        -- rewrite Hcol, <- app_assoc. reflexivity.
        -- intros [|j]; cbn [lookup list_lookup].
           ++ cbn [Nat.mul Nat.add].
              destruct (Nat.ltb_spec p m); [exact (eq_sym Ecard)|lia].
           ++ change (column !! j
                      = if S j * n + p <? m then deck !! (S j * n + p)
                        else None).
              rewrite Hat, lookup_drop.
              replace (n + (j * n + p)) with (S j * n + p) by lia.
              destruct (Nat.ltb_spec (j * n + p)
                          ((rounds * n) `min` (length deck - n)));
                destruct (Nat.ltb_spec (S j * n + p) m); try reflexivity;
                lia.
Qed.

Lemma legacy_deck : Legacy.createDeck = Deck.buildSingleDeck.
Proof. vm_compute. reflexivity. Qed.

Lemma initShuffledDeck_perm (r : Deck.Random) :
  Legacy.shuffledDeck (Legacy.initShuffledDeck r) ≡ₚ Deck.buildSingleDeck.
Proof.
  unfold Legacy.initShuffledDeck, Legacy.shuffle.
  pose proof (proj1 (shuffleLoop_perm (length Legacy.createDeck - 1)
                       Legacy.createDeck r)) as H.
  destruct (Deck.shuffleLoop _ _ _) as [deck r']. cbn [fst] in *.
  rewrite <- legacy_deck. exact H.
Qed.

Lemma empty_hands (n : nat) :
  sum_list_with length (replicate n (@nil Card.t)) = 0.
Proof. induction n as [|n IH]; [reflexivity|exact IH]. Qed.

Lemma dealHands_deals (n k : Z) (s : Legacy.t) :
  (1 <= n <= 4294967295)%Z -> (0 <= k)%Z ->
  let deck := Legacy.shuffledDeck s in
  let m := Z.to_nat (n * k) `min` length deck in
  exists hands : list (list Card.t),
    Legacy.dealHands (Legacy.Int n) (Legacy.Int k) s
    = (Legacy.Ok hands,
       {| Legacy.shuffledDeck := drop m deck;
          Legacy.random := Legacy.random s |}) /\
    length hands = Z.to_nat n /\
    sum_list_with length hands = m /\
    forall (p j : nat) (hand : list Card.t),
      hands !! p = Some hand ->
      hand !! j
      = if j * Z.to_nat n + p <? m then deck !! (j * Z.to_nat n + p)
        else None.
Proof.
  intros Hn Hk deck m. unfold Legacy.dealHands.
  destruct (Z.ltb_spec n 1) as [H|_]; [lia|].
  destruct (Z.ltb_spec k 0) as [H|_]; [lia|].
  destruct (Z.ltb_spec 4294967295 n) as [H|_]; [lia|].
  destruct (dealRounds_spec (Z.to_nat n) (Z.to_nat k)
              (replicate (Z.to_nat n) []) deck)
    as (Hdeck & Hlen & Hsum & Hcols); [lia|apply length_replicate|].
  fold deck.
  destruct (Legacy.dealRounds _ _ deck) as [hands deck'].
  cbn [fst snd] in *.
  assert (Z.to_nat k * Z.to_nat n = Z.to_nat (n * k)) as Hm by nia.
  rewrite Hm in *. fold m in Hdeck, Hsum, Hcols.
  exists hands. split; [rewrite Hdeck; reflexivity|].
  split; [exact Hlen|]. split.
  - rewrite Hsum. rewrite empty_hands. lia.
  - intros p j hand Hp.
    pose proof (lookup_lt_Some _ _ _ Hp) as Hplt. rewrite Hlen in Hplt.
    destruct (Hcols p []) as (column & Hcol & Hat).
    { apply lookup_replicate_2. exact Hplt. }
    rewrite Hp in Hcol. injection Hcol as ->. apply Hat.
Qed.

Lemma remaining_perm (s : Legacy.t) (deck : list Card.t) :
  Legacy.shuffledDeck s ≡ₚ deck -> Legacy.remaining s = length deck.
Proof. intros H. unfold Legacy.remaining. rewrite H. reflexivity. Qed.

(** Four hands of two cards off a deck of 52. *)
Lemma legacy_demo (s : Legacy.t) :
  Legacy.remaining s = 52 ->
  exists (hands : list (list Card.t)) (s' : Legacy.t),
    Legacy.dealHands (Legacy.Int 4) (Legacy.Int 2) s
    = (Legacy.Ok hands, s') /\
    length hands = 4 /\
    Forall (fun hand => length hand = 2) hands /\
    Legacy.remaining s' = 44.
Proof.
  intros Hall. unfold Legacy.remaining in Hall.
  destruct (dealHands_deals 4 2 s ltac:(lia) ltac:(lia))
    as (hands & Hcall & Hlen & Hsum & Hat).
  rewrite Hall in Hcall, Hsum, Hat.
  change (Z.to_nat (4 * 2) `min` 52) with 8 in Hcall, Hsum, Hat.
  change (Z.to_nat 4) with 4 in Hlen, Hat.
  eexists hands, _. split; [exact Hcall|]. split; [exact Hlen|]. split.
  - apply Forall_lookup_2. intros p hand Hp.
    pose proof (lookup_lt_Some _ _ _ Hp) as Hplt. rewrite Hlen in Hplt.
    pose proof (Hat p 1 hand Hp) as H1. pose proof (Hat p 2 hand Hp) as H2.
    destruct (Nat.ltb_spec (1 * 4 + p) 8) as [_|]; [|lia].
    destruct (Nat.ltb_spec (2 * 4 + p) 8) as [|_]; [lia|].
    apply lookup_ge_None in H2.
    destruct (lookup_lt_is_Some_2 (Legacy.shuffledDeck s) (1 * 4 + p))
      as [card Hcard]; [lia|].
    rewrite Hcard in H1. apply lookup_lt_Some in H1. lia.
  - unfold Legacy.remaining. cbn [Legacy.shuffledDeck].
    rewrite length_drop, Hall. reflexivity.
Qed.

(** X18. The legacy dealer deals round-robin and stops when the deck is
    exhausted.  [dealHands] throws a [TypeError], leaving the deck as it
    is, unless [numPlayers] is an integer of 1 or more and [cardsEach] an
    integer of 0 or more, and a [RangeError] when [numPlayers] is above
    the greatest array length.  Otherwise it returns [numPlayers] hands that
    hold, between them, the first [m] cards of the deck, [m] being
    [numPlayers * cardsEach] or the size of the deck if that is less:
    card [j] of seat [p] is the card at position [j * numPlayers + p],
    and the deck keeps the cards from position [m] on.  After
    [initShuffledDeck], which leaves a permutation of the 52 cards,
    [dealHands(4, 2)] (the legacy demo) returns four hands of two cards
    and leaves 44 cards. *)
Theorem legacy_dealHands_round_robin :
  (forall (numPlayers cardsEach : Legacy.Num) (s : Legacy.t),
     match numPlayers with
     | Legacy.Int n => (n < 1)%Z
     | Legacy.NotInteger => True
     end ->
     Legacy.dealHands numPlayers cardsEach s
     = (Legacy.TypeError "numPlayers must be a positive integer", s)) /\
  (forall (n : Z) (cardsEach : Legacy.Num) (s : Legacy.t),
     (1 <= n)%Z ->
     match cardsEach with
     | Legacy.Int k => (k < 0)%Z
     | Legacy.NotInteger => True
     end ->
     Legacy.dealHands (Legacy.Int n) cardsEach s
     = (Legacy.TypeError "cardsEach must be a non-negative integer", s)) /\
  (forall (n k : Z) (s : Legacy.t),
     (4294967295 < n)%Z -> (0 <= k)%Z ->
     Legacy.dealHands (Legacy.Int n) (Legacy.Int k) s
     = (Legacy.RangeError, s)) /\
  (forall (n k : Z) (s : Legacy.t),
     (1 <= n <= 4294967295)%Z -> (0 <= k)%Z ->
     let deck := Legacy.shuffledDeck s in
     let m := Z.to_nat (n * k) `min` length deck in
     exists hands : list (list Card.t),
       Legacy.dealHands (Legacy.Int n) (Legacy.Int k) s
       = (Legacy.Ok hands,
          {| Legacy.shuffledDeck := drop m deck;
             Legacy.random := Legacy.random s |}) /\
       length hands = Z.to_nat n /\
       sum_list_with length hands = m /\
       forall (p j : nat) (hand : list Card.t),
         hands !! p = Some hand ->
         hand !! j
         = if j * Z.to_nat n + p <? m then deck !! (j * Z.to_nat n + p)
           else None) /\
  (forall r : Deck.Random,
     let s := Legacy.initShuffledDeck r in
     Legacy.remaining s = 52 /\
     Legacy.shuffledDeck s ≡ₚ Deck.buildSingleDeck /\
     exists (hands : list (list Card.t)) (s' : Legacy.t),
       Legacy.dealHands (Legacy.Int 4) (Legacy.Int 2) s
       = (Legacy.Ok hands, s') /\
       length hands = 4 /\
       Forall (fun hand => length hand = 2) hands /\
       Legacy.remaining s' = 44).
Proof.
  split; [|split; [|split; [|split; [exact dealHands_deals|]]]].
  - intros [n|] cardsEach s H; cbn [Legacy.dealHands]; [|reflexivity].
    destruct (Z.ltb_spec n 1); [reflexivity|lia].
  - intros n [k|] s Hn H; cbn [Legacy.dealHands];
      (destruct (Z.ltb_spec n 1); [lia|]); [|reflexivity].
    destruct (Z.ltb_spec k 0); [reflexivity|lia].
  - intros n k s Hn Hk. cbn [Legacy.dealHands].
    destruct (Z.ltb_spec n 1); [lia|].
    destruct (Z.ltb_spec k 0); [lia|].
    destruct (Z.ltb_spec 4294967295 n); [reflexivity|lia].
  - intros r s.
    pose proof (initShuffledDeck_perm r) as Hperm. fold s in Hperm.
    clearbody s.
    pose proof (remaining_perm s _ Hperm) as Hall.
    change (length Deck.buildSingleDeck) with 52 in Hall.
    split; [exact Hall|]. split; [exact Hperm|].
    exact (legacy_demo s Hall).
Qed.

(** ** What a player's action does to the table *)

(** X19. A hit, a stand or a double-down touches the active hand only.
    After any sequence of calls on a new engine, in PLAYER_TURN, a call
    of [playerHit], [playerStand] or [playerDoubleDown] (on a hand of two
    cards) that returns leaves every other player hand as it was and in
    its place; the active hand keeps its cards and gets the card drawn
    after them (none for a stand, at most one otherwise); its wager is
    doubled by a double-down and kept otherwise; it is marked settled by
    a stand and by a double-down, and by a hit exactly when the hit busts
    it.  Then either the round is over, or the turn goes on with the
    dealer hand as it was, on the same hand after a hit that does not
    bust, and on a later hand otherwise. *)
Theorem player_action_frame :
  forall (opts : Dealer.Opts) (r : Deck.Random) (fuel0 : nat)
         (actions : list Action) (g : t) (fuel : nat) (a : Action)
         (hand : Hand.t) (g' : t),
    play fuel0 actions (createGame opts r) = Some g ->
    state g = PLAYER_TURN ->
    getActiveHand g = Some hand ->
    a = PlayerHit \/ a = PlayerStand \/
    (a = PlayerDoubleDown /\ length (Hand.cards hand) = 2) ->
    perform fuel a g = (Returned tt, g') ->
    exists (hand' : Hand.t) (drawn : list Card.t),
      playerHands g' = <[activeHandIdx g := hand']> (playerHands g) /\
      Hand.cards hand' = Hand.cards hand ++ drawn /\
      length drawn <= match a with PlayerStand => 0 | _ => 1 end /\
      Hand.bet hand'
      = match a with
        | PlayerDoubleDown => (Hand.bet hand * 2)%Q
        | _ => Hand.bet hand
        end /\
      Hand.settled hand'
      = match a with PlayerHit => Hand.isBusted hand' | _ => true end /\
      (state g' = GAME_OVER \/
       (state g' = PLAYER_TURN /\ dealerHand g' = dealerHand g /\
        if Hand.settled hand'
        then activeHandIdx g < activeHandIdx g'
        else activeHandIdx g' = activeHandIdx g)).
Proof.
  intros opts r fuel0 actions g fuel a hand g' Hplay Hst Hact Ha Hcall.
  pose proof (play_table fuel0 actions _ g (createGame_table opts r) Hplay)
    as Hinv.
  unfold tableInv in Hinv. rewrite Hst in Hinv.
  destruct Hinv as (_ & (dHand & Hd & _) & (hand0 & Hact0 & Hopen & _) & _).
  rewrite Hact in Hact0. injection Hact0 as <-.
  assert (forall g1 : t,
            (Returned tt, g') = skipSettledHands fuel g1 ->
            dealerHand g1 = Some dHand ->
            state g1 = PLAYER_TURN ->
            activeHandIdx g1 = S (activeHandIdx g) ->
            playerHands g' = playerHands g1 /\
            (state g' = GAME_OVER \/
             (state g' = PLAYER_TURN /\ dealerHand g' = dealerHand g1 /\
              activeHandIdx g < activeHandIdx g'))) as Hnext.
  { intros g1 Hskip Hd1 Hst1 Hidx1.
    destruct (skipSettledHands_frame fuel g1 dHand Hd1) as (Hh & _ & Hturn).
    destruct (skipSettledHands_log fuel g1 dHand Hd1) as [H|[[H _]|[H _]]];
      rewrite <- Hskip in *; cbn [fst snd] in *; [discriminate H| |].
    - split; [exact Hh|]. left. exact H.
    - rewrite Hst1 in H. destruct (Hturn H) as (Hd' & _ & Hle).
      split; [exact Hh|]. right. split; [exact H|]. split; [exact Hd'|]. lia. }
  destruct Ha as [->|[->|[-> Hlen]]]; cbn [perform] in Hcall.
  - (* hit *)
    rewrite (playerHit_eq fuel g hand Hst Hact) in Hcall. cbv zeta in Hcall.
    destruct (hit_appends hand (dealer g))
      as (drawn & Hone & Hcards & Hbet & Hset & _).
    destruct (Dealer.hit hand (dealer g)) as [[card hand'] d'].
    cbn [fst snd] in *.
    destruct (Hand.isBusted hand') eqn:Ebust.
    + rewrite advanceHand_eq in Hcall. symmetry in Hcall.
      destruct (Hnext _ Hcall Hd Hst eq_refl) as (Hh & Hend).
      exists (Hand.settle hand'), drawn.
      split; [rewrite Hh; cbn; apply list_insert_insert_eq|].
      split; [exact Hcards|]. split; [exact Hone|]. split; [exact Hbet|].
      split; [cbn; unfold Hand.isBusted, Hand.htotal in *; cbn;
              symmetry; exact Ebust|].
      exact Hend.
    + injection Hcall as <-. exists hand', drawn.
      split; [reflexivity|]. split; [exact Hcards|]. split; [exact Hone|].
      split; [exact Hbet|]. split; [congruence|].
      right. split; [exact Hst|]. split; [reflexivity|].
      rewrite Hset, Hopen. reflexivity.
  - (* stand *)
    rewrite (playerStand_eq fuel g hand Hst Hact), advanceHand_eq in Hcall.
    symmetry in Hcall.
    destruct (Hnext _ Hcall Hd Hst eq_refl) as (Hh & Hend).
    exists (Hand.settle hand), []. split; [rewrite Hh; reflexivity|].
    split; [cbn; rewrite app_nil_r; reflexivity|].
    split; [cbn; lia|]. split; [reflexivity|]. split; [reflexivity|].
    exact Hend.
  - (* double-down *)
    rewrite (playerDoubleDown_eq fuel g hand Hst Hact Hlen) in Hcall.
    cbv zeta in Hcall.
    destruct (hit_appends (Hand.doubleBet hand) (dealer g))
      as (drawn & Hone & Hcards & Hbet & Hset & _).
    destruct (Dealer.hit (Hand.doubleBet hand) (dealer g))
      as [[card hand'] d'].
    cbn [fst snd] in *. rewrite advanceHand_eq in Hcall. symmetry in Hcall.
    unfold doubledGame in Hcall.
    exists (Hand.settle hand'), drawn.
    assert (playerHands g'
            = <[activeHandIdx g := Hand.settle hand']> (playerHands g) /\
            (state g' = GAME_OVER \/
             (state g' = PLAYER_TURN /\ dealerHand g' = dealerHand g /\
              activeHandIdx g < activeHandIdx g'))) as (Hh & Hend).
    { destruct (Hand.isBusted (Hand.settle hand'));
        destruct (Hnext _ Hcall Hd Hst eq_refl) as (Hh & Hend);
        split; assumption. }
    split; [exact Hh|]. split; [exact Hcards|]. split; [exact Hone|].
    split; [exact Hbet|]. split; [reflexivity|]. exact Hend.
Qed.

Lemma player_action_frame_witness :
  let g0 := createGame Dealer.defaults (Deck.mkRandom id 0) in
  let g :=
    default g0 (play 30 [PlaceBets [Dealer.number 10; Dealer.number 20]] g0)
  in
  let hand := default (Hand.createHand false 0%Q) (getActiveHand g) in
  let g' := snd (perform 30 PlayerDoubleDown g) in
  exists (hand' : Hand.t) (drawn : list Card.t),
    playerHands g' = <[activeHandIdx g := hand']> (playerHands g) /\
    Hand.cards hand' = Hand.cards hand ++ drawn /\
    length drawn <= 1 /\
    Hand.bet hand' = (Hand.bet hand * 2)%Q /\
    Hand.settled hand' = true /\
    (state g' = GAME_OVER \/
     (state g' = PLAYER_TURN /\ dealerHand g' = dealerHand g /\
      if Hand.settled hand'
      then activeHandIdx g < activeHandIdx g'
      else activeHandIdx g' = activeHandIdx g)).
Proof.
  intros g0 g hand g'.
  apply (player_action_frame Dealer.defaults (Deck.mkRandom id 0) 30
           [PlaceBets [Dealer.number 10; Dealer.number 20]] g 30
           PlayerDoubleDown hand g');
    [vm_compute; reflexivity|vm_compute; reflexivity|vm_compute; reflexivity
    |right; right; split; [reflexivity|vm_compute; reflexivity]
    |vm_compute; reflexivity].
Defined.

(** ** The penetration is not validated *)

Lemma reshuffleAt_nonneg (s : Deck.t) :
  (Deck.penetration s <= 1)%Q -> (0 <= reshuffleAt s)%Z.
Proof.
  intros Hp. unfold reshuffleAt. change 0%Z with (Qfloor 0).
  apply Qfloor_resp_le. apply Qmult_le_0_compat.
  - change 0%Q with (inject_Z 0). rewrite <- Zle_Qle. lia.
  - apply (Qplus_le_l _ _ (Deck.penetration s)). ring_simplify. exact Hp.
Qed.

Lemma reshuffleAt_negative (s : Deck.t) :
  (1 < Deck.penetration s)%Q -> 1 <= Deck.totalCards s ->
  (reshuffleAt s < 0)%Z.
Proof.
  intros Hp Htotal. unfold reshuffleAt.
  set (a := inject_Z (Z.of_nat (Deck.totalCards s))).
  assert (0 < a)%Q as Hpos
    by (subst a; change 0%Q with (inject_Z 0); rewrite <- Zlt_Qlt; lia).
  assert (1 - Deck.penetration s < 0)%Q as Hneg.
  { apply (Qplus_lt_l _ _ (Deck.penetration s)). ring_simplify. exact Hp. }
  assert (a * (1 - Deck.penetration s) < a * 0)%Q as Hx
    by (apply Qmult_lt_l; assumption).
  rewrite Qmult_0_r in Hx.
  pose proof (Qfloor_le (a * (1 - Deck.penetration s))) as Hfloor.
  rewrite Zlt_Qlt. change (inject_Z 0) with 0%Q.
  eapply Qle_lt_trans; eassumption.
Qed.

Lemma reshuffleAt_total (s : Deck.t) :
  (Deck.penetration s <= 0)%Q ->
  (Z.of_nat (Deck.totalCards s) <= reshuffleAt s)%Z.
Proof.
  intros Hp. unfold reshuffleAt.
  set (a := inject_Z (Z.of_nat (Deck.totalCards s))).
  rewrite <- (Qfloor_Z (Z.of_nat (Deck.totalCards s))) at 1. fold a.
  apply Qfloor_resp_le.
  assert (0 <= a)%Q as Hpos
    by (subst a; change 0%Q with (inject_Z 0); rewrite <- Zle_Qle; lia).
  assert (1 <= 1 - Deck.penetration s)%Q as Hone.
  { destruct (Deck.penetration s) as [num den].
    unfold Qle in *. cbn in *. lia. }
  pose proof (Qmult_le_compat_r _ _ a Hone Hpos) as H.
  rewrite Qmult_1_l in H. rewrite (Qmult_comm a). exact H.
Qed.

(** X20. [createDeck] takes any penetration, and the reshuffle depends on
    it.  With a penetration of at most 1 a draw on a shoe with no live
    card always merges the discard pile in first.  With a penetration
    above 1 no draw ever reshuffles: it takes the top cards and touches
    nothing else, so once the live cards are gone every draw is empty,
    whatever the discard pile holds.  With a penetration of 0 or less
    (and no more live cards than [totalCards]) every draw reshuffles
    first. *)
Theorem reshuffle_depends_on_penetration :
  (forall (s : Deck.t) (n : nat),
     (Deck.penetration s <= 1)%Q ->
     Deck.cards s = [] ->
     Deck.needsReshuffle s = true /\
     fst (Deck.draw n s) = take n (Deck.cards (Deck.reshuffle s)) /\
     Deck.cards (Deck.reshuffle s) ≡ₚ Deck.discardPile s) /\
  (forall (s : Deck.t) (n : nat),
     (1 < Deck.penetration s)%Q ->
     1 <= Deck.totalCards s ->
     Deck.needsReshuffle s = false /\
     Deck.draw n s
     = (take n (Deck.cards s), withCards (drop n (Deck.cards s)) s) /\
     (Deck.cards s = [] -> Deck.draw n s = ([], s))) /\
  (forall s : Deck.t,
     (Deck.penetration s <= 0)%Q ->
     length (Deck.cards s) <= Deck.totalCards s ->
     Deck.needsReshuffle s = true).
Proof.
  split; [|split].
  - intros s n Hp Hempty.
    assert (Deck.needsReshuffle s = true) as Hneeds.
    { rewrite needsReshuffle_at, Hempty. apply Z.leb_le.
      exact (reshuffleAt_nonneg s Hp). }
    split; [exact Hneeds|]. split.
    + unfold Deck.draw. rewrite Hneeds. cbn [fst].
      destruct (Nat.ltb_spec (length (Deck.cards (Deck.reshuffle s))) n)
        as [Hshort|_]; [|reflexivity].
      rewrite (take_ge _ n) by lia. apply firstn_all.
    + destruct (reshuffle_perm s) as [Hperm _]. rewrite Hperm, Hempty.
      reflexivity.
  - intros s n Hp Htotal.
    assert (Deck.needsReshuffle s = false) as Hnever.
    { rewrite needsReshuffle_at. apply Z.leb_gt.
      pose proof (reshuffleAt_negative s Hp Htotal). lia. }
    assert (Deck.draw n s
            = (take n (Deck.cards s), withCards (drop n (Deck.cards s)) s))
      as Hdraw.
    { unfold Deck.draw. rewrite Hnever.
      destruct (Nat.ltb_spec (length (Deck.cards s)) n) as [Hshort|_];
        [|reflexivity].
      rewrite (take_ge _ n), (drop_ge _ n) by lia.
      rewrite firstn_all, drop_all. reflexivity. }
    split; [exact Hnever|]. split; [exact Hdraw|].
    intros Hempty. rewrite Hdraw, Hempty.
    rewrite take_nil, drop_nil. rewrite <- Hempty.
    destruct s; reflexivity.
  - intros s Hp Hlive. rewrite needsReshuffle_at. apply Z.leb_le.
    pose proof (reshuffleAt_total s Hp). lia.
Qed.

(** ** A forced reshuffle rebuilds the shoe *)

Lemma buildShoe_holds (n : nat) (card : Card.t) :
  1 <= n -> standard card -> card ∈ Deck.buildShoe n.
Proof.
  intros Hn Hc. destruct n as [|n]; [lia|]. cbn [Deck.buildShoe].
  apply elem_of_app. right. exact Hc.
Qed.

(** X21. [Dealer.reshuffle] ([shoe.reset]) rebuilds the shoe from
    scratch: whatever the shoe held, the live cards are afterwards a
    permutation of [numDecks] full decks, the discard pile is empty,
    [totalCards] is [numDecks * 52], the options are kept and
    [Math.random] has been called once per card but one.  The cards that
    are out are not taken back first: a card that [hit] has just put in a
    hand is, after [reshuffle], in the hand and in the shoe. *)
Theorem reshuffle_rebuilds_shoe :
  (forall d : Dealer.t,
     let s := Dealer.shoe d in
     let s' := Dealer.shoe (Dealer.reshuffle d) in
     Deck.cards s' ≡ₚ Deck.buildShoe (Deck.numDecks s) /\
     Deck.discardPile s' = [] /\
     Deck.totalCards s' = Deck.numDecks s * 52 /\
     Deck.numDecks s' = Deck.numDecks s /\
     Deck.penetration s' = Deck.penetration s /\
     Dealer.hitsSoft17 (Dealer.reshuffle d) = Dealer.hitsSoft17 d /\
     Deck.calls (Deck.random s')
     = Deck.calls (Deck.random s) + (Deck.numDecks s * 52 - 1)) /\
  (forall (d d' : Dealer.t) (hand hand' : Hand.t) (card : Card.t),
     standardShoe (Dealer.shoe d) ->
     1 <= Deck.numDecks (Dealer.shoe d) ->
     Dealer.hit hand d = ((Some card, hand'), d') ->
     card ∈ Hand.cards hand' /\
     card ∈ Deck.cards (Dealer.shoe (Dealer.reshuffle d'))).
Proof.
  assert (forall d : Dealer.t,
            Deck.cards (Dealer.shoe (Dealer.reshuffle d))
            ≡ₚ Deck.buildShoe (Deck.numDecks (Dealer.shoe d)) /\
            Deck.calls (Deck.random (Dealer.shoe (Dealer.reshuffle d)))
            = Deck.calls (Deck.random (Dealer.shoe d))
              + (Deck.numDecks (Dealer.shoe d) * 52 - 1)) as Hperm.
  { intros d. unfold Dealer.reshuffle, Deck.reset, Deck.fisherYatesShuffle.
    cbn [Dealer.shoe Dealer.withShoe].
    pose proof (shuffleLoop_perm
                  (length (Deck.buildShoe (Deck.numDecks (Dealer.shoe d))) - 1)
                  (Deck.buildShoe (Deck.numDecks (Dealer.shoe d)))
                  (Deck.random (Dealer.shoe d))) as [H1 H2].
    destruct (Deck.shuffleLoop _ _ _) as [shuffled r']. cbn in *.
    rewrite buildShoe_length in H2. split; assumption. }
  split.
  - intros d s s'. subst s s'. destruct (Hperm d) as [H1 H2].
    split; [exact H1|]. split; [|split; [|split; [|split; [|split]]]];
      try exact H2;
      unfold Dealer.reshuffle, Deck.reset; cbn [Dealer.shoe Dealer.withShoe];
      destruct (Deck.fisherYatesShuffle _ _) as [shuffled r'];
      try reflexivity.
    cbn. apply buildShoe_length.
  - intros d d' hand hand' card Hs Hn Hhit.
    pose proof (hit_draw hand d (draw_one _)) as E. rewrite Hhit in E.
    pose proof (f_equal (fun x => fst (fst x)) E) as Ecard.
    pose proof (f_equal (fun x => snd (fst x)) E) as Ehand.
    pose proof (f_equal snd E) as Ed. cbn [fst snd] in Ecard, Ehand, Ed.
    clear E.
    pose proof (draw_standard 1 (Dealer.shoe d) Hs) as [Hdrawn _].
    destruct (fst (Deck.draw 1 (Dealer.shoe d))) as [|c rest] eqn:Edrawn;
      cbn [head] in Ecard; [discriminate Ecard|].
    injection Ecard as ->.
    apply Forall_cons in Hdrawn as [Hc _]. split.
    + rewrite Ehand. cbn. apply elem_of_app. right. left.
    + destruct (Hperm d') as [H1 _]. rewrite H1.
      apply buildShoe_holds; [|exact Hc].
      rewrite Ed. cbn [Dealer.shoe Dealer.withShoe].
      unfold Deck.draw. cbn [snd Deck.numDecks].
      destruct (Deck.needsReshuffle (Dealer.shoe d)); [|exact Hn].
      unfold Deck.reshuffle. destruct (Deck.fisherYatesShuffle _ _).
      exact Hn.
Qed.

(** ** A table of few hands never starves the dealer *)

Lemma hardSum_le_10 (cards : list Card.t) :
  Forall standard cards -> (hardSum cards <= 10 * Z.of_nat (length cards))%Z.
Proof.
  induction 1 as [|card cards Hc _ IH]; [reflexivity|].
  cbn [hardSum foldr length]. fold (hardSum cards).
  pose proof (standard_hard_le card Hc). lia.
Qed.

Lemma hardSum_short (cards : list Card.t) :
  Forall standard cards ->
  (6 * Z.of_nat (length cards)
   <= hardSum cards + Z.of_nat (weigh shortOf6 cards))%Z.
Proof.
  induction 1 as [|card cards Hc _ IH]; [reflexivity|].
  cbn [hardSum foldr length]. fold (hardSum cards).
  unfold weigh in *. cbn [sum_list_with].
  destruct (standard_hard card Hc) as [H1 _]. unfold shortOf6 at 1. lia.
Qed.

Lemma deck_short : weigh shortOf6 Deck.buildSingleDeck = 60.
Proof. vm_compute. reflexivity. Qed.

(** The cards of the player hands, counted against what they lack. *)
Lemma held_short (hands : list Hand.t) :
  Forall standardHand hands ->
  Forall (fun hand => (hardSum (Hand.cards hand) <= 31)%Z) hands ->
  (6 * Z.of_nat (heldBy hands)
   <= 31 * Z.of_nat (length hands)
      + Z.of_nat (heldWeight shortOf6 hands))%Z.
Proof.
  induction 1 as [|hand hands Hh _ IH]; intros Hm; [reflexivity|].
  apply Forall_cons in Hm as [Hhand Hm]. specialize (IH Hm).
  rewrite heldBy_cons, heldWeight_cons. cbn [length].
  pose proof (hardSum_short _ Hh). unfold Hand.size. lia.
Qed.

Lemma open_hand_hard (hand : Hand.t) :
  standardHand hand -> Hand.isBusted hand = false ->
  (hardSum (Hand.cards hand) <= 21)%Z.
Proof.
  intros Hh Hopen. unfold Hand.isBusted, Hand.htotal in Hopen.
  apply Z.ltb_ge in Hopen. destruct (total_bounds _ Hh) as [Hlow _]. lia.
Qed.

Lemma hit_hard (hand : Hand.t) (d : Dealer.t) :
  standardShoe (Dealer.shoe d) ->
  (hardSum (Hand.cards (snd (fst (Dealer.hit hand d))))
   <= hardSum (Hand.cards hand) + 10)%Z.
Proof.
  intros Hs. destruct (hit_appends hand d)
    as (drawn & Hone & Hcards & _ & _ & _ & Hstd).
  rewrite Hcards, hardSum_app. specialize (Hstd Hs).
  pose proof (hardSum_le_10 _ Hstd). lia.
Qed.

Local Ltac hard_lia := unfold hardSum in *; cbn in *; lia.

Lemma perform_modest (fuel : nat) (a : Action) (g : t) :
  tableInv g -> standardGame g -> modest g ->
  modest (snd (perform fuel a g)).
Proof.
  intros Hinv Hg Hm. destruct (permitted a g) eqn:Hguard;
    [|destruct (invalid_action_guard fuel a g Hguard) as [message ->];
      exact Hm].
  pose proof Hg as (Hs & Hhands & _).
  destruct a as [bets| | | | |]; cbn [perform permitted] in *.
  - apply andb_prop in Hguard as [Hst Hbets]. apply state_eqb_eq in Hst.
    assert (bets <> []) as Hne by (destruct bets; [discriminate|congruence]).
    destruct (placeBets_after_standard_deal fuel bets g Hst Hne Hs)
      as (_ & Hdealt & _).
    pose proof (dealInitial_dealt (length bets) bets (dealer g) Hs)
      as [Hp _].
    intros _. rewrite Hdealt. eapply Forall_impl; [exact Hp|].
    intros hand (_ & Hstd & Hsize). cbn beta.
    pose proof (hardSum_le_10 _ Hstd). unfold Hand.size in Hsize. lia.
  - apply state_eqb_eq in Hguard. unfold tableInv in Hinv.
    rewrite Hguard in Hinv.
    destruct Hinv as (_ & (dHand & Hd & _) & (hand & Hact & _ & Hopen) & _).
    specialize (Hm Hguard).
    assert (standardHand hand) as Hh
      by (exact (Forall_lookup_1 _ _ _ _ Hhands Hact)).
    pose proof (open_hand_hard hand Hh Hopen) as Hlow.
    rewrite (playerHit_eq fuel g hand Hguard Hact). cbv zeta.
    pose proof (hit_hard hand (dealer g) Hs) as Hhard.
    destruct (Dealer.hit hand (dealer g)) as [[card hand'] d'].
    cbn [fst snd] in *. destruct (Hand.isBusted hand').
    + rewrite advanceHand_eq.
      match goal with
      | |- context [skipSettledHands fuel ?g1] =>
          destruct (skipSettledHands_frame fuel g1 dHand Hd) as (Hh' & _)
      end.
      intros _. rewrite Hh'. cbn. rewrite list_insert_insert_eq.
      apply Forall_insert; [exact Hm|]. hard_lia.
    + intros _. cbn. apply Forall_insert; [exact Hm|]. hard_lia.
  - apply state_eqb_eq in Hguard. unfold tableInv in Hinv.
    rewrite Hguard in Hinv.
    destruct Hinv as (_ & (dHand & Hd & _) & (hand & Hact & _) & _).
    specialize (Hm Hguard).
    rewrite (playerStand_eq fuel g hand Hguard Hact), advanceHand_eq.
    match goal with
    | |- context [skipSettledHands fuel ?g1] =>
        destruct (skipSettledHands_frame fuel g1 dHand Hd) as (Hh' & _)
    end.
    intros _. rewrite Hh'. cbn.
    apply Forall_insert; [exact Hm|]. cbn.
    exact (Forall_lookup_1 _ _ _ _ Hm Hact).
  - apply andb_prop in Hguard as [Hst Hlen]. apply state_eqb_eq in Hst.
    unfold tableInv in Hinv. rewrite Hst in Hinv.
    destruct Hinv as (_ & (dHand & Hd & _) & (hand & Hact & _ & Hopen) & _).
    specialize (Hm Hst).
    assert (standardHand hand) as Hh
      by (exact (Forall_lookup_1 _ _ _ _ Hhands Hact)).
    pose proof (open_hand_hard hand Hh Hopen) as Hlow.
    rewrite Hact in Hlen. apply Nat.eqb_eq in Hlen.
    rewrite (playerDoubleDown_eq fuel g hand Hst Hact Hlen). cbv zeta.
    pose proof (hit_hard (Hand.doubleBet hand) (dealer g) Hs) as Hhard.
    destruct (Dealer.hit (Hand.doubleBet hand) (dealer g))
      as [[card hand'] d'].
    cbn [fst snd Hand.doubleBet Hand.cards] in *.
    rewrite advanceHand_eq. unfold doubledGame.
    destruct (Hand.isBusted (Hand.settle hand'));
      match goal with
      | |- context [skipSettledHands fuel ?g1] =>
          destruct (skipSettledHands_frame fuel g1 dHand Hd) as (Hh' & _)
      end;
      intros _; rewrite Hh'; cbn;
      (apply Forall_insert; [exact Hm|]); hard_lia.
  - apply andb_prop in Hguard as [Hst Hpair]. apply state_eqb_eq in Hst.
    unfold tableInv in Hinv. rewrite Hst in Hinv.
    destruct Hinv as (_ & (dHand & Hd & _) & (hand & Hact & _) & _).
    specialize (Hm Hst).
    rewrite Hact in Hpair.
    destruct (Hand.cards hand) as [|c0 [|c1 [|c2 rest]]] eqn:Ecards;
      try discriminate.
    apply bool_decide_eq_true in Hpair.
    rewrite (playerSplit_eq fuel g hand c0 c1 Hst Hact Ecards Hpair).
    cbv zeta.
    assert (standardHand hand) as Hh
      by (exact (Forall_lookup_1 _ _ _ _ Hhands Hact)).
    unfold standardHand in Hh. rewrite Ecards in Hh.
    apply Forall_cons in Hh as [Hc0 Hh]. apply Forall_cons in Hh as [Hc1 _].
    set (seedA := Hand.addCards [c0] (Hand.createHand false (Hand.bet hand))).
    set (seedB := Hand.addCards [c1] (Hand.createHand false (Hand.bet hand))).
    assert (standardHand seedA) as HsA
      by (constructor; [exact Hc0|constructor]).
    pose proof (hit_hard seedA (dealer g) Hs) as HA.
    pose proof (hit_standard seedA (dealer g) Hs HsA) as [Hs1 _].
    destruct (Dealer.hit seedA (dealer g)) as [[cardA handA] d1].
    cbn [fst snd] in *.
    pose proof (hit_hard seedB d1 Hs1) as HB.
    destruct (Dealer.hit seedB d1) as [[cardB handB] d2].
    cbn [fst snd] in *.
    match goal with
    | |- context [skipSettledHands fuel ?g1] =>
        destruct (skipSettledHands_frame fuel g1 dHand Hd) as (Hh' & _)
    end.
    intros _. rewrite Hh'. cbn.
    pose proof (standard_hard_le c0 Hc0). pose proof (standard_hard_le c1 Hc1).
    subst seedA seedB. cbn [Hand.addCards Hand.createHand Hand.cards app
      hardSum foldr] in HA, HB.
    apply Forall_app. split; [apply Forall_take, Hm|].
    constructor; [lia|]. constructor; [lia|]. apply Forall_drop, Hm.
  - intros H. discriminate H.
Qed.

Lemma run_modest (total fuel : nat) (actions : list Action) :
  forall g g' : t,
    tableInv g -> roundInv total g -> standardGame g -> modest g ->
    run fuel actions g = Some g' -> modest g'.
Proof.
  induction actions as [|a actions IH]; intros g g' Hinv Hround Hg Hm Hrun;
    cbn [run] in Hrun.
  - apply (inj Some) in Hrun. subst g'. exact Hm.
  - destruct (inOrder a g) eqn:Horder; [|discriminate Hrun].
    pose proof (perform_table fuel a g Hinv) as Ht.
    pose proof (perform_standard total fuel a g Hround Hg) as Hg1.
    pose proof (perform_modest fuel a g Hinv Hg Hm) as Hm1.
    pose proof (perform_keeps total fuel a g Hround Horder) as Hk.
    destruct (perform fuel a g) as [[[]|message|] g1]; cbn [fst snd] in *;
      try discriminate Hrun;
      (destruct Ht as [Ht|Ht]; [discriminate Ht|]);
      (destruct Hk as [Hk|Hk]; [discriminate Hk|]); eauto.
Qed.

Lemma createGame_modest (opts : Dealer.Opts) (r : Deck.Random) :
  modest (createGame opts r).
Proof. intros H. discriminate H. Qed.

(** X22. A table of few hands never starves the dealer.  After any
    sequence of actions on a new engine with a penetration of at most 1
    that plays its rounds to the end, if the player hands on the table,
    split hands included, number [h] with
    [31 * h + 114 <= 252 * numDecks] (4 hands on one deck, 45 on six),
    then every action returns or throws at once: the hands cannot hold
    so many cards that the dealer's loop runs out of them. *)
Theorem few_hands_never_starve :
  forall (opts : Dealer.Opts) (r : Deck.Random) (fuel0 : nat)
         (actions : list Action) (g : t) (a : Action) (fuel : nat),
    run fuel0 actions (createGame opts r) = Some g ->
    (Dealer.penetration opts <= 1)%Q ->
    31 * length (playerHands g) + 114 <= 252 * Dealer.numDecks opts ->
    17 < fuel ->
    exists (g' : t),
      perform fuel a g = (Returned tt, g') \/
      exists message : string, perform fuel a g = (Thrown message, g').
Proof.
  intros opts r fuel0 actions g a fuel Hrun Hp Hfew Hfuel.
  pose proof (run_play fuel0 actions _ g Hrun) as Hplay.
  pose proof (play_table fuel0 actions _ g (createGame_table opts r) Hplay)
    as Hinv.
  pose proof (run_inv _ fuel0 actions _ g (createGame_inv opts r) Hrun)
    as [Hcons _].
  pose proof (run_standard _ fuel0 actions _ g (createGame_inv opts r)
                (createGame_standard opts r) Hrun) as Hg.
  pose proof (run_penetration fuel0 actions _ g (createGame_table opts r)
                Hrun) as Hpen.
  rewrite createGame_penetration in Hpen.
  pose proof (run_balanced shortOf6 fuel0 _ actions _ g
                (createGame_table opts r)
                (createGame_balanced shortOf6 opts r) Hrun) as Hbal.
  pose proof (run_modest _ fuel0 actions _ g (createGame_table opts r)
                (createGame_inv opts r) (createGame_standard opts r)
                (createGame_modest opts r) Hrun) as Hm.
  assert (fst (perform fuel a g) <> Running) as Hret.
  { apply perform_returns; try assumption; [rewrite Hpen; exact Hp|].
    intros dHand Hst Hd. destruct Hg as (_ & Hhands & Hdh).
    unfold conserved in Hcons. unfold balanced in Hbal.
    rewrite Hst in Hcons, Hbal. rewrite Hd in Hcons. cbn in Hcons.
    rewrite deck_short in Hbal.
    pose proof (held_short _ Hhands (Hm Hst)) as Hheld.
    pose proof (size_le_hardSum _ (Hdh dHand Hd)) as Hsize.
    unfold Hand.size in Hcons.
    assert (drawsOf a <= 2) by (destruct a; cbn; lia). lia. }
  destruct (perform fuel a g) as [[[]|message|] g'];
    [exists g'; left; reflexivity|exists g'; right; eauto|contradiction].
Qed.

Lemma few_hands_never_starve_witness :
  let g0 := createGame Dealer.defaults (Deck.mkRandom id 0) in
  let g :=
    default g0
      (run 30 [PlaceBets [Dealer.number 10; Dealer.number 20]; PlayerHit]
         g0) in
  exists (g' : t),
    perform 18 PlayerStand g = (Returned tt, g') \/
    exists message : string, perform 18 PlayerStand g = (Thrown message, g').
Proof.
  intros g0 g.
  apply (few_hands_never_starve Dealer.defaults (Deck.mkRandom id 0) 30
           [PlaceBets [Dealer.number 10; Dealer.number 20]; PlayerHit]);
    [vm_compute; reflexivity|vm_compute; discriminate|vm_compute; lia|lia].
Defined.

(** ** A round abandoned by [newRound] *)

Lemma draw_shrinks (n : nat) (s : Deck.t) :
  shoeCount (snd (Deck.draw n s)) <= shoeCount s.
Proof. pose proof (draw_count n s). lia. Qed.

Lemma hit_shrinks (hand : Hand.t) (d : Dealer.t) :
  shoeCount (Dealer.shoe (snd (Dealer.hit hand d)))
  <= shoeCount (Dealer.shoe d).
Proof.
  unfold Dealer.hit. pose proof (draw_shrinks 1 (Dealer.shoe d)) as H.
  destruct (Deck.draw 1 (Dealer.shoe d)) as [[|card rest] s]; exact H.
Qed.

Lemma dealPass_shrinks (hands : list Hand.t) :
  forall s : Deck.t,
    shoeCount (snd (Dealer.dealPass hands s)) <= shoeCount s.
Proof.
  induction hands as [|hand hands IH]; intros s; cbn [Dealer.dealPass];
    [reflexivity|].
  pose proof (draw_shrinks 1 s) as H.
  destruct (Deck.draw 1 s) as [drawn s1]. specialize (IH s1).
  destruct (Dealer.dealPass hands s1) as [rest s2]. cbn [fst snd] in *. lia.
Qed.

Lemma dealRound_shrinks (hands : list Hand.t * Hand.t) (s : Deck.t) :
  shoeCount (snd (Dealer.dealRound hands s)) <= shoeCount s.
Proof.
  unfold Dealer.dealRound.
  pose proof (dealPass_shrinks (fst hands) s) as Hp.
  destruct (Dealer.dealPass (fst hands) s) as [playerHands s1].
  pose proof (draw_shrinks 1 s1) as Hd.
  destruct (Deck.draw 1 s1) as [drawn s2]. cbn [fst snd] in *. lia.
Qed.

(** The first draw of a pass takes a card when the shoe has one. *)
Lemma dealRound_takes (hands : list Hand.t * Hand.t) (s : Deck.t) :
  (Deck.penetration s <= 1)%Q ->
  1 <= shoeCount s ->
  shoeCount (snd (Dealer.dealRound hands s)) < shoeCount s.
Proof.
  intros Hp Hcount. unfold Dealer.dealRound.
  pose proof (draw_supplies s Hp Hcount) as Hone.
  pose proof (draw_count 1 s) as Hc.
  destruct hands as [[|hand rest] dHand]; cbn [fst snd Dealer.dealPass].
  - destruct (Deck.draw 1 s) as [drawn s1]. cbn [fst snd] in *. lia.
  - destruct (Deck.draw 1 s) as [drawn s1].
    pose proof (dealPass_shrinks rest s1) as Hrest.
    destruct (Dealer.dealPass rest s1) as [rest' s2].
    pose proof (draw_shrinks 1 s2) as Hd.
    destruct (Deck.draw 1 s2) as [drawn' s3]. cbn [fst snd] in *. lia.
Qed.

Lemma dealInitial_takes (numPlayers : nat) (bets : list Dealer.Wager)
      (d : Dealer.t) :
  (Deck.penetration (Dealer.shoe d) <= 1)%Q ->
  1 <= shoeCount (Dealer.shoe d) ->
  shoeCount (Dealer.shoe (snd (Dealer.dealInitial numPlayers bets d)))
  < shoeCount (Dealer.shoe d).
Proof.
  intros Hp Hcount. unfold Dealer.dealInitial, Dealer.burnCard.
  pose proof (burn_count 1 (Dealer.shoe d)) as Hb.
  assert (Deck.penetration (snd (Deck.burn 1 (Dealer.shoe d)))
          = Deck.penetration (Dealer.shoe d)) as Hpb by reflexivity.
  destruct (Deck.burn 1 (Dealer.shoe d)) as [burned s0].
  cbn [fst snd Dealer.withShoe Dealer.shoe] in *.
  match goal with
  | |- context [Dealer.dealRound ?start s0] =>
      pose proof (dealRound_takes start s0) as H1;
      destruct (Dealer.dealRound start s0) as [hands1 s1]
  end.
  pose proof (dealRound_shrinks hands1 s1) as H2.
  destruct (Dealer.dealRound hands1 s1) as [hands2 s2].
  cbn [fst snd Dealer.withShoe Dealer.shoe] in *.
  rewrite Hpb, Hb in H1. specialize (H1 Hp Hcount). lia.
Qed.

(** During the player's turn a card at least is out of the shoe. *)
Lemma perform_short (total fuel : nat) (a : Action) (g : t) :
  conserved total g -> tableInv g ->
  (Deck.penetration (Dealer.shoe (dealer g)) <= 1)%Q ->
  1 <= total ->
  (state g = PLAYER_TURN -> shoeCount (Dealer.shoe (dealer g)) < total) ->
  state (snd (perform fuel a g)) = PLAYER_TURN ->
  shoeCount (Dealer.shoe (dealer (snd (perform fuel a g)))) < total.
Proof.
  intros Hcons Hinv Hp Htotal Hshort.
  destruct (permitted a g) eqn:Hguard;
    [|destruct (invalid_action_guard fuel a g Hguard) as [message ->];
      exact Hshort].
  destruct a as [bets| | | | |]; cbn [perform permitted] in *.
  - apply andb_prop in Hguard as [Hst Hbets]. apply state_eqb_eq in Hst.
    assert (bets <> []) as Hne by (destruct bets; [discriminate|congruence]).
    unfold conserved in Hcons. rewrite Hst in Hcons.
    rewrite (placeBets_eq fuel bets g Hst Hne). cbv zeta.
    pose proof (dealInitial_takes (length bets) bets (dealer g) Hp) as Htake.
    rewrite Hcons in Htake. specialize (Htake Htotal).
    destruct (Dealer.dealInitial (length bets) bets (dealer g))
      as [[pHands dHand] d1].
    cbn [fst snd] in *.
    destruct (Hand.isBlackjack dHand || forallb Hand.isBlackjack pHands).
    + intros H. discriminate H.
    + match goal with
      | |- context [skipSettledHands fuel ?g1] =>
          destruct (skipSettledHands_frame fuel g1 dHand eq_refl)
            as (_ & _ & Hturn)
      end.
      intros H. destruct (Hturn H) as (_ & -> & _). exact Htake.
  - apply state_eqb_eq in Hguard. unfold tableInv in Hinv.
    rewrite Hguard in Hinv.
    destruct Hinv as (_ & (dHand & Hd & _) & (hand & Hact & _) & _).
    specialize (Hshort Hguard).
    rewrite (playerHit_eq fuel g hand Hguard Hact). cbv zeta.
    pose proof (hit_shrinks hand (dealer g)) as Hhit.
    destruct (Dealer.hit hand (dealer g)) as [[card hand'] d'].
    cbn [fst snd] in *. destruct (Hand.isBusted hand').
    + rewrite advanceHand_eq.
      match goal with
      | |- context [skipSettledHands fuel ?g1] =>
          destruct (skipSettledHands_frame fuel g1 dHand Hd)
            as (_ & _ & Hturn)
      end.
      intros H. destruct (Hturn H) as (_ & -> & _). cbn. lia.
    + intros _. cbn. lia.
  - apply state_eqb_eq in Hguard. unfold tableInv in Hinv.
    rewrite Hguard in Hinv.
    destruct Hinv as (_ & (dHand & Hd & _) & (hand & Hact & _) & _).
    specialize (Hshort Hguard).
    rewrite (playerStand_eq fuel g hand Hguard Hact), advanceHand_eq.
    match goal with
    | |- context [skipSettledHands fuel ?g1] =>
        destruct (skipSettledHands_frame fuel g1 dHand Hd)
          as (_ & _ & Hturn)
    end.
    intros H. destruct (Hturn H) as (_ & -> & _). cbn. lia.
  - apply andb_prop in Hguard as [Hst Hlen]. apply state_eqb_eq in Hst.
    unfold tableInv in Hinv. rewrite Hst in Hinv.
    destruct Hinv as (_ & (dHand & Hd & _) & (hand & Hact & _) & _).
    specialize (Hshort Hst).
    rewrite Hact in Hlen. apply Nat.eqb_eq in Hlen.
    rewrite (playerDoubleDown_eq fuel g hand Hst Hact Hlen). cbv zeta.
    pose proof (hit_shrinks (Hand.doubleBet hand) (dealer g)) as Hhit.
    destruct (Dealer.hit (Hand.doubleBet hand) (dealer g))
      as [[card hand'] d'].
    cbn [fst snd] in *. rewrite advanceHand_eq. unfold doubledGame.
    destruct (Hand.isBusted (Hand.settle hand'));
      match goal with
      | |- context [skipSettledHands fuel ?g1] =>
          destruct (skipSettledHands_frame fuel g1 dHand Hd)
            as (_ & _ & Hturn)
      end;
      intros H; destruct (Hturn H) as (_ & -> & _); cbn; lia.
  - apply andb_prop in Hguard as [Hst Hpair]. apply state_eqb_eq in Hst.
    unfold tableInv in Hinv. rewrite Hst in Hinv.
    destruct Hinv as (_ & (dHand & Hd & _) & (hand & Hact & _) & _).
    specialize (Hshort Hst).
    rewrite Hact in Hpair.
    destruct (Hand.cards hand) as [|c0 [|c1 [|c2 rest]]] eqn:Ecards;
      try discriminate Hpair.
    apply bool_decide_eq_true in Hpair.
    rewrite (playerSplit_eq fuel g hand c0 c1 Hst Hact Ecards Hpair).
    cbv zeta.
    match goal with
    | |- context [Dealer.hit ?seedA (dealer g)] =>
        pose proof (hit_shrinks seedA (dealer g)) as HA;
        destruct (Dealer.hit seedA (dealer g)) as [[cardA handA] d1]
    end.
    cbn [fst snd] in *.
    match goal with
    | |- context [Dealer.hit ?seedB d1] =>
        pose proof (hit_shrinks seedB d1) as HB;
        destruct (Dealer.hit seedB d1) as [[cardB handB] d2]
    end.
    cbn [fst snd] in *.
    match goal with
    | |- context [skipSettledHands fuel ?g1] =>
        destruct (skipSettledHands_frame fuel g1 dHand Hd)
          as (_ & _ & Hturn)
    end.
    intros H. destruct (Hturn H) as (_ & -> & _). cbn. lia.
  - intros H. discriminate H.
Qed.

Lemma run_short (total fuel : nat) (actions : list Action) :
  forall g g' : t,
    roundInv total g -> tableInv g ->
    (Deck.penetration (Dealer.shoe (dealer g)) <= 1)%Q ->
    1 <= total ->
    (state g = PLAYER_TURN -> shoeCount (Dealer.shoe (dealer g)) < total) ->
    run fuel actions g = Some g' ->
    state g' = PLAYER_TURN ->
    shoeCount (Dealer.shoe (dealer g')) < total.
Proof.
  induction actions as [|a actions IH];
    intros g g' Hround Hinv Hp Htotal Hshort Hrun; cbn [run] in Hrun.
  - apply (inj Some) in Hrun. subst g'. exact Hshort.
  - destruct (inOrder a g) eqn:Horder; [|discriminate Hrun].
    pose proof (perform_table fuel a g Hinv) as Ht.
    pose proof (perform_penetration fuel a g Hinv) as Hpen.
    pose proof (perform_short total fuel a g (proj1 Hround) Hinv Hp Htotal
                  Hshort) as Hs1.
    pose proof (perform_keeps total fuel a g Hround Horder) as Hk.
    destruct (perform fuel a g) as [[[]|message|] g1]; cbn [fst snd] in *;
      try discriminate Hrun;
      (destruct Ht as [Ht|Ht]; [discriminate Ht|]);
      (destruct Hk as [Hk|Hk]; [discriminate Hk|]);
      (apply (IH g1 g' Hk Ht); [rewrite Hpen; exact Hp|exact Htotal
                               |exact Hs1|exact Hrun]).
Qed.

(** X3. [newRound] abandons the cards of a round in progress.  On any
    engine reached from [createGame] by rounds played to the end and
    now in PLAYER_TURN, [newRound] returns, the state is BETTING and
    the hands are gone, but their cards are not put on the discard
    pile: the shoe, live and discarded, is short of its
    [numDecks * 52] cards by the number the hands held, which is one
    card at least for a penetration of at most 1 and a deck at least;
    and the engine stays short by that number in whatever is played
    afterwards, with [newRound] between rounds only: the shoe and the
    hands of later rounds count [numDecks * 52] less the abandoned
    cards. *)
Theorem newRound_abandons_cards :
  forall (opts : Dealer.Opts) (r : Deck.Random) (fuel0 : nat)
         (actions : list Action) (g : t),
    run fuel0 actions (createGame opts r) = Some g ->
    state g = PLAYER_TURN ->
    let held := heldBy (playerHands g) + heldByDealer (dealerHand g) in
    let g' := snd (newRound g) in
    fst (newRound g) = Returned tt /\
    state g' = BETTING /\
    playerHands g' = [] /\
    dealerHand g' = None /\
    shoeCount (Dealer.shoe (dealer g')) + held = Dealer.numDecks opts * 52 /\
    ((Dealer.penetration opts <= 1)%Q -> 1 <= Dealer.numDecks opts ->
     1 <= held) /\
    (forall (fuel : nat) (actions' : list Action) (g'' : t),
       run fuel actions' g' = Some g'' ->
       conserved (Dealer.numDecks opts * 52 - held) g'').
Proof.
  intros opts r fuel0 actions g Hrun Hst held g'.
  pose proof (run_inv _ fuel0 actions _ g (createGame_inv opts r) Hrun)
    as [Hcons _].
  unfold conserved in Hcons. rewrite Hst in Hcons. fold held in Hcons.
  assert (shoeCount (Dealer.shoe (dealer g')) + held
          = Dealer.numDecks opts * 52) as Hleft.
  { subst g'. cbn. lia. }
  split; [reflexivity|]. split; [reflexivity|]. split; [reflexivity|].
  split; [reflexivity|]. split; [exact Hleft|]. split.
  - intros Hp Hdecks.
    pose proof (run_short _ fuel0 actions _ g (createGame_inv opts r)
                  (createGame_table opts r)) as Hshort.
    rewrite createGame_penetration in Hshort.
    assert (shoeCount (Dealer.shoe (dealer g)) < Dealer.numDecks opts * 52)
      as Hlt.
    { apply Hshort; [exact Hp|lia|intros H; discriminate H|exact Hrun
                    |exact Hst]. }
    lia.
  - intros fuel actions' g'' Hrun'.
    apply (run_inv _ fuel actions' g' g''); [|exact Hrun'].
    split.
    + unfold conserved. subst g'. cbn. cbn in Hleft. lia.
    + intros H. discriminate H.
Qed.

Lemma newRound_abandons_cards_witness :
  let g0 := createGame Dealer.defaults (Deck.mkRandom id 0) in
  let g := default g0 (run 0 [PlaceBets [Dealer.number 10]] g0) in
  let g' := snd (newRound g) in
  heldBy (playerHands g) + heldByDealer (dealerHand g) = 4 /\
  shoeCount (Dealer.shoe (dealer g')) + 4 = 52 /\
  playerHands g' = [] /\
  conserved 48 (default g' (run 18 [PlaceBets [Dealer.number 10];
                                    PlayerStand] g')).
Proof.
  intros g0 g g'.
  destruct (newRound_abandons_cards Dealer.defaults (Deck.mkRandom id 0) 0
              [PlaceBets [Dealer.number 10]] g)
    as (_ & _ & Hhands & _ & Hleft & _ & Hlater);
    [vm_compute; reflexivity|vm_compute; reflexivity|].
  assert (heldBy (playerHands g) + heldByDealer (dealerHand g) = 4) as Hheld
    by (vm_compute; reflexivity).
  rewrite Hheld in Hleft, Hlater.
  split; [exact Hheld|]. split; [exact Hleft|]. split; [exact Hhands|].
  apply (Hlater 18 [PlaceBets [Dealer.number 10]; PlayerStand]).
  vm_compute. reflexivity.
Defined.
